(** * golos-js: the websocket API client ([src/api/index.js])

    A shallow embedding of the [Golos] class: the connection manager
    ([start], [stop]), the message dispatcher ([onMessage]), the request
    multiplexer ([send]), the four chained block streams
    ([streamBlockNumber] ... [streamOperations]) and the wrappers generated
    from the method registry.

    Conventions of the embedding.
    - JSON values that travel through the code untouched are [jsval]s.
      JavaScript numbers are modelled by [Z]: block numbers and request ids
      are integers far below 2^53, where doubles are exact.
    - The code is run as Babel compiles it (the package ships [lib/]), so a
      [const] read before its initialisation is [undefined].
    - Code that mutates closure variables or [this] is written in a small
      state-and-exception monad over a record of those variables.
    - Asynchronous completions (a websocket event, a settled promise, an
      elapsed delay) are events fed to a step function; what the code does
      to the outside world is appended to a trace.
    - The [WebSocket] class comes from outside the module ([ws] under
      Node, the browser's otherwise). It is a parameter of the client:
      which listener methods its sockets have, and what [send] does on a
      socket that is not open. *)

From stdpp Require Import gmap strings list pretty sorting.
From Equations Require Import Equations.
From Stdlib Require Import ZArith Lia Ascii.

Open Scope Z_scope.
Set Warnings "-register-all".

(** ** JavaScript values, errors and the effect monad *)

Module JS.

Inductive jsval : Type :=
| JUndefined
| JNull
| JBool (b : bool)
| JNum (n : Z)
| JStr (s : string)
| JArr (items : list jsval)
| JObj (fields : list (string * jsval))
| JFun (f : nat).    (* a function value, named by a tag *)

(** [ToBoolean]: what [if (v)], [v || w] and [v && w] test. *)
Definition truthy (v : jsval) : bool :=
  match v with
  | JUndefined | JNull => false
  | JBool b => b
  | JNum n => negb (n =? 0)
  | JStr s => negb (String.eqb s "")
  | JArr _ | JObj _ | JFun _ => true
  end.

(** [a || b] *)
Definition js_or (a b : jsval) : jsval := if truthy a then a else b.

Definition is_function (v : jsval) : bool :=
  match v with
  | JFun _ => true
  | _ => false
  end.

(** [ToString], as string concatenation applies it. Numbers are
    integers below 10^21, which print in full. *)
Fixpoint to_string (v : jsval) : string :=
  match v with
  | JUndefined => "undefined"
  | JNull => "null"
  | JBool true => "true"
  | JBool false => "false"
  | JNum n => pretty n
  | JStr s => s
  | JArr items =>
      (fix join (l : list jsval) : string :=
         match l with
         | [] => ""
         | [x] => match x with
                  | JUndefined | JNull => ""
                  | _ => to_string x
                  end
         | x :: rest =>
             match x with
             | JUndefined | JNull => ""
             | _ => to_string x
             end +:+ "," +:+ join rest
         end) items
  | JObj _ => "[object Object]"
  | JFun _ => "function () { [code] }"
  end.

(** An inbound frame after [JSON.parse]: [{id, error?, result?}]. An
    absent field reads as [JUndefined]. *)
Record frame : Type := {
  msg_id : Z;
  msg_error : jsval;
  msg_result : jsval;
}.

(** An [Error] object: its message and the [payload] attached by
    [onMessage], if any. *)
Record js_error : Type := {
  err_message : string;
  err_payload : option frame;
}.

Definition new_Error (msg : string) : js_error :=
  {| err_message := msg; err_payload := None |}.

(** What a [throw] carries: a [TypeError] raised by the language itself,
    or an error object thrown by a library the code calls. *)
Inductive exn : Type :=
| TypeError (msg : string)
| Thrown (e : js_error).

(** The error object a [catch] receives. *)
Definition error_of (x : exn) : js_error :=
  match x with
  | TypeError msg => new_Error msg
  | Thrown e => e
  end.

Fixpoint assoc (k : string) (fields : list (string * jsval)) : jsval :=
  match fields with
  | [] => JUndefined
  | (k', v) :: rest => if String.eqb k k' then v else assoc k rest
  end.

(** [v.k] for a key [k] that is not a built-in property: reading a
    property of [undefined] or [null] throws, a primitive or an array has
    no such property, an object is looked up. *)
Definition get_prop (v : jsval) (k : string) : exn + jsval :=
  match v with
  | JUndefined => inl (TypeError ("Cannot read property of undefined: " +:+ k))
  | JNull => inl (TypeError ("Cannot read property of null: " +:+ k))
  | JObj fields => inr (assoc k fields)
  | _ => inr JUndefined
  end.

(** State and exception monad: a computation reads and writes the
    variables in [S] and either returns or throws. What was written
    before a throw stays written. *)
Definition M (S A : Type) : Type := S -> (exn + A) * S.

#[global] Instance M_ret {S} : MRet (M S) :=
  fun A (a : A) s => (inr a, s).

#[global] Instance M_bind {S} : MBind (M S) :=
  fun A B (f : A -> M S B) (m : M S A) s =>
    match m s with
    | (inl e, s') => (inl e, s')
    | (inr a, s') => f a s'
    end.

Definition gets {S A} (f : S -> A) : M S A := fun s => (inr (f s), s).
Definition modify {S} (f : S -> S) : M S unit := fun s => (inr tt, f s).
Definition throw {S A} (e : exn) : M S A := fun s => (inl e, s).
Definition lift {S A} (r : exn + A) : M S A := fun s => (r, s).

(** [try { m } catch (x) { h x }] *)
Definition catch {S A} (m : M S A) (h : exn -> M S A) : M S A :=
  fun s =>
    match m s with
    | (inl x, s') => h x s'
    | (inr a, s') => (inr a, s')
    end.

(** [m] relates every state it is run in to the state it leaves, whether
    it returns or throws. Used with preorders: "the counter did not
    move", "a cancelled stream stays cancelled". *)
Definition preserves {S A} (R : S -> S -> Prop) (m : M S A) : Prop :=
  forall s, R s (snd (m s)).

(** [items.forEach(f)] on a list of items. *)
Fixpoint for_each {S} (f : jsval -> M S unit) (items : list jsval) : M S unit :=
  match items with
  | [] => mret tt
  | x :: rest => f x ;; for_each f rest
  end.

(** [v.forEach(f)]: only arrays have the method. *)
Definition js_forEach {S} (v : jsval) (f : jsval -> M S unit) : M S unit :=
  match v with
  | JArr items => for_each f items
  | JUndefined | JNull => throw (TypeError "Cannot read property 'forEach'")
  | _ => throw (TypeError "forEach is not a function")
  end.

End JS.

Import JS.

(** ** The streaming pipeline (index.js, lines 203-317) *)

Module Stream.

(** The reply of [getDynamicGlobalProperties], as far as the streams
    read it. *)
Record dgp : Type := {
  head_block_number : Z;
  last_irreversible_block_num : Z;
}.

(** A closure variable initialised with [''] and later assigned block
    numbers: [let current = '']. *)
Inductive cursor : Type :=
| Unset            (* the empty string *)
| At (n : Z).      (* a number *)

(** [if (c)]: the empty string and the number 0 are falsy. *)
Definition cursor_truthy (c : cursor) : bool :=
  match c with
  | Unset => false
  | At n => negb (n =? 0)
  end.

(** [a !== b] *)
Definition cursor_neq (a b : cursor) : bool :=
  match a, b with
  | Unset, Unset => false
  | At x, At y => negb (x =? y)
  | _, _ => true
  end.

(** What the pipeline does to the outside world, in order. *)
Inductive obs : Type :=
| Poll                        (* getDynamicGlobalPropertiesAsync() called *)
| Delay (ts : Z)              (* Promise.delay(ts) started *)
| GetBlock (n : Z)            (* this.getBlock(n, ...) called *)
| CallbackErr (e : js_error)  (* the caller's callback(err) *)
| CallbackOk (v : jsval)      (* the caller's callback(null, v) *)
| Uncaught (e : exn).         (* an exception left a handler *)

(** The closure variables of one pipeline, the requests it has
    outstanding, and its trace. *)
Record stream : Type := {
  running : bool;              (* streamBlockNumber: let running = true *)
  current : cursor;            (* streamBlockNumber: let current = '' *)
  sb_current : cursor;         (* streamBlock: let current = '' *)
  sb_last : cursor;            (* streamBlock: let last = '' *)
  polls_in_flight : nat;
  delays_pending : nat;
  fetches_in_flight : list Z;
  trace : list obs;
}.

Definition set_running (b : bool) (s : stream) : stream :=
  {| running := b; current := current s; sb_current := sb_current s;
     sb_last := sb_last s; polls_in_flight := polls_in_flight s;
     delays_pending := delays_pending s;
     fetches_in_flight := fetches_in_flight s; trace := trace s |}.

Definition set_current (c : cursor) (s : stream) : stream :=
  {| running := running s; current := c; sb_current := sb_current s;
     sb_last := sb_last s; polls_in_flight := polls_in_flight s;
     delays_pending := delays_pending s;
     fetches_in_flight := fetches_in_flight s; trace := trace s |}.

Definition set_sb_current (c : cursor) (s : stream) : stream :=
  {| running := running s; current := current s; sb_current := c;
     sb_last := sb_last s; polls_in_flight := polls_in_flight s;
     delays_pending := delays_pending s;
     fetches_in_flight := fetches_in_flight s; trace := trace s |}.

Definition set_sb_last (c : cursor) (s : stream) : stream :=
  {| running := running s; current := current s; sb_current := sb_current s;
     sb_last := c; polls_in_flight := polls_in_flight s;
     delays_pending := delays_pending s;
     fetches_in_flight := fetches_in_flight s; trace := trace s |}.

Definition set_polls (n : nat) (s : stream) : stream :=
  {| running := running s; current := current s; sb_current := sb_current s;
     sb_last := sb_last s; polls_in_flight := n;
     delays_pending := delays_pending s;
     fetches_in_flight := fetches_in_flight s; trace := trace s |}.

Definition set_delays (n : nat) (s : stream) : stream :=
  {| running := running s; current := current s; sb_current := sb_current s;
     sb_last := sb_last s; polls_in_flight := polls_in_flight s;
     delays_pending := n;
     fetches_in_flight := fetches_in_flight s; trace := trace s |}.

Definition set_fetches (l : list Z) (s : stream) : stream :=
  {| running := running s; current := current s; sb_current := sb_current s;
     sb_last := sb_last s; polls_in_flight := polls_in_flight s;
     delays_pending := delays_pending s;
     fetches_in_flight := l; trace := trace s |}.

Definition emit (o : obs) (s : stream) : stream :=
  {| running := running s; current := current s; sb_current := sb_current s;
     sb_last := sb_last s; polls_in_flight := polls_in_flight s;
     delays_pending := delays_pending s;
     fetches_in_flight := fetches_in_flight s; trace := trace s ++ [o] |}.

(** A node-style callback: [callback(err)] or [callback(null, value)]. *)
Definition callback (A : Type) : Type := js_error + A -> M stream unit.

(** The caller's own callback. It is opaque to the library; here it
    records its argument and returns. *)
Definition user_callback : callback jsval :=
  fun a =>
    match a with
    | inl err => modify (emit (CallbackErr err))
    | inr v => modify (emit (CallbackOk v))
    end.

Definition user_number_callback : callback Z :=
  fun a =>
    match a with
    | inl err => modify (emit (CallbackErr err))
    | inr n => modify (emit (CallbackOk (JNum n)))
    end.

(** The two remote calls of the pipeline. Both are registry-generated
    wrappers around [send]; calling one puts a request in flight, and its
    completion arrives later as an [event]. *)
Definition getDynamicGlobalPropertiesAsync : M stream unit :=
  modify (fun s => emit Poll (set_polls (S (polls_in_flight s)) s)).

Definition getBlock (n : Z) : M stream unit :=
  modify (fun s => emit (GetBlock n) (set_fetches (fetches_in_flight s ++ [n]) s)).

(** [Promise.delay(ts).then(() => { update(); })] *)
Definition Promise_delay (ts : Z) : M stream unit :=
  modify (fun s => emit (Delay ts) (set_delays (S (delays_pending s)) s)).

(** The cancel function every stream returns:
    [() => { running = false; }] *)
Definition release : M stream unit := modify (set_running false).

(** *** streamBlockNumber *)

(** [for (let i = current; i < blockId; i++) {
       if (i !== current) { callback(null, i); }
       current = i;
     }] entered with [i] as the loop variable. *)
Equations? for_loop (cb : callback Z) (blockId i : Z) : M stream unit
  by wf (Z.to_nat (blockId - i)) lt :=
  for_loop cb blockId i with Z_lt_dec i blockId => {
    | left _ :=
        cur ← gets current;
        (if cursor_neq (At i) cur then cb (inr i) else mret tt) ;;
        modify (set_current (At i)) ;;
        for_loop cb blockId (i + 1);
    | right _ := mret tt }.
Proof. lia. Qed.

(** The fulfilment handler of one poll. *)
Definition on_result (mode : string) (ts : Z) (cb : callback Z) (result : dgp)
  : M stream unit :=
  let blockId :=
    if String.eqb mode "irreversible"
    then last_irreversible_block_num result
    else head_block_number result in
  cur ← gets current;
  (if cursor_neq (At blockId) cur then
     if cursor_truthy cur then
       match cur with
       | At c => for_loop cb blockId c
       | Unset => mret tt
       end
     else
       modify (set_current (At blockId)) ;;
       cb (inr blockId)
   else mret tt) ;;
  Promise_delay ts.

(** The rejection handler of one poll: [(err) => { callback(err); }] *)
Definition on_error (cb : callback Z) (err : js_error) : M stream unit :=
  cb (inl err).

(** [update]: [if (!running) return;] then one poll. *)
Definition update : M stream unit :=
  r ← gets running;
  if negb r then mret tt else getDynamicGlobalPropertiesAsync.

(** *** streamBlock, streamTransactions, streamOperations *)

(** The callback [streamBlock] hands to [streamBlockNumber]. *)
Definition streamBlock_cb (cb : callback jsval) : callback Z :=
  fun a =>
    match a with
    | inl err => release ;; cb (inl err)
    | inr id =>
        modify (set_sb_current (At id)) ;;
        cur ← gets sb_current;
        last ← gets sb_last;
        if cursor_neq cur last then
          modify (set_sb_last cur) ;;
          match cur with
          | At n => getBlock n
          | Unset => mret tt
          end
        else mret tt
    end.

(** The callback [streamTransactions] hands to [streamBlock]. *)
Definition streamTransactions_cb (cb : callback jsval) : callback jsval :=
  fun a =>
    match a with
    | inl err => release ;; cb (inl err)
    | inr result =>
        if truthy result then
          transactions ← lift (get_prop result "transactions");
          if truthy transactions then
            js_forEach transactions (fun transaction => cb (inr transaction))
          else mret tt
        else mret tt
    end.

(** The callback [streamOperations] hands to [streamTransactions]. *)
Definition streamOperations_cb (cb : callback jsval) : callback jsval :=
  fun a =>
    match a with
    | inl err => release ;; cb (inl err)
    | inr transaction =>
        operations ← lift (get_prop transaction "operations");
        js_forEach operations (fun operation => cb (inr operation))
    end.

(** One running pipeline: the arguments of its [streamBlockNumber] and
    the callback that receives fetched blocks. *)
Record pipeline : Type := {
  p_mode : string;
  p_ts : Z;
  on_number : callback Z;
  on_block : callback jsval;
}.

(** [mode = 'head'] with the [typeof mode === 'function'] shuffle: the
    first argument may be omitted, a mode, or the callback itself. *)
Inductive mode_arg (C : Type) : Type :=
| ModeOmitted
| ModeString (m : string)
| ModeFunction (f : C).
Arguments ModeOmitted {C}.
Arguments ModeString {C} m.
Arguments ModeFunction {C} f.

Definition resolve_args {C} (mode : mode_arg C) (cb : C) : string * C :=
  match mode with
  | ModeOmitted => ("head"%string, cb)
  | ModeString m => (m, cb)
  | ModeFunction f => ("head"%string, f)
  end.

Definition default_ts : Z := 200.

Definition streamBlockNumber (mode : mode_arg (callback Z)) (cb : callback Z)
    (ts : Z) : pipeline :=
  let '(mode, cb) := resolve_args mode cb in
  {| p_mode := mode; p_ts := ts; on_number := cb;
     on_block := fun _ => mret tt (* no block is ever requested *) |}.

Definition streamBlock (mode : mode_arg (callback jsval)) (cb : callback jsval)
  : pipeline :=
  let '(mode, cb) := resolve_args mode cb in
  {| p_mode := mode; p_ts := default_ts; on_number := streamBlock_cb cb;
     on_block := cb |}.

Definition streamTransactions (mode : mode_arg (callback jsval))
    (cb : callback jsval) : pipeline :=
  let '(mode, cb) := resolve_args mode cb in
  streamBlock (ModeString mode) (streamTransactions_cb cb).

Definition streamOperations (mode : mode_arg (callback jsval))
    (cb : callback jsval) : pipeline :=
  let '(mode, cb) := resolve_args mode cb in
  streamTransactions (ModeString mode) (streamOperations_cb cb).

(** *** Running a pipeline *)

(** The closure state when a stream function is entered. *)
Definition fresh : stream :=
  {| running := true; current := Unset; sb_current := Unset;
     sb_last := Unset; polls_in_flight := 0; delays_pending := 0;
     fetches_in_flight := []; trace := [] |}.

(** Run a handler to its end; an exception that leaves it is recorded
    (an unhandled rejection, or an error rethrown by the promise library). *)
Definition run_handler (m : M stream unit) (s : stream) : stream :=
  match m s with
  | (inr _, s') => s'
  | (inl e, s') => emit (Uncaught e) s'
  end.

(** The state right after the stream function returned: the first
    [update()] has run. *)
Definition started : stream := run_handler update fresh.

Inductive event : Type :=
| Cancel                                     (* the caller invokes the cancel function *)
| PollResolved (result : dgp)                (* the poll in flight is fulfilled *)
| PollRejected (err : js_error)              (* the poll in flight is rejected *)
| DelayElapsed                               (* a pending delay fires: update() *)
| BlockFetched (n : Z) (r : js_error + jsval). (* getBlock(n) in flight completes *)

Fixpoint remove_first (n : Z) (l : list Z) : list Z :=
  match l with
  | [] => []
  | x :: rest => if x =? n then rest else x :: remove_first n rest
  end.

Definition mem (n : Z) (l : list Z) : bool := existsb (Z.eqb n) l.

(** One turn of the event loop. A completion for which nothing is in
    flight cannot happen and leaves the state as it is. *)
Definition step (p : pipeline) (s : stream) (e : event) : stream :=
  match e with
  | Cancel => run_handler release s
  | PollResolved result =>
      match polls_in_flight s with
      | O => s
      | S k => run_handler (on_result (p_mode p) (p_ts p) (on_number p) result)
                           (set_polls k s)
      end
  | PollRejected err =>
      match polls_in_flight s with
      | O => s
      | S k => run_handler (on_error (on_number p) err) (set_polls k s)
      end
  | DelayElapsed =>
      match delays_pending s with
      | O => s
      | S k => run_handler update (set_delays k s)
      end
  | BlockFetched n r =>
      if mem n (fetches_in_flight s)
      then run_handler (on_block p r)
                       (set_fetches (remove_first n (fetches_in_flight s)) s)
      else s
  end.

Definition run (p : pipeline) (s : stream) (es : list event) : stream :=
  fold_left (step p) es s.

(** A sequence of successful polls, each followed by the delay it
    started. *)
Definition polls (results : list dgp) : list event :=
  flat_map (fun r => [PollResolved r; DelayElapsed]) results.

Definition head_at (n : Z) : dgp :=
  {| head_block_number := n; last_irreversible_block_num := 0 |}.

(** Projections of a trace. *)
Definition callback_values (t : list obs) : list jsval :=
  flat_map (fun o => match o with CallbackOk v => [v] | _ => [] end) t.

Definition callbacks (t : list obs) : list obs :=
  flat_map (fun o => match o with
                     | CallbackOk _ | CallbackErr _ => [o]
                     | _ => []
                     end) t.

Definition fetched (t : list obs) : list Z :=
  flat_map (fun o => match o with GetBlock n => [n] | _ => [] end) t.

Definition poll_count (t : list obs) : nat :=
  length (flat_map (fun o => match o with Poll => [tt] | _ => [] end) t).

(** *** Vocabulary of the properties *)

(** The counter a mode selects from a poll result. *)
Definition block_number (mode : string) (r : dgp) : Z :=
  if String.eqb mode "irreversible"
  then last_irreversible_block_num r
  else head_block_number r.

(** The block numbers handed to the caller's callback. *)
Definition numbers (t : list obs) : list Z :=
  flat_map (fun o => match o with CallbackOk (JNum n) => [n] | _ => [] end) t.

(** [sB], the state of a [streamBlock] pipeline, is in step with [sN],
    the state of a [streamBlockNumber] pipeline fed the same events: same
    cursor and schedule, the last block requested is the cursor, and the
    blocks requested so far are the numbers reported so far. *)
Record in_step (sN sB : stream) : Prop := {
  step_running : running sN = running sB;
  step_current : current sN = current sB;
  step_last : sb_last sB = current sB;
  step_polls : polls_in_flight sN = polls_in_flight sB;
  step_delays : delays_pending sN = delays_pending sB;
  step_trace : numbers (trace sN) = fetched (trace sB);
}.

(** From [s] to [s']: if the stream was cancelled it still is, and no
    poll was issued. *)
Definition stays_cancelled (s s' : stream) : Prop :=
  running s = false ->
  running s' = false /\ poll_count (trace s') = poll_count (trace s).

(** The transaction carries an operations list. *)
Definition has_operations (tx : jsval) : Prop :=
  exists ops, get_prop tx "operations" = inr (JArr ops).



(** *** Vocabulary of the further properties *)

(** The callback invoked with each of the numbers [ks] in turn. *)
Definition reports (ks : list Z) : list obs :=
  map (fun k => CallbackOk (JNum k)) ks.

(** The numbers reported so far are strictly increasing and none exceeds
    the cursor, which is positive once set. *)
Definition ordered (s : stream) : Prop :=
  match current s with
  | Unset => numbers (trace s) = []
  | At c =>
      0 < c /\ StronglySorted Z.lt (numbers (trace s)) /\
      Forall (fun n => n <= c) (numbers (trace s))
  end.

(** From [s] to [s']: no poll was issued or completed, no delay started
    or elapsed. *)
Definition same_schedule (s s' : stream) : Prop :=
  polls_in_flight s' = polls_in_flight s /\
  delays_pending s' = delays_pending s.

(** The polls in flight and the delays pending. *)
Definition outstanding (s : stream) : nat :=
  (polls_in_flight s + delays_pending s)%nat.

(** A pipeline whose callbacks neither poll nor start a delay. *)
Definition passive (p : pipeline) : Prop :=
  (forall a, preserves same_schedule (on_number p a)) /\
  (forall a, preserves same_schedule (on_block p a)).

(** [tx.operations] is the list [ops]. *)
Definition operations_of (tx : jsval) (ops : list jsval) : Prop :=
  get_prop tx "operations" = inr (JArr ops).

(** A block with two transactions, of two operations and of one. *)
Definition two_transactions : jsval :=
  JObj [("transactions"%string,
         JArr [JObj [("operations"%string, JArr [JStr "vote"; JStr "comment"])];
               JObj [("operations"%string, JArr [JStr "transfer"])]])].

(** A block whose second transaction carries no operations. *)
Definition a_broken_block : jsval :=
  JObj [("transactions"%string,
         JArr [JObj [("operations"%string, JArr [JStr "vote"])];
               JObj [("ref_block_num"%string, JNum 1)];
               JObj [("operations"%string, JArr [JStr "transfer"])]])].

End Stream.

(** ** The client: connection, dispatcher and multiplexer
       (index.js, lines 25-201) *)

Module Client.

Definition cbMethods : list string :=
  ["set_block_applied_callback";
   "set_pending_transaction_callback";
   "set_callback"]%string.

(** [cbMethods.includes(m)] *)
Definition includes (l : list string) (m : string) : bool :=
  existsb (String.eqb m) l.

(** The [data] argument of [send]: [{method, params, id?}]. [data_id] is
    [None] when the field is absent. *)
Record data : Type := {
  method : string;
  params : list jsval;
  data_id : option Z;
}.

(** The object handed to [JSON.stringify] in [send]. *)
Record envelope : Type := {
  env_id : Z;
  env_method : string;
  env_jsonrpc : string;
  env_params : string * string * list jsval;
}.

(** An entry of [this.requests]. [resolve] and [reject] name the promise
    they settle. *)
Record request : Type := {
  req_api : string;
  req_data : data;
  req_resolve : nat;
  req_reject : nat;
  req_start_time : Z;
}.

(** An entry of [this.callbacks]. *)
Record subscription : Type := {
  sub_api : string;
  sub_data : data;
  sub_cb : jsval;
}.

Inductive pstate : Type :=
| Pending
| Fulfilled (v : jsval)
| Rejected (e : js_error).

(** A promise: its state and the node-style callback attached with
    [.nodeify(callback)], if any. *)
Record promise : Type := {
  p_state : pstate;
  p_nodeback : jsval;
}.

Inductive ws_event : Type :=
| OnOpen
| OnClose
| OnMessage.

(** [ws.readyState], closing and closed taken as one: neither the code
    nor a socket's [send] tells them apart. *)
Inductive ready_state : Type :=
| CONNECTING
| OPEN
| CLOSED.

(** The two interfaces a socket may offer for listeners. What was added
    through one is removed only through the same one: a browser socket
    has [addEventListener] and [removeEventListener] and neither [on] nor
    [removeListener]; the socket of [ws] 1.x has [on], [removeListener]
    and an [addEventListener] that registers a wrapper of the callback,
    which [removeListener], called with the callback, does not find. *)
Inductive registry : Type :=
| EventTarget   (* addEventListener, removeEventListener *)
| Emitter.      (* on, removeListener *)

(** The [WebSocket] class the module was loaded with ([require('ws')]
    under Node, [window.WebSocket] in a browser), as far as the code
    depends on it: which of the two methods its sockets have, and what
    [send] throws, if anything, on a socket that is not open. *)
Record implementation : Type := {
  has_addEventListener : bool;
  has_removeEventListener : bool;
  send_throws : ready_state -> option js_error;
}.

(** A listener registered by [listenTo] in the executor of [start]: the
    socket, the event and the connection promise its closure captured.
    The disposer returned by [listenTo] is named by the listener it was
    made for. *)
Record listener : Type := {
  l_target : nat;
  l_event : ws_event;
  l_startP : nat;
}.

(** The continuation [send] chains on the connection promise: the
    arguments and the [id] its closure captured, and the promise that
    [send] returned. *)
Record continuation : Type := {
  k_startP : nat;
  k_api : string;
  k_data : data;
  k_callback : jsval;
  k_id : Z;
  k_promise : nat;
}.

Inductive obs : Type :=
| NewWebSocket (w : nat) (url : string)    (* new WebSocket(url) *)
| WsClose (w : nat)                        (* ws.close() *)
| WsSend (w : nat) (payload : envelope)    (* ws.send(payload) called *)
| SendCalled (api : string) (d : data) (i : Z) (* send() resolved its id *)
| ResolveCall (p : nat) (v : jsval)        (* resolve(v) of promise p *)
| RejectCall (p : nat) (e : js_error)      (* reject(e) of promise p *)
| Callback (cb : jsval) (err : option js_error) (result : jsval)
                                           (* cb(err, result) *)
| Uncaught (e : exn).

(** The fields of [this], followed by what lives outside the object:
    the configured url, the promises, the sockets and their listeners,
    the queued continuations, the trace, the [WebSocket] class and the
    state of every socket created. *)
Record golos : Type := {
  id : Z;
  inFlight : Z;
  currentP : nat;
  isOpen : bool;
  releases : list listener;
  requests : gmap Z request;
  callbacks : gmap Z subscription;
  startP : option nat;
  ws : option nat;
  websocket_url : string;
  promises : gmap nat promise;
  next_promise : nat;
  sockets_created : nat;
  listeners : list (registry * listener);
  waiting : list continuation;
  trace : list obs;
  WebSocket : implementation;
  sockets : gmap nat ready_state;
}.

Definition set_id (x : Z) (g : golos) : golos :=
  {| id := x; inFlight := inFlight g; currentP := currentP g;
     isOpen := isOpen g; releases := releases g; requests := requests g;
     callbacks := callbacks g; startP := startP g; ws := ws g;
     websocket_url := websocket_url g; promises := promises g;
     next_promise := next_promise g; sockets_created := sockets_created g;
     listeners := listeners g; waiting := waiting g; trace := trace g;
     WebSocket := WebSocket g; sockets := sockets g |}.

Definition set_currentP (x : nat) (g : golos) : golos :=
  {| id := id g; inFlight := inFlight g; currentP := x; isOpen := isOpen g;
     releases := releases g; requests := requests g;
     callbacks := callbacks g; startP := startP g; ws := ws g;
     websocket_url := websocket_url g; promises := promises g;
     next_promise := next_promise g; sockets_created := sockets_created g;
     listeners := listeners g; waiting := waiting g; trace := trace g;
     WebSocket := WebSocket g; sockets := sockets g |}.

Definition set_isOpen (x : bool) (g : golos) : golos :=
  {| id := id g; inFlight := inFlight g; currentP := currentP g;
     isOpen := x; releases := releases g; requests := requests g;
     callbacks := callbacks g; startP := startP g; ws := ws g;
     websocket_url := websocket_url g; promises := promises g;
     next_promise := next_promise g; sockets_created := sockets_created g;
     listeners := listeners g; waiting := waiting g; trace := trace g;
     WebSocket := WebSocket g; sockets := sockets g |}.

Definition set_releases (x : list listener) (g : golos) : golos :=
  {| id := id g; inFlight := inFlight g; currentP := currentP g;
     isOpen := isOpen g; releases := x; requests := requests g;
     callbacks := callbacks g; startP := startP g; ws := ws g;
     websocket_url := websocket_url g; promises := promises g;
     next_promise := next_promise g; sockets_created := sockets_created g;
     listeners := listeners g; waiting := waiting g; trace := trace g;
     WebSocket := WebSocket g; sockets := sockets g |}.

Definition set_requests (x : gmap Z request) (g : golos) : golos :=
  {| id := id g; inFlight := inFlight g; currentP := currentP g;
     isOpen := isOpen g; releases := releases g; requests := x;
     callbacks := callbacks g; startP := startP g; ws := ws g;
     websocket_url := websocket_url g; promises := promises g;
     next_promise := next_promise g; sockets_created := sockets_created g;
     listeners := listeners g; waiting := waiting g; trace := trace g;
     WebSocket := WebSocket g; sockets := sockets g |}.

Definition set_callbacks (x : gmap Z subscription) (g : golos) : golos :=
  {| id := id g; inFlight := inFlight g; currentP := currentP g;
     isOpen := isOpen g; releases := releases g; requests := requests g;
     callbacks := x; startP := startP g; ws := ws g;
     websocket_url := websocket_url g; promises := promises g;
     next_promise := next_promise g; sockets_created := sockets_created g;
     listeners := listeners g; waiting := waiting g; trace := trace g;
     WebSocket := WebSocket g; sockets := sockets g |}.

Definition set_startP (x : option nat) (g : golos) : golos :=
  {| id := id g; inFlight := inFlight g; currentP := currentP g;
     isOpen := isOpen g; releases := releases g; requests := requests g;
     callbacks := callbacks g; startP := x; ws := ws g;
     websocket_url := websocket_url g; promises := promises g;
     next_promise := next_promise g; sockets_created := sockets_created g;
     listeners := listeners g; waiting := waiting g; trace := trace g;
     WebSocket := WebSocket g; sockets := sockets g |}.

Definition set_ws (x : option nat) (g : golos) : golos :=
  {| id := id g; inFlight := inFlight g; currentP := currentP g;
     isOpen := isOpen g; releases := releases g; requests := requests g;
     callbacks := callbacks g; startP := startP g; ws := x;
     websocket_url := websocket_url g; promises := promises g;
     next_promise := next_promise g; sockets_created := sockets_created g;
     listeners := listeners g; waiting := waiting g; trace := trace g;
     WebSocket := WebSocket g; sockets := sockets g |}.

Definition set_websocket_url (x : string) (g : golos) : golos :=
  {| id := id g; inFlight := inFlight g; currentP := currentP g;
     isOpen := isOpen g; releases := releases g; requests := requests g;
     callbacks := callbacks g; startP := startP g; ws := ws g;
     websocket_url := x; promises := promises g;
     next_promise := next_promise g; sockets_created := sockets_created g;
     listeners := listeners g; waiting := waiting g; trace := trace g;
     WebSocket := WebSocket g; sockets := sockets g |}.

Definition set_promises (x : gmap nat promise) (g : golos) : golos :=
  {| id := id g; inFlight := inFlight g; currentP := currentP g;
     isOpen := isOpen g; releases := releases g; requests := requests g;
     callbacks := callbacks g; startP := startP g; ws := ws g;
     websocket_url := websocket_url g; promises := x;
     next_promise := next_promise g; sockets_created := sockets_created g;
     listeners := listeners g; waiting := waiting g; trace := trace g;
     WebSocket := WebSocket g; sockets := sockets g |}.

Definition set_next_promise (x : nat) (g : golos) : golos :=
  {| id := id g; inFlight := inFlight g; currentP := currentP g;
     isOpen := isOpen g; releases := releases g; requests := requests g;
     callbacks := callbacks g; startP := startP g; ws := ws g;
     websocket_url := websocket_url g; promises := promises g;
     next_promise := x; sockets_created := sockets_created g;
     listeners := listeners g; waiting := waiting g; trace := trace g;
     WebSocket := WebSocket g; sockets := sockets g |}.

Definition set_sockets_created (x : nat) (g : golos) : golos :=
  {| id := id g; inFlight := inFlight g; currentP := currentP g;
     isOpen := isOpen g; releases := releases g; requests := requests g;
     callbacks := callbacks g; startP := startP g; ws := ws g;
     websocket_url := websocket_url g; promises := promises g;
     next_promise := next_promise g; sockets_created := x;
     listeners := listeners g; waiting := waiting g; trace := trace g;
     WebSocket := WebSocket g; sockets := sockets g |}.

Definition set_listeners (x : list (registry * listener)) (g : golos) : golos :=
  {| id := id g; inFlight := inFlight g; currentP := currentP g;
     isOpen := isOpen g; releases := releases g; requests := requests g;
     callbacks := callbacks g; startP := startP g; ws := ws g;
     websocket_url := websocket_url g; promises := promises g;
     next_promise := next_promise g; sockets_created := sockets_created g;
     listeners := x; waiting := waiting g; trace := trace g;
     WebSocket := WebSocket g; sockets := sockets g |}.

Definition set_waiting (x : list continuation) (g : golos) : golos :=
  {| id := id g; inFlight := inFlight g; currentP := currentP g;
     isOpen := isOpen g; releases := releases g; requests := requests g;
     callbacks := callbacks g; startP := startP g; ws := ws g;
     websocket_url := websocket_url g; promises := promises g;
     next_promise := next_promise g; sockets_created := sockets_created g;
     listeners := listeners g; waiting := x; trace := trace g;
     WebSocket := WebSocket g; sockets := sockets g |}.

Definition set_trace (x : list obs) (g : golos) : golos :=
  {| id := id g; inFlight := inFlight g; currentP := currentP g;
     isOpen := isOpen g; releases := releases g; requests := requests g;
     callbacks := callbacks g; startP := startP g; ws := ws g;
     websocket_url := websocket_url g; promises := promises g;
     next_promise := next_promise g; sockets_created := sockets_created g;
     listeners := listeners g; waiting := waiting g; trace := x;
     WebSocket := WebSocket g; sockets := sockets g |}.

Definition set_sockets (x : gmap nat ready_state) (g : golos) : golos :=
  {| id := id g; inFlight := inFlight g; currentP := currentP g;
     isOpen := isOpen g; releases := releases g; requests := requests g;
     callbacks := callbacks g; startP := startP g; ws := ws g;
     websocket_url := websocket_url g; promises := promises g;
     next_promise := next_promise g; sockets_created := sockets_created g;
     listeners := listeners g; waiting := waiting g; trace := trace g;
     WebSocket := WebSocket g; sockets := x |}.

Definition emit (o : obs) : M golos unit :=
  modify (fun g => set_trace (trace g ++ [o]) g).

(** *** Promises *)

(** A fresh pending promise; [nodeback] is the argument of a chained
    [.nodeify(...)], [JUndefined] when there is none. *)
Definition new_promise (nodeback : jsval) : M golos nat :=
  n ← gets next_promise;
  modify (fun g =>
    set_next_promise (S n)
      (set_promises
         (<[n := {| p_state := Pending; p_nodeback := nodeback |}]> (promises g))
         g)) ;;
  mret n.

(** A promise settles at most once; when it does, a function attached
    with [nodeify] is called with [(err, result)]. The promise library
    makes that call in a later turn; the trace records it where the
    promise settles, so the order of such calls relative to what else
    happens in the turn is not modelled. *)
Definition settle (p : nat) (st : pstate) : M golos unit :=
  ps ← gets promises;
  match ps !! p with
  | Some {| p_state := Pending; p_nodeback := cb |} =>
      modify (set_promises (<[p := {| p_state := st; p_nodeback := cb |}]> ps)) ;;
      if is_function cb then
        match st with
        | Fulfilled v => emit (Callback cb None v)
        | Rejected e => emit (Callback cb (Some e) JUndefined)
        | Pending => mret tt
        end
      else mret tt
  | _ => mret tt
  end.

Definition resolve (p : nat) (v : jsval) : M golos unit :=
  emit (ResolveCall p v) ;; settle p (Fulfilled v).

Definition reject (p : nat) (e : js_error) : M golos unit :=
  emit (RejectCall p e) ;; settle p (Rejected e).

(** [p.isPending()] *)
Definition isPending (p : nat) : M golos bool :=
  ps ← gets promises;
  mret match ps !! p with
       | Some {| p_state := Pending |} => true
       | _ => false
       end.

(** *** constructor *)

(** [new Golos()], in a module loaded with the [WebSocket] class [impl],
    and with [url] the value [config.get('websocket')] holds. Promise 0
    is [Promise.fulfilled()]. *)
Definition new_Golos (impl : implementation) (url : string) : golos :=
  {| id := 0; inFlight := 0; currentP := 0%nat; isOpen := false;
     releases := []; requests := ∅; callbacks := ∅;
     startP := None; ws := None;
     websocket_url := url;
     promises := {[ 0%nat := {| p_state := Fulfilled JUndefined;
                                p_nodeback := JUndefined |} ]};
     next_promise := 1; sockets_created := 0; listeners := [];
     waiting := []; trace := []; WebSocket := impl; sockets := ∅ |}.

(** *** listenTo *)

Definition ws_event_eqb (a b : ws_event) : bool :=
  match a, b with
  | OnOpen, OnOpen | OnClose, OnClose | OnMessage, OnMessage => true
  | _, _ => false
  end.

Definition listener_eqb (a b : listener) : bool :=
  Nat.eqb (l_target a) (l_target b)
  && ws_event_eqb (l_event a) (l_event b)
  && Nat.eqb (l_startP a) (l_startP b).

Definition registry_eqb (a b : registry) : bool :=
  match a, b with
  | EventTarget, EventTarget | Emitter, Emitter => true
  | _, _ => false
  end.

(** The interface [listenTo] registers through:
    [if (target.addEventListener) ... else target.on(...)]. *)
Definition adds_through (impl : implementation) : registry :=
  if has_addEventListener impl then EventTarget else Emitter.

(** The interface a disposer removes through:
    [if (target.removeEventListener) ... else target.removeListener(...)]. *)
Definition removes_through (impl : implementation) : registry :=
  if has_removeEventListener impl then EventTarget else Emitter.

(** Registers the listener and returns its disposer. *)
Definition listenTo (l : listener) : M golos listener :=
  impl ← gets WebSocket;
  modify (fun g => set_listeners (listeners g ++ [(adds_through impl, l)]) g) ;;
  mret l.

(** Calling the disposer made for [l]: it removes [l] where it was
    registered through the interface the disposer uses. *)
Definition release (l : listener) : M golos unit :=
  impl ← gets WebSocket;
  modify (fun g =>
    set_listeners
      (List.filter
         (fun r => negb (registry_eqb (removes_through impl) (fst r)
                         && listener_eqb l (snd r)))
         (listeners g)) g).

Fixpoint release_all (rs : list listener) : M golos unit :=
  match rs with
  | [] => mret tt
  | r :: rest => release r ;; release_all rest
  end.

(** *** stop *)

(** [ws.readyState], [CLOSED] for a socket that was never created. *)
Definition readyState (w : nat) (g : golos) : ready_state :=
  match sockets g !! w with
  | Some st => st
  | None => CLOSED
  end.

(** [ws.close()]: the socket is no longer connecting or open. *)
Definition ws_close (w : nat) : M golos unit :=
  emit (WsClose w) ;;
  st ← gets (readyState w);
  match st with
  | CONNECTING | OPEN => modify (fun g => set_sockets (<[w := CLOSED]> (sockets g)) g)
  | CLOSED => mret tt
  end.

Definition stop : M golos unit :=
  w ← gets ws;
  match w with
  | Some w => ws_close w
  | None => mret tt
  end ;;
  modify (set_startP None) ;;
  modify (set_ws None) ;;
  rs ← gets releases;
  release_all rs ;;
  modify (set_releases []).

(** [setWebSocket(url)]: [config.set('websocket', url); this.stop();] *)
Definition setWebSocket (url : string) : M golos unit :=
  modify (set_websocket_url url) ;;
  stop.

(** *** start *)

Definition new_WebSocket (url : string) : M golos nat :=
  w ← gets sockets_created;
  modify (set_sockets_created (S w)) ;;
  modify (fun g => set_sockets (<[w := CONNECTING]> (sockets g)) g) ;;
  emit (NewWebSocket w url) ;;
  mret w.

(** The executor of [start]'s promise [p]. It runs inside
    [new Promise(...)], before [const startP] is assigned: [local_startP]
    is what the name [startP] holds at that time. *)
Definition start_executor (p : nat) (local_startP : option nat) : M golos unit :=
  this_startP ← gets startP;
  if negb (bool_decide (local_startP = this_startP)) then mret tt
  else
    url ← gets websocket_url;
    w ← new_WebSocket url;
    modify (set_ws (Some w)) ;;
    releaseOpen ← listenTo {| l_target := w; l_event := OnOpen; l_startP := p |};
    releaseClose ← listenTo {| l_target := w; l_event := OnClose; l_startP := p |};
    releaseMessage ← listenTo {| l_target := w; l_event := OnMessage; l_startP := p |};
    modify (fun g =>
      set_releases (releases g ++ [releaseOpen; releaseClose; releaseMessage]) g).

Definition start : M golos nat :=
  sp ← gets startP;
  match sp with
  | Some p => mret p
  | None =>
      p ← new_promise JUndefined;
      start_executor p None ;;
      modify (set_startP (Some p)) ;;
      mret p
  end.

(** *** The websocket listeners and onMessage *)

(** What [this.requests[id] || this.callbacks[id]] evaluates to. *)
Inductive entry : Type :=
| Req (r : request)
| Sub (c : subscription).

Definition entry_data (e : entry) : data :=
  match e with
  | Req r => req_data r
  | Sub c => sub_data c
  end.

(** The [resolve] and [reject] fields; a subscription has neither. *)
Definition entry_resolve (e : entry) : option nat :=
  match e with
  | Req r => Some (req_resolve r)
  | Sub _ => None
  end.

Definition entry_reject (e : entry) : option nat :=
  match e with
  | Req r => Some (req_reject r)
  | Sub _ => None
  end.

Definition onMessage (message : frame) (request : entry) : M golos unit :=
  let errorCause := msg_error message in
  if truthy errorCause then
    m ← lift (get_prop errorCause "message");
    let err :=
      {| err_message :=
           to_string (js_or m (JStr "Failed to complete operation"))
           +:+ " (see err.payload for the full error payload)";
         err_payload := Some message |} in
    match entry_reject request with
    | Some p => reject p err
    | None => throw (TypeError "reject is not a function")
    end
  else if includes cbMethods (method (entry_data request)) then
    cbs ← gets callbacks;
    match cbs !! msg_id message with
    | Some c =>
        if is_function (sub_cb c)
        then emit (Callback (sub_cb c) None (msg_result message))
        else throw (TypeError "cb is not a function")
    | None => throw (TypeError "Cannot read property 'cb' of undefined")
    end
  else
    modify (fun g => set_requests (delete (msg_id message) (requests g)) g) ;;
    match entry_resolve request with
    | Some p => resolve p (msg_result message)
    | None => throw (TypeError "resolve is not a function")
    end.

(** The ['open'] listener registered for connection promise [p] on
    socket [w]. *)
Definition open_listener (w p : nat) : M golos unit :=
  modify (set_isOpen true) ;;
  release {| l_target := w; l_event := OnOpen; l_startP := p |} ;;
  resolve p JUndefined.

(** The ['close'] listener. *)
Definition close_listener (p : nat) : M golos unit :=
  modify (set_isOpen false) ;;
  modify (set_ws None) ;;
  stop ;;
  pending ← isPending p;
  if (pending : bool)
  then reject p (new_Error "The WS connection was closed before this operation was made")
  else mret tt.

(** The ['message'] listener, applied to the parsed frame. *)
Definition message_listener (data : frame) : M golos unit :=
  let id := msg_id data in
  rs ← gets requests;
  cbs ← gets callbacks;
  let request :=
    match rs !! id with
    | Some r => Some (Req r)
    | None => match cbs !! id with
              | Some c => Some (Sub c)
              | None => None
              end
    end in
  match request with
  | None => mret tt
  | Some request =>
      modify (fun g => set_requests (delete id (requests g)) g) ;;
      onMessage data request
  end.

(** *** send *)

(** [this.id++] *)
Definition post_increment_id : M golos Z :=
  n ← gets id;
  modify (set_id (n + 1)) ;;
  mret n.

(** [data.id || this.id++] *)
Definition resolve_id (d : data) : M golos Z :=
  match data_id d with
  | Some n => if negb (n =? 0) then mret n else post_increment_id
  | None => post_increment_id
  end.

(** The synchronous part of [send]: the id, the connection promise, and
    the continuation chained on it. *)
Definition send (api : string) (d : data) (callback : jsval) : M golos nat :=
  i ← resolve_id d;
  emit (SendCalled api d i) ;;
  p ← start;
  q ← new_promise callback;
  modify (fun g =>
    set_waiting
      (waiting g ++ [{| k_startP := p; k_api := api; k_data := d;
                        k_callback := callback; k_id := i;
                        k_promise := q |}]) g) ;;
  modify (set_currentP q) ;;
  mret q.

(** [ws.send(payload)]: the payload is written when the socket is open;
    otherwise the call throws what the [WebSocket] class throws for the
    socket's state, or discards the payload when it throws nothing. *)
Definition ws_send (w : nat) (payload : envelope) : M golos unit :=
  emit (WsSend w payload) ;;
  impl ← gets WebSocket;
  st ← gets (readyState w);
  match st with
  | OPEN => mret tt
  | _ =>
      match send_throws impl st with
      | Some e => throw (Thrown e)
      | None => mret tt
      end
  end.

(** The executor of the promise [send] chains on the connection promise,
    run once that promise is fulfilled; [now] is what [Date.now()]
    returns. *)
Definition dispatch (t : continuation) (now : Z) : M golos unit :=
  w ← gets ws;
  match w with
  | None =>
      reject (k_promise t)
        (new_Error "The WS connection was closed while this request was pending")
  | Some w =>
      let payload :=
        {| env_id := k_id t; env_method := "call"; env_jsonrpc := "2.0";
           env_params := (k_api t, method (k_data t), params (k_data t)) |} in
      (if includes cbMethods (method (k_data t)) then
         modify (fun g =>
           set_callbacks
             (<[k_id t := {| sub_api := k_api t; sub_data := k_data t;
                             sub_cb := k_callback t |}]> (callbacks g)) g)
       else
         modify (fun g =>
           set_requests
             (<[k_id t := {| req_api := k_api t; req_data := k_data t;
                             req_resolve := k_promise t;
                             req_reject := k_promise t;
                             req_start_time := now |}]> (requests g)) g)) ;;
      ws_send w payload
  end.

(** The fixed subscription helpers (lines 362-396). *)
Definition setBlockAppliedCallback (type callback : jsval) : M golos nat :=
  send "database_api"
    {| method := "set_block_applied_callback"; params := [type];
       data_id := None |} callback.

Definition setPendingTransactionCallback (callback : jsval) : M golos nat :=
  send "database_api"
    {| method := "set_pending_transaction_callback"; params := [];
       data_id := None |} callback.

Definition setPrivateMessageCallback (query callback : jsval) : M golos nat :=
  send "private_message"
    {| method := "set_callback"; params := [query]; data_id := None |} callback.

(** *** The event loop *)

Inductive event : Type :=
| CallStart
| CallStop
| CallSetWebSocket (url : string)
| CallSend (api : string) (d : data) (callback : jsval)
| WsOpened (w : nat)                  (* socket w emits 'open' *)
| WsClosed (w : nat)                  (* socket w emits 'close' *)
| WsMessage (w : nat) (data : frame)  (* socket w emits 'message' *)
| Continue (now : Z).                 (* the next ready continuation runs *)

(** The listeners currently registered on socket [w] for event [e]. *)
Definition registered (w : nat) (e : ws_event) (g : golos) : list listener :=
  List.filter (fun l => Nat.eqb (l_target l) w && ws_event_eqb (l_event l) e)
              (map snd (listeners g)).

(** The socket [w] emits ['open']: a connecting socket is open from then
    on. *)
Definition socket_opened (w : nat) (g : golos) : golos :=
  match sockets g !! w with
  | Some CONNECTING => set_sockets (<[w := OPEN]> (sockets g)) g
  | _ => g
  end.

(** The socket [w] emits ['close']. *)
Definition socket_closed (w : nat) (g : golos) : golos :=
  match sockets g !! w with
  | Some _ => set_sockets (<[w := CLOSED]> (sockets g)) g
  | None => g
  end.

Fixpoint for_listeners (h : listener -> M golos unit) (ls : list listener)
  : M golos unit :=
  match ls with
  | [] => mret tt
  | l :: rest => h l ;; for_listeners h rest
  end.

(** The first queued continuation whose connection promise has settled,
    with that state, and the queue without it. *)
Fixpoint next_ready (ps : gmap nat promise) (q : list continuation)
  : option (continuation * pstate * list continuation) :=
  match q with
  | [] => None
  | t :: rest =>
      match ps !! k_startP t with
      | Some {| p_state := Fulfilled v |} => Some (t, Fulfilled v, rest)
      | Some {| p_state := Rejected e |} => Some (t, Rejected e, rest)
      | _ =>
          match next_ready ps rest with
          | Some (t', st, rest') => Some (t', st, t :: rest')
          | None => None
          end
      end
  end.

(** [startP.then(() => new Promise(executor))]: on fulfilment the
    executor runs, and what it throws rejects the promise [send]
    returned; on rejection of [startP] that promise is rejected with the
    same error. *)
Definition continue (now : Z) : M golos unit :=
  ps ← gets promises;
  q ← gets waiting;
  match next_ready ps q with
  | None => mret tt
  | Some (t, st, rest) =>
      modify (set_waiting rest) ;;
      match st with
      | Rejected e => settle (k_promise t) (Rejected e)
      | _ =>
          catch (dispatch t now)
                (fun x => settle (k_promise t) (Rejected (error_of x)))
      end
  end.

Definition handler (e : event) : M golos unit :=
  match e with
  | CallStart => start ;; mret tt
  | CallStop => stop
  | CallSetWebSocket url => setWebSocket url
  | CallSend api d callback => send api d callback ;; mret tt
  | WsOpened w =>
      modify (socket_opened w) ;;
      ls ← gets (registered w OnOpen);
      for_listeners (fun l => open_listener w (l_startP l)) ls
  | WsClosed w =>
      modify (socket_closed w) ;;
      ls ← gets (registered w OnClose);
      for_listeners (fun l => close_listener (l_startP l)) ls
  | WsMessage w data =>
      ls ← gets (registered w OnMessage);
      for_listeners (fun _ => message_listener data) ls
  | Continue now => continue now
  end.

(** One turn; an exception that leaves a handler is recorded. *)
Definition step (g : golos) (e : event) : golos :=
  match handler e g with
  | (inr _, g') => g'
  | (inl x, g') => set_trace (trace g' ++ [Uncaught x]) g'
  end.

Definition run (g : golos) (es : list event) : golos := fold_left step es g.

(** Projections of a trace. *)
Definition assigned_ids (t : list obs) : list Z :=
  flat_map (fun o => match o with SendCalled _ _ i => [i] | _ => [] end) t.

Definition sent_envelopes (t : list obs) : list envelope :=
  flat_map (fun o => match o with WsSend _ e => [e] | _ => [] end) t.


Definition rejections (t : list obs) : list (nat * js_error) :=
  flat_map (fun o => match o with RejectCall p e => [(p, e)] | _ => [] end) t.

Definition resolutions (t : list obs) : list (nat * jsval) :=
  flat_map (fun o => match o with ResolveCall p v => [(p, v)] | _ => [] end) t.

(** *** Vocabulary of the properties *)

(** What [send] does after it has resolved its id. *)
Definition send_tail (api : string) (d : data) (callback : jsval) (i : Z)
  : M golos nat :=
  p ← start;
  q ← new_promise callback;
  modify (fun g =>
    set_waiting
      (waiting g ++ [{| k_startP := p; k_api := api; k_data := d;
                        k_callback := callback; k_id := i;
                        k_promise := q |}]) g) ;;
  modify (set_currentP q) ;;
  mret q.

(** From [g] to [g']: the id counter did not move and no call of [send]
    was given an id. *)
Definition same_counter (g g' : golos) : Prop :=
  id g' = id g /\ assigned_ids (trace g') = assigned_ids (trace g).

Definition is_send (e : event) : bool :=
  match e with
  | CallSend _ _ _ => true
  | _ => false
  end.

(** A call of [send], if [e] is one, passes no [data.id]. *)
Definition no_explicit_id (e : event) : Prop :=
  match e with
  | CallSend _ d _ => data_id d = None
  | _ => True
  end.

Definition send_count (es : list event) : Z :=
  Z.of_nat (length (List.filter is_send es)).



(** What [settle p st] leaves alone, and what it does to promise [p]. *)
Record settled (p : nat) (st : pstate) (g g' : golos) : Prop := {
  settled_requests : requests g' = requests g;
  settled_callbacks : callbacks g' = callbacks g;
  settled_rejections : rejections (trace g') = rejections (trace g);
  settled_resolutions : resolutions (trace g') = resolutions (trace g);
  settled_envelopes : sent_envelopes (trace g') = sent_envelopes (trace g);
  settled_others : forall q, q <> p -> promises g' !! q = promises g !! q;
  settled_state : forall cb,
    promises g !! p = Some {| p_state := Pending; p_nodeback := cb |} ->
    promises g' !! p = Some {| p_state := st; p_nodeback := cb |};
}.

(** The error of a [send] that finds no transport. *)
Definition transport_unavailable : js_error :=
  new_Error "The WS connection was closed while this request was pending".

(** The error [send] of [ws] 1.x throws on a socket that is not open. *)
Definition not_opened : js_error := new_Error "not opened".

(** The socket of [ws] 1.x under Node: [addEventListener] without
    [removeEventListener], and a [send] that throws unless the socket is
    open. *)
Definition ws_1 : implementation :=
  {| has_addEventListener := true;
     has_removeEventListener := false;
     send_throws := fun _ => Some not_opened |}.

(** A browser's [WebSocket]: an event target, whose [send] throws on a
    connecting socket and discards the data on a closing or closed one. *)
Definition browser_WebSocket : implementation :=
  {| has_addEventListener := true;
     has_removeEventListener := true;
     send_throws := fun st =>
       match st with
       | CONNECTING => Some (new_Error "InvalidStateError")
       | _ => None
       end |}.

(** Sample arguments and frames. *)
Definition a_call : data :=
  {| method := "get_block"; params := [JNum 1]; data_id := None |}.

Definition call_7 : data :=
  {| method := "get_block"; params := [JNum 1]; data_id := Some 7 |}.

Definition call_0 : data :=
  {| method := "get_block"; params := [JNum 1]; data_id := Some 0 |}.

Definition error_frame_7 : frame :=
  {| msg_id := 7;
     msg_error := JObj [("message"%string, JStr "x")];
     msg_result := JUndefined |}.

(** *** Vocabulary of the further properties *)

(** No disposer of [rs], removing through [via], removes the
    registration [r]. *)
Definition not_released (via : registry) (rs : list listener)
    (r : registry * listener) : bool :=
  forallb (fun d => negb (registry_eqb via (fst r) && listener_eqb d (snd r))) rs.

(** The state [ws.close()] leaves. *)
Definition closing (w : nat) (g : golos) : golos :=
  let g1 := set_trace (trace g ++ [WsClose w]) g in
  match readyState w g with
  | CONNECTING | OPEN => set_sockets (<[w := CLOSED]> (sockets g)) g1
  | CLOSED => g1
  end.

(** The state [stop()] leaves. *)
Definition stopped (g : golos) : golos :=
  set_releases []
    (set_listeners
       (List.filter (not_released (removes_through (WebSocket g)) (releases g))
                    (listeners g))
       (set_ws None
          (set_startP None
             match ws g with
             | Some w => closing w g
             | None => g
             end))).

(** The three listeners [start] registers on socket [w] for connection
    promise [p]. *)
Definition listeners_of (w p : nat) : list listener :=
  [{| l_target := w; l_event := OnOpen; l_startP := p |};
   {| l_target := w; l_event := OnClose; l_startP := p |};
   {| l_target := w; l_event := OnMessage; l_startP := p |}].

(** The state [start()] leaves when there is no connection promise. *)
Definition connecting (g : golos) : golos :=
  let p := next_promise g in
  let w := sockets_created g in
  set_startP (Some p)
    (set_releases (releases g ++ listeners_of w p)
       (set_listeners
          (listeners g
           ++ map (pair (adds_through (WebSocket g))) (listeners_of w p))
          (set_ws (Some w)
             (set_trace (trace g ++ [NewWebSocket w (websocket_url g)])
                (set_sockets (<[w := CONNECTING]> (sockets g))
                   (set_sockets_created (S w)
                      (set_next_promise (S p)
                         (set_promises
                            (<[p := {| p_state := Pending; p_nodeback := JUndefined |}]>
                               (promises g)) g)))))))).

(** Every listener was registered through the interface [listenTo]
    picks and, where the disposers remove through that interface, has
    its disposer in [this.releases]. *)
Definition disposable (g : golos) : Prop :=
  forall r, In r (listeners g) ->
    fst r = adds_through (WebSocket g) /\
    (removes_through (WebSocket g) = adds_through (WebSocket g) ->
     In (snd r) (releases g)).

(** From [g] to [g']: the [WebSocket] class is the same and the
    disposers still cover the listeners. *)
Definition keeps_disposable (g g' : golos) : Prop :=
  WebSocket g' = WebSocket g /\ (disposable g -> disposable g').

(** What a settled promise passes to a callback attached with
    [nodeify]. *)
Definition nodeback_call (cb : jsval) (st : pstate) : list obs :=
  if is_function cb then
    match st with
    | Fulfilled v => [Callback cb None v]
    | Rejected e => [Callback cb (Some e) JUndefined]
    | Pending => []
    end
  else [].

(** From [g] to [g']: only the promises and the trace differ. *)
Definition promises_only (g g' : golos) : Prop :=
  g' = set_trace (trace g') (set_promises (promises g') g).

(** The error of a connection that closed before it opened. *)
Definition closed_early : js_error :=
  new_Error "The WS connection was closed before this operation was made".

(** Sample arguments and frames. *)
Definition a_subscription : data :=
  {| method := "set_block_applied_callback"; params := [JNum 0];
     data_id := None |}.

Definition error_frame_0 : frame :=
  {| msg_id := 0;
     msg_error := JObj [("message"%string, JStr "x")];
     msg_result := JUndefined |}.

(** A client with one subscription registered under id 0. *)
Definition a_subscribed_client : golos :=
  Eval vm_compute in
  run (new_Golos ws_1 "wss://node")
      [CallSend "database_api" a_subscription (JFun 1); WsOpened 0; Continue 0].

(** The frames a subscription is fed: the given id, no error. *)
Definition pushes (i : Z) (ms : list frame) : Prop :=
  Forall (fun m => msg_id m = i /\ truthy (msg_error m) = false) ms.

(** The envelope [send] writes for a continuation. *)
Definition envelope_of (t : continuation) : envelope :=
  {| env_id := k_id t; env_method := "call"; env_jsonrpc := "2.0";
     env_params := (k_api t, method (k_data t), params (k_data t)) |}.

(** [call], made in state [g], takes the next id of the counter and
    queues a continuation that, once it runs with [this.ws] an open
    socket, writes the envelope of [api.m(ps)] and registers [cb] under
    that id in [this.callbacks], leaving [this.requests] alone. *)
Definition subscribes (call : M golos nat) (api m : string) (ps : list jsval)
    (cb : jsval) (g : golos) : Prop :=
  exists q g1 t,
    call g = (inr q, g1) /\
    id g1 = id g + 1 /\
    waiting g1 = waiting g ++ [t] /\
    k_promise t = q /\
    forall g2 w now, ws g2 = Some w -> readyState w g2 = OPEN ->
      dispatch t now g2
      = (inr tt,
         set_trace
           (trace g2 ++ [WsSend w {| env_id := id g; env_method := "call";
                                     env_jsonrpc := "2.0";
                                     env_params := (api, m, ps) |}])
           (set_callbacks
              (<[id g := {| sub_api := api;
                            sub_data := {| method := m; params := ps;
                                           data_id := None |};
                            sub_cb := cb |}]> (callbacks g2)) g2)).

(** Events that are neither [start()] nor [send()]. *)
Definition makes_no_call (e : event) : Prop :=
  match e with
  | CallStart | CallSend _ _ _ => False
  | _ => True
  end.

(** The url in the configuration after [es], starting from [url]. *)
Definition configured (url : string) (es : list event) : string :=
  fold_left (fun u e => match e with CallSetWebSocket u' => u' | _ => u end)
            es url.

(** The sockets opened in a trace, each with its url. *)
Definition connections (t : list obs) : list (nat * string) :=
  flat_map (fun o => match o with NewWebSocket w u => [(w, u)] | _ => [] end) t.

(** The connection promise of every queued continuation is fulfilled. *)
Definition connected (g : golos) : Prop :=
  Forall (fun t => exists v nb,
            promises g !! k_startP t
            = Some {| p_state := Fulfilled v; p_nodeback := nb |})
         (waiting g).

(** Three calls queued on a connection that has just opened. *)
Definition a_connected_client : golos :=
  Eval vm_compute in
  run (new_Golos ws_1 "wss://node")
      [CallSend "database_api" a_call JUndefined;
       CallSend "database_api" call_7 JUndefined;
       CallSend "database_api" a_call JUndefined;
       WsOpened 0].

End Client.

(** ** Methods generated from the registry (index.js, lines 320-358) *)

Module Binding.

Import Client.

(** An entry of [methods.js]. An absent [params] is [None]; an absent
    [has_default_values] is [false]. *)
Record entry : Type := {
  m_api : string;
  m_method : string;
  m_method_name : option string;
  m_params : option (list string);
  m_has_default_values : bool;
}.

(** [s.split(sep)] for a one-character separator. *)
Fixpoint split (sep : Ascii.ascii) (s : string) : list string :=
  match s with
  | EmptyString => [EmptyString]
  | String c rest =>
      if Ascii.eqb c sep then EmptyString :: split sep rest
      else match split sep rest with
           | [] => [String c EmptyString]
           | h :: t => String c h :: t
           end
  end.

(** [const [p, value] = param.split('=')]: [value] is [undefined] when
    there is no ['=']. *)
Definition split_param (param : string) : string * option string :=
  let parts := split "="%char param in
  (List.nth 0 parts EmptyString, List.nth_error parts 1).

(** A JavaScript object used as a bag of named values. *)
Abbreviation object := (gmap string jsval).

(** [o[k]] *)
Definition get (o : object) (k : string) : jsval :=
  match o !! k with
  | Some v => v
  | None => JUndefined
  end.

(** [Object.assign(target, source)]: every property of [source] is
    written into [target], and [target] is returned. The result is the
    new content of the object [target]. *)
Definition Object_assign (target source : object) : object :=
  source ∪ target.

(** [method.params || []] *)
Definition methodParams (m : entry) : list string :=
  match m_params m with
  | Some l => l
  | None => []
  end.

Section WithParser.

(** [JSON.parse], applied to the default values written in the
    registry. *)
Variable JSON_parse : string -> jsval.

(** The object [defaultParms] as the module-level loop leaves it:
    [defaultParms[p] = value ? JSON.parse(value) : ''] for every
    parameter when the entry has default values, empty otherwise. *)
Definition initial_defaultParms (m : entry) : object :=
  if m_has_default_values m then
    fold_left
      (fun (defaultParms : object) param =>
         let '(p, value) := split_param param in
         <[p := match value with
                | Some v => if negb (String.eqb v "") then JSON_parse v
                            else JStr ""
                | None => JStr ""
                end]> defaultParms)
      (methodParams m) ∅
  else ∅.

(** What a generated method closes over and works on: the [defaultParms]
    object of its registry entry, shared by all its calls, and the
    client [this]. *)
Record env : Type := {
  defaultParms : object;
  this : golos;
}.

Definition with_this {A} (m : M golos A) : M env A :=
  fun e =>
    match m (this e) with
    | (r, g) => (r, {| defaultParms := defaultParms e; this := g |})
    end.

Definition set_defaultParms (o : object) (e : env) : env :=
  {| defaultParms := o; this := this e |}.

(** [Golos$$specializedSendWith(options, callback)] *)
Definition specializedSendWith (m : entry) (options : object)
    (callback : jsval) : M golos nat :=
  let params :=
    map (fun param => get options (fst (split_param param))) (methodParams m) in
  send (m_api m)
       {| method := m_method m; params := params; data_id := None |}
       callback.

(** The [forEach] that fills [options] from the positional arguments. *)
Fixpoint fill_options (ps : list string) (i : nat) (argsWithoutCb : list jsval)
    (options : object) : object :=
  match ps with
  | [] => options
  | param :: rest =>
      let '(p, value) := split_param param in
      let a := List.nth i argsWithoutCb JUndefined in
      fill_options rest (S i) argsWithoutCb
        (if truthy a then <[p := a]> options else options)
  end.

(** [Golos$specializedSend(...args)] *)
Definition specializedSend (m : entry) (args : list jsval) : M env nat :=
  let options : object := ∅ in
  let argsWithoutCb := take (length args - 1) args in
  let options := fill_options (methodParams m) 0 argsWithoutCb options in
  dp ← gets defaultParms;
  (* Object.assign writes into defaultParms and returns that object *)
  modify (set_defaultParms (Object_assign dp options)) ;;
  options ← gets defaultParms;
  let callback := List.nth (length args - 1) args JUndefined in
  with_this (specializedSendWith m options callback).

(** The environment of a method right after the module was loaded. *)
Definition loaded (m : entry) (g : golos) : env :=
  {| defaultParms := initial_defaultParms m; this := g |}.

(** Successive calls of one generated method. *)
Fixpoint calls (m : entry) (argss : list (list jsval)) (e : env) : env :=
  match argss with
  | [] => e
  | args :: rest => calls m rest (snd (specializedSend m args e))
  end.

End WithParser.

(** [JSON.parse] on the literals the registry uses as defaults:
    integers, [true], [false], [null]. Other texts are outside its
    domain and read as [JUndefined]. *)
Fixpoint digits (s : string) (acc : Z) : option Z :=
  match s with
  | EmptyString => Some acc
  | String c rest =>
      let n := Z.of_nat (Ascii.nat_of_ascii c) - 48 in
      if (0 <=? n) && (n <=? 9) then digits rest (10 * acc + n) else None
  end.

Definition parse_literal (s : string) : jsval :=
  match s with
  | "true" => JBool true
  | "false" => JBool false
  | "null" => JNull
  | String "-" rest =>
      match rest, digits rest 0 with
      | String _ _, Some n => JNum (- n)
      | _, _ => JUndefined
      end
  | String _ _ =>
      match digits s 0 with
      | Some n => JNum n
      | None => JUndefined
      end
  | EmptyString => JUndefined
  end%string.

(** The parameter lists sent by the calls recorded in a client trace. *)
Definition sent_params (t : list Client.obs) : list (list jsval) :=
  flat_map (fun o => match o with
                     | SendCalled _ d _ => [params d]
                     | _ => []
                     end) t.

(** A registry entry with a default value, and three callbacks. *)
Definition get_content : entry :=
  {| m_api := "social_network"; m_method := "get_content";
     m_method_name := None;
     m_params := Some ["author"; "permlink"; "voteLimit=10000"]%string;
     m_has_default_values := true |}.

(** *** Vocabulary of the further properties *)

(** The name of a declared parameter: what stands before ['=']. *)
Definition param_name (param : string) : string := fst (split_param param).

(** The names of the parameters an entry declares, in order. *)
Definition param_names (m : entry) : list string :=
  map param_name (methodParams m).

(** [argsWithoutCb[i]] of a call with arguments [args]. *)
Definition argument (args : list jsval) (i : nat) : jsval :=
  List.nth i (take (length args - 1) args) JUndefined.

(** What a call sends for its [i]-th parameter, named [p]: the argument
    if it is truthy, else what [defaultParms] holds under [p]. *)
Definition sent_for (defaults : object) (args : list jsval) (i : nat)
    (p : string) : jsval :=
  if truthy (argument args i) then argument args i else get defaults p.

(** [s] does not contain the character [c]. *)
Fixpoint free_of (c : Ascii.ascii) (s : string) : bool :=
  match s with
  | EmptyString => true
  | String c' rest => negb (Ascii.eqb c' c) && free_of c rest
  end.

(** [value ? JSON.parse(value) : ''] *)
Definition default_of (JSON_parse : string -> jsval) (value : option string) : jsval :=
  match value with
  | Some v => if negb (String.eqb v "") then JSON_parse v else JStr ""
  | None => JStr ""
  end.

(** One turn of the loop that fills [defaultParms]. *)
Definition add_default (JSON_parse : string -> jsval)
    (defaultParms : object) (param : string) : object :=
  let '(p, value) := split_param param in
  <[p := default_of JSON_parse value]> defaultParms.

End Binding.

(** * Properties *)

(** ** The effect monad *)

Module MonadFacts.

Lemma bind_inr {S A B} (m : M S A) (f : A -> M S B) s a s1 :
  m s = (inr a, s1) -> (m ≫= f) s = f a s1.
Proof. intros H. unfold mbind, M_bind. rewrite H. reflexivity. Qed.

Lemma bind_inl {S A B} (m : M S A) (f : A -> M S B) s e s1 :
  m s = (inl e, s1) -> (m ≫= f) s = (inl e, s1).
Proof. intros H. unfold mbind, M_bind. rewrite H. reflexivity. Qed.

Lemma snd_then_ret {S A} (m : M S A) s :
  snd ((m ≫= fun _ => mret tt) s) = snd (m s).
Proof. unfold mbind, M_bind. destruct (m s) as [[e | a] s1]; reflexivity. Qed.

Section Preservation.

Context {S : Type} (R : S -> S -> Prop).
Hypothesis R_refl : forall s, R s s.
Hypothesis R_trans : forall a b c, R a b -> R b c -> R a c.

Lemma preserves_ret {A} (a : A) : preserves R (mret a).
Proof. intros s. apply R_refl. Qed.

Lemma preserves_gets {A} (f : S -> A) : preserves R (gets f).
Proof. intros s. apply R_refl. Qed.

Lemma preserves_throw {A} (e : exn) : preserves R (@throw S A e).
Proof. intros s. apply R_refl. Qed.

Lemma preserves_lift {A} (r : exn + A) : preserves R (@lift S A r).
Proof. intros s. apply R_refl. Qed.

Lemma preserves_modify (f : S -> S) :
  (forall s, R s (f s)) -> preserves R (modify f).
Proof. intros Hf s. apply Hf. Qed.

Lemma preserves_bind {A B} (m : M S A) (f : A -> M S B) :
  preserves R m -> (forall a, preserves R (f a)) -> preserves R (m ≫= f).
Proof.
  intros Hm Hf s. unfold mbind, M_bind.
  specialize (Hm s). destruct (m s) as [[e | a] s']; simpl in *.
  - exact Hm.
  - eapply R_trans; [exact Hm | apply Hf].
Qed.

Lemma preserves_catch {A} (m : M S A) (h : exn -> M S A) :
  preserves R m -> (forall x, preserves R (h x)) -> preserves R (catch m h).
Proof.
  intros Hm Hh s. unfold catch.
  specialize (Hm s). destruct (m s) as [[e | a] s']; simpl in *.
  - eapply R_trans; [exact Hm | apply Hh].
  - exact Hm.
Qed.

Lemma preserves_for_each (f : jsval -> M S unit) (items : list jsval) :
  (forall x, preserves R (f x)) -> preserves R (for_each f items).
Proof.
  intros Hf. induction items as [| x rest IH]; simpl.
  - apply preserves_ret.
  - apply preserves_bind; [apply Hf | intros _; exact IH].
Qed.

Lemma preserves_js_forEach (v : jsval) (f : jsval -> M S unit) :
  (forall x, preserves R (f x)) -> preserves R (js_forEach v f).
Proof.
  intros Hf. destruct v; simpl;
    try apply preserves_throw. apply preserves_for_each, Hf.
Qed.

End Preservation.

(** Takes a computation apart along its binds and case distinctions;
    [refl] and [trans] prove the relation a preorder, [leaf] closes what
    is left at a [modify]. *)
Ltac frame_with refl trans leaf :=
  repeat first
    [ apply (preserves_ret _ refl)
    | apply (preserves_gets _ refl)
    | apply (preserves_throw _ refl)
    | apply (preserves_lift _ refl)
    | apply (preserves_bind _ trans); [| intros ?]
    | apply (preserves_catch _ trans); [| intros ?]
    | apply (preserves_js_forEach _ refl trans); intros ?
    | apply preserves_modify; solve [leaf]
    | match goal with
      | |- preserves _ (match ?x with _ => _ end) => destruct x
      | |- preserves _ (let '(_, _) := ?x in _) => destruct x
      end
    | progress cbv zeta
    | solve [leaf] ].

End MonadFacts.

(** ** The streaming pipeline *)

Module StreamFacts.

Import Stream MonadFacts.

#[local] Arguments cursor_neq : simpl never.
#[local] Arguments cursor_truthy : simpl never.

Lemma for_loop_step cb b i :
  for_loop cb b i =
  if Z_lt_dec i b then
    cur ← gets current;
    (if cursor_neq (At i) cur then cb (inr i) else mret tt) ;;
    modify (set_current (At i)) ;;
    for_loop cb b (i + 1)
  else mret tt.
Proof.
  rewrite for_loop_unfold_eq at 1. unfold for_loop_unfold.
  destruct (Z_lt_dec i b); reflexivity.
Qed.

(** One iteration of the loop, and its exit. *)
Lemma for_loop_iter cb b i s :
  i < b ->
  for_loop cb b i s =
  match (if cursor_neq (At i) (current s) then cb (inr i) else mret tt) s with
  | (inl e, s') => (inl e, s')
  | (inr _, s') => for_loop cb b (i + 1) (set_current (At i) s')
  end.
Proof.
  intros Hlt. rewrite for_loop_step. destruct (Z_lt_dec i b); [| lia].
  unfold mbind, M_bind, gets, modify. cbv beta iota.
  destruct ((if cursor_neq (At i) (current s) then cb (inr i) else mret tt) s)
    as [[e | []] s']; reflexivity.
Qed.

Lemma for_loop_done cb b i s : ~ i < b -> for_loop cb b i s = (inr tt, s).
Proof.
  intros Hge. rewrite for_loop_step. destruct (Z_lt_dec i b); [lia | reflexivity].
Qed.

Lemma cursor_neq_refl c : cursor_neq c c = false.
Proof.
  destruct c; unfold cursor_neq; [reflexivity |].
  rewrite Z.eqb_refl. reflexivity.
Qed.

Lemma cursor_neq_false a b : cursor_neq a b = false -> a = b.
Proof.
  destruct a, b; unfold cursor_neq; try discriminate; try reflexivity.
  intros H. apply negb_false_iff, Z.eqb_eq in H. congruence.
Qed.

Lemma cursor_neq_At x y : x <> y -> cursor_neq (At x) (At y) = true.
Proof. intros H. unfold cursor_neq. apply negb_true_iff, Z.eqb_neq, H. Qed.

(** The loop, once past its first iteration: entered at [i] with the
    cursor at [i - 1], it reports [i], ..., [blockId - 1] and leaves the
    cursor at [blockId - 1]. *)
Lemma for_loop_reports (n : nat) : forall b i s,
  Z.to_nat (b - i) = n ->
  current s = At (i - 1) ->
  exists s',
    for_loop user_number_callback b i s = (inr tt, s') /\
    current s' = (if Z_lt_dec i b then At (b - 1) else current s) /\
    trace s' = trace s ++ map (fun k => CallbackOk (JNum k)) (seqZ i (b - i)).
Proof.
  induction n as [| n IH]; intros b i s Hn Hc;
    destruct (Z_lt_dec i b) as [Hlt | Hge]; try lia.
  - exists s. rewrite for_loop_done by exact Hge.
    rewrite seqZ_nil by lia. rewrite app_nil_r. auto.
  - rewrite (for_loop_iter _ b i s Hlt), Hc.
    rewrite cursor_neq_At by lia. cbn [user_number_callback modify].
    set (s1 := set_current (At i) (emit (CallbackOk (JNum i)) s)).
    destruct (IH b (i + 1) s1) as (s' & Hrun & Hcur & Htr).
    { lia. }
    { simpl. f_equal. lia. }
    exists s'. split; [exact Hrun |]. split.
    + rewrite Hcur. destruct (Z_lt_dec (i + 1) b); [reflexivity |].
      simpl. f_equal. lia.
    + rewrite Htr. simpl. rewrite (seqZ_cons i) by lia.
      rewrite <- app_assoc. simpl. repeat f_equal; lia.
Qed.

Lemma callback_values_app t1 t2 :
  callback_values (t1 ++ t2) = callback_values t1 ++ callback_values t2.
Proof. unfold callback_values. apply flat_map_app. Qed.

Lemma callback_values_reports ks :
  callback_values (map (fun k => CallbackOk (JNum k)) ks) = map JNum ks.
Proof. induction ks as [| k ks IH]; simpl; [reflexivity | now rewrite IH]. Qed.

(** The fulfilment handler, applied to a state. *)
Lemma on_result_run mode ts cb r s :
  on_result mode ts cb r s =
  match
    (if cursor_neq (At (block_number mode r)) (current s) then
       if cursor_truthy (current s) then
         match current s with
         | At c => for_loop cb (block_number mode r) c
         | Unset => mret tt
         end
       else modify (set_current (At (block_number mode r))) ;;
            cb (inr (block_number mode r))
     else mret tt) s
  with
  | (inl e, s') => (inl e, s')
  | (inr _, s') => Promise_delay ts s'
  end.
Proof. reflexivity. Qed.

(** A poll after the first report: with the cursor at [c] and the node
    at block [b], the numbers strictly between [c] and [b] are reported,
    and the cursor moves to [b - 1]. The block [b] itself is not
    reported. *)
Lemma later_poll_reports mode ts r c s :
  current s = At c -> c <> 0 ->
  let b := block_number mode r in
  exists s',
    on_result mode ts user_number_callback r s = (inr tt, s') /\
    callback_values (trace s') =
      callback_values (trace s) ++ map JNum (seqZ (c + 1) (b - c - 1)) /\
    current s' = At (Z.max c (b - 1)).
Proof.
  intros Hc Hnz b. rewrite on_result_run. fold b. clearbody b. rewrite Hc.
  destruct (Z.eq_dec b c) as [-> | Hne].
  - rewrite cursor_neq_refl. cbn.
    eexists; split; [reflexivity |]. cbn. split.
    + rewrite seqZ_nil by lia. rewrite callback_values_app. reflexivity.
    + rewrite Hc. f_equal. lia.
  - rewrite cursor_neq_At by exact Hne.
    assert (Ht : cursor_truthy (At c) = true).
    { unfold cursor_truthy. apply negb_true_iff, Z.eqb_neq, Hnz. }
    rewrite Ht.
    destruct (Z_lt_dec c b) as [Hlt | Hge].
    + rewrite (for_loop_iter _ b c s Hlt), Hc.
      rewrite cursor_neq_refl. cbn [mret M_ret].
      destruct (for_loop_reports (Z.to_nat (b - (c + 1))) b (c + 1)
                  (set_current (At c) s)) as (s' & Hrun & Hcur & Htr).
      { reflexivity. }
      { simpl. f_equal. lia. }
      replace (b - (c + 1)) with (b - c - 1) in Htr by lia.
      rewrite Hrun. cbn.
      eexists; split; [reflexivity |]. cbn. rewrite Htr, Hcur. split.
      * rewrite !callback_values_app, callback_values_reports. cbn.
        rewrite app_nil_r. reflexivity.
      * destruct (Z_lt_dec (c + 1) b); cbn; f_equal; lia.
    + rewrite (for_loop_done _ b c s Hge). cbn.
      eexists; split; [reflexivity |]. cbn. split.
      * rewrite seqZ_nil by lia. rewrite callback_values_app. reflexivity.
      * rewrite Hc. f_equal. lia.
Qed.

(** C1. On the polls 5, 5, 8 the callback of [streamBlockNumber('head', cb)]
    receives 5, 6, 7 and nothing else: the catch-up loop stops one short
    of the observed head, so 8 is not reported by the poll that saw it. *)
Theorem streamBlockNumber_polls_5_5_8 :
  callback_values
    (trace (run (streamBlockNumber (ModeString "head") user_number_callback default_ts)
                started (polls (map head_at [5; 5; 8]))))
  = [JNum 5; JNum 6; JNum 7].
Proof. vm_compute. reflexivity. Qed.

Lemma numbers_app t1 t2 : numbers (t1 ++ t2) = numbers t1 ++ numbers t2.
Proof. unfold numbers. apply flat_map_app. Qed.

Lemma fetched_app t1 t2 : fetched (t1 ++ t2) = fetched t1 ++ fetched t2.
Proof. unfold fetched. apply flat_map_app. Qed.

Lemma set_current_id s : set_current (current s) s = s.
Proof. destruct s; reflexivity. Qed.

Lemma set_current_same s c : current s = c -> set_current c s = s.
Proof. intros <-. apply set_current_id. Qed.

(** One report, made with the cursor at [x]: the number callback of
    [streamBlock] requests the block, since the number differs from the
    last one requested. *)
Lemma report_in_step sN sB i x :
  in_step sN sB -> current sB <> At i ->
  exists sN' sB',
    user_number_callback (inr i) (set_current x sN) = (inr tt, sN') /\
    streamBlock_cb user_callback (inr i) (set_current x sB) = (inr tt, sB') /\
    current sN' = x /\ current sB' = x /\
    in_step (set_current (At i) sN') (set_current (At i) sB').
Proof.
  intros [Hr Hc Hl Hp Hd Ht] Hne.
  unfold streamBlock_cb, mbind, M_bind, gets, modify. cbn.
  rewrite Hl.
  destruct (cursor_neq (At i) (current sB)) eqn:E.
  - cbn. do 2 eexists. split; [reflexivity |]. split; [reflexivity |].
    split; [reflexivity |]. split; [reflexivity |].
    constructor; cbn; try assumption; try reflexivity.
    rewrite numbers_app, fetched_app, Ht. reflexivity.
  - apply cursor_neq_false in E. congruence.
Qed.

Lemma for_loop_in_step (n : nat) : forall b i sN sB,
  Z.to_nat (b - i) = n ->
  in_step sN sB ->
  exists sN' sB',
    for_loop user_number_callback b i sN = (inr tt, sN') /\
    for_loop (streamBlock_cb user_callback) b i sB = (inr tt, sB') /\
    in_step sN' sB'.
Proof.
  induction n as [| n IH]; intros b i sN sB Hn Hs;
    destruct (Z_lt_dec i b) as [Hlt | Hge]; try lia.
  - exists sN, sB. rewrite !for_loop_done by exact Hge. auto.
  - rewrite (for_loop_iter user_number_callback b i sN Hlt),
            (for_loop_iter (streamBlock_cb user_callback) b i sB Hlt).
    rewrite (step_current _ _ Hs).
    destruct (cursor_neq (At i) (current sB)) eqn:E.
    + destruct (report_in_step sN sB i (current sB) Hs)
        as (sN1 & sB1 & HN & HB & _ & _ & Hs1).
      { intros Heq. rewrite Heq, cursor_neq_refl in E. discriminate. }
      rewrite set_current_id in HB.
      rewrite (set_current_same _ _ (step_current _ _ Hs)) in HN.
      rewrite HN, HB. apply IH; [lia | exact Hs1].
    + apply cursor_neq_false in E. cbn [mret M_ret].
      apply IH; [lia |].
      destruct Hs as [Hr Hc Hl Hp Hd Ht].
      constructor; cbn; try assumption; try reflexivity. congruence.
Qed.

Lemma on_result_in_step mode tsN tsB r sN sB :
  in_step sN sB ->
  exists sN' sB',
    on_result mode tsN user_number_callback r sN = (inr tt, sN') /\
    on_result mode tsB (streamBlock_cb user_callback) r sB = (inr tt, sB') /\
    in_step sN' sB'.
Proof.
  intros Hs. rewrite !on_result_run.
  generalize (block_number mode r). intros b.
  rewrite (step_current _ _ Hs).
  assert (Hdelay : forall tN tB, in_step tN tB ->
            in_step (snd (Promise_delay tsN tN)) (snd (Promise_delay tsB tB))).
  { intros tN tB [Hr Hc Hl Hp Hd Ht].
    constructor; cbn; try assumption; try congruence.
    rewrite numbers_app, fetched_app, Ht. reflexivity. }
  destruct (cursor_neq (At b) (current sB)) eqn:E.
  - destruct (cursor_truthy (current sB)) eqn:T.
    + destruct (current sB) as [| c] eqn:C; [discriminate T |].
      destruct (for_loop_in_step _ b c sN sB eq_refl Hs)
        as (sN1 & sB1 & HN & HB & Hs1).
      rewrite HN, HB.
      do 2 eexists. split; [reflexivity |]. split; [reflexivity |].
      exact (Hdelay _ _ Hs1).
    + destruct (report_in_step sN sB b (At b) Hs)
        as (sN1 & sB1 & HN & HB & HcN & HcB & Hs1).
      { intros Heq. rewrite Heq, cursor_neq_refl in E. discriminate. }
      unfold mbind, M_bind. cbn [modify]. rewrite HN, HB.
      do 2 eexists. split; [reflexivity |]. split; [reflexivity |].
      apply Hdelay.
      rewrite (set_current_same _ _ HcN), (set_current_same _ _ HcB) in Hs1.
      exact Hs1.
  - cbn [mret M_ret].
    do 2 eexists. split; [reflexivity |]. split; [reflexivity |].
    exact (Hdelay _ _ Hs).
Qed.

Lemma step_in_step mode tsN cbN' tsB sN sB e :
  in_step sN sB ->
  (match e with PollResolved _ | DelayElapsed => True | _ => False end) ->
  in_step
    (step {| p_mode := mode; p_ts := tsN; on_number := user_number_callback;
             on_block := cbN' |} sN e)
    (step {| p_mode := mode; p_ts := tsB;
             on_number := streamBlock_cb user_callback;
             on_block := user_callback |} sB e).
Proof.
  intros Hs He. destruct e; try contradiction; cbn [step p_mode p_ts on_number].
  - rewrite (step_polls _ _ Hs).
    destruct (polls_in_flight sB) as [| k]; [exact Hs |].
    destruct (on_result_in_step mode tsN tsB result (set_polls k sN) (set_polls k sB))
      as (sN1 & sB1 & HN & HB & Hs1).
    { destruct Hs as [Hr Hc Hl Hp Hd Ht]. constructor; cbn; auto. }
    unfold run_handler. rewrite HN, HB. exact Hs1.
  - rewrite (step_delays _ _ Hs).
    destruct (delays_pending sB) as [| k]; [exact Hs |].
    unfold run_handler, update, mbind, M_bind, gets. cbn.
    rewrite (step_running _ _ Hs).
    destruct Hs as [Hr Hc Hl Hp Hd Ht].
    destruct (running sB) eqn:R; cbn; constructor; cbn;
      rewrite ?numbers_app, ?fetched_app, ?Ht; auto; congruence.
Qed.

Lemma run_in_step mode tsN cbN' tsB rs : forall sN sB,
  in_step sN sB ->
  in_step
    (run {| p_mode := mode; p_ts := tsN; on_number := user_number_callback;
            on_block := cbN' |} sN (polls rs))
    (run {| p_mode := mode; p_ts := tsB;
            on_number := streamBlock_cb user_callback;
            on_block := user_callback |} sB (polls rs)).
Proof.
  induction rs as [| r rs IH]; intros sN sB Hs; [exact Hs |].
  cbn [polls flat_map app run fold_left].
  apply IH. apply step_in_step; [| exact I]. apply step_in_step; [exact Hs | exact I].
Qed.

(** C2, as stated, fails: on the polls 5, 5, 8 [streamBlock] calls
    [getBlock] three times, with 5, 6 and 7. *)
Lemma streamBlock_polls_5_5_8 :
  fetched
    (trace (run (streamBlock (ModeString "head") user_callback)
                started (polls (map head_at [5; 5; 8]))))
  = [5; 6; 7] /\
  fetched
    (trace (run (streamBlock (ModeString "head") user_callback)
                started (polls (map head_at [5; 5; 8]))))
  <> [5; 8].
Proof. split; [vm_compute; reflexivity | vm_compute; discriminate]. Qed.

(** C2, amended. [streamBlock] calls [getBlock] once for every number
    that [streamBlockNumber] reports on the same polls, in the order of
    the reports, the numbers synthesized between two polls included. *)
Theorem streamBlock_fetches_every_report (mode : string) (ts : Z) (rs : list dgp) :
  fetched
    (trace (run (streamBlock (ModeString mode) user_callback) started (polls rs)))
  = numbers
      (trace (run (streamBlockNumber (ModeString mode) user_number_callback ts)
                  started (polls rs))).
Proof.
  symmetry. apply step_trace. apply run_in_step.
  constructor; reflexivity.
Qed.

(** *** Cancellation *)

Lemma stays_cancelled_refl s : stays_cancelled s s.
Proof. intros H. auto. Qed.

Lemma stays_cancelled_trans a b c :
  stays_cancelled a b -> stays_cancelled b c -> stays_cancelled a c.
Proof.
  intros Hab Hbc H. destruct (Hab H) as [Hb Hpb].
  destruct (Hbc Hb) as [Hc Hpc]. split; [exact Hc | congruence].
Qed.

Lemma poll_count_emit o s :
  o <> Poll -> poll_count (trace (emit o s)) = poll_count (trace s).
Proof.
  intros Ho. unfold poll_count. cbn. rewrite flat_map_app, length_app.
  destruct o; cbn; try lia. congruence.
Qed.

(** Closes [stays_cancelled s (f s)] for an [f] built from setters other
    than [set_running true] and reports other than [Poll]. *)
Ltac quiet_leaf :=
  intros; intros ?; cbn [running trace set_running set_current set_sb_current
                         set_sb_last set_polls set_delays set_fetches];
  rewrite ?poll_count_emit by discriminate; cbn; auto.

Ltac quiet := frame_with stays_cancelled_refl stays_cancelled_trans quiet_leaf.

Lemma update_stays_cancelled : preserves stays_cancelled update.
Proof.
  intros s H. unfold update, mbind, M_bind, gets. cbn. rewrite H. cbn. auto.
Qed.

Lemma for_loop_preserves (R : stream -> stream -> Prop) (cb : callback Z) (b : Z) :
  (forall s, R s s) ->
  (forall x y z, R x y -> R y z -> R x z) ->
  (forall c s, R s (set_current c s)) ->
  (forall i, preserves R (cb (inr i))) ->
  forall (n : nat) i, Z.to_nat (b - i) = n -> preserves R (for_loop cb b i).
Proof.
  intros Hrefl Htrans Hset Hcb.
  induction n as [| n IH]; intros i Hn; rewrite for_loop_step;
    destruct (Z_lt_dec i b); try lia; try apply (preserves_ret _ Hrefl).
  apply (preserves_bind _ Htrans); [apply (preserves_gets _ Hrefl) |].
  intros cur. apply (preserves_bind _ Htrans).
  - destruct (cursor_neq (At i) cur); [apply Hcb | apply (preserves_ret _ Hrefl)].
  - intros _. apply (preserves_bind _ Htrans).
    + apply preserves_modify. intros s. apply Hset.
    + intros _. apply IH. lia.
Qed.

Lemma user_callback_stays_cancelled a :
  preserves stays_cancelled (user_callback a).
Proof. unfold user_callback. quiet. Qed.

Lemma streamBlock_cb_stays_cancelled cb a :
  (forall x, preserves stays_cancelled (cb x)) ->
  preserves stays_cancelled (streamBlock_cb cb a).
Proof.
  intros Hcb. unfold streamBlock_cb, release, getBlock. quiet; apply Hcb.
Qed.

Lemma streamTransactions_cb_stays_cancelled cb a :
  (forall x, preserves stays_cancelled (cb x)) ->
  preserves stays_cancelled (streamTransactions_cb cb a).
Proof.
  intros Hcb. unfold streamTransactions_cb, release. quiet; apply Hcb.
Qed.

Lemma streamOperations_cb_stays_cancelled cb a :
  (forall x, preserves stays_cancelled (cb x)) ->
  preserves stays_cancelled (streamOperations_cb cb a).
Proof.
  intros Hcb. unfold streamOperations_cb, release. quiet; apply Hcb.
Qed.

Lemma on_result_stays_cancelled mode ts cb r :
  (forall x, preserves stays_cancelled (cb x)) ->
  preserves stays_cancelled (on_result mode ts cb r).
Proof.
  intros Hcb. unfold on_result, Promise_delay. quiet; [| apply Hcb].
  eapply for_loop_preserves; try reflexivity.
  - apply stays_cancelled_refl.
  - apply stays_cancelled_trans.
  - intros c' s H. auto.
  - intros i. apply Hcb.
Qed.

Lemma run_handler_stays_cancelled m :
  preserves stays_cancelled m ->
  forall s, stays_cancelled s (run_handler m s).
Proof.
  intros Hm s. unfold run_handler. specialize (Hm s).
  destruct (m s) as [[e | []] s']; cbn in *; [| exact Hm].
  intros H. destruct (Hm H) as [Hr Hp]. split; [exact Hr |].
  rewrite poll_count_emit by discriminate. exact Hp.
Qed.








(** *** Blocks without transactions, transactions without operations *)

Lemma for_each_user_callback ops : forall s,
  for_each (fun o => user_callback (inr o)) ops s
  = (inr tt, fold_left (fun s o => emit (CallbackOk o) s) ops s).
Proof.
  induction ops as [| o ops IH]; intros s; [reflexivity |].
  cbn [for_each fold_left]. unfold mbind, M_bind. cbn. apply IH.
Qed.

(** A transaction with an operations list is flattened into one callback
    per operation; any other transaction makes the handler throw. *)
Lemma streamOperations_cb_returns tx s :
  (exists s', streamOperations_cb user_callback (inr tx) s = (inr tt, s'))
  <-> has_operations tx.
Proof.
  unfold streamOperations_cb, has_operations, mbind, M_bind, lift.
  destruct (get_prop tx "operations") as [e | v] eqn:E.
  - split; [intros [s' H]; discriminate | intros [ops H]; discriminate].
  - destruct v; cbn;
      try (split; [intros [s' H]; discriminate | intros [ops H]; discriminate]).
    split; [intros _; eauto |].
    intros _. rewrite for_each_user_callback. eauto.
Qed.

Lemma for_each_operations txs : forall s,
  (exists s', for_each (fun tx => streamOperations_cb user_callback (inr tx)) txs s
              = (inr tt, s'))
  <-> Forall has_operations txs.
Proof.
  induction txs as [| tx txs IH]; intros s.
  - split; [constructor | intros _; cbn; eauto].
  - cbn [for_each]. unfold mbind, M_bind.
    destruct (streamOperations_cb user_callback (inr tx) s) as [[e | []] s1] eqn:E.
    + split; [intros [s' H]; discriminate |].
      intros H. inversion H as [| ? ? Htx Hrest]; subst.
      apply (streamOperations_cb_returns tx s) in Htx.
      destruct Htx as [s' Hs']. congruence.
    + rewrite IH. split.
      * intros H. constructor; [| exact H].
        apply (streamOperations_cb_returns tx s). eauto.
      * intros H. inversion H; assumption.
Qed.

(** C10. A fetched block that is falsy or has no [transactions] is
    skipped by [streamTransactions]: no callback, no error, nothing
    changes. [streamOperations] reads [operations] of every transaction of
    a block: its handler returns exactly when every transaction carries an
    operations list, and throws otherwise. *)
Theorem blocks_skipped_transactions_required (mode : string) (s : stream) :
  (forall (cb : callback jsval) (result : jsval),
      truthy result = false \/ get_prop result "transactions" = inr JUndefined ->
      on_block (streamTransactions (ModeString mode) cb) (inr result) s
      = (inr tt, s)) /\
  (forall (fields : list (string * jsval)) (txs : list jsval),
      assoc "transactions" fields = JArr txs ->
      ((exists s', on_block (streamOperations (ModeString mode) user_callback)
                            (inr (JObj fields)) s = (inr tt, s'))
       <-> Forall has_operations txs)).
Proof.
  split.
  - intros cb result H.
    cbn [streamTransactions streamBlock resolve_args on_block].
    unfold streamTransactions_cb.
    destruct (truthy result) eqn:T; [| reflexivity].
    destruct H as [H | H]; [discriminate |].
    unfold mbind, M_bind, lift. rewrite H. reflexivity.
  - intros fields txs H.
    cbn [streamOperations streamTransactions streamBlock resolve_args on_block].
    unfold streamTransactions_cb.
    cbn [truthy get_prop]. unfold mbind at 1, M_bind at 1, lift. rewrite H.
    cbn [truthy js_forEach]. apply for_each_operations.
Qed.

Lemma blocks_skipped_transactions_required_witness :
  let p := streamTransactions (ModeString "head") user_callback in
  let tx := JObj [("ref_block_num"%string, JNum 1)] in
  on_block p (inr (JObj [("witness"%string, JStr "w")])) started = (inr tt, started) /\
  ~ (exists s', on_block (streamOperations (ModeString "head") user_callback)
                         (inr (JObj [("transactions"%string, JArr [tx])])) started
                = (inr tt, s')).
Proof.
  intros p tx.
  destruct (blocks_skipped_transactions_required "head" started) as [H1 H2].
  split.
  - apply H1. right. reflexivity.
  - intros Hret.
    apply (H2 [("transactions"%string, JArr [tx])] [tx] eq_refl) in Hret.
    inversion Hret as [| ? ? [ops Hops] _]. discriminate Hops.
Defined.

End StreamFacts.

(** ** The client *)

Module ClientFacts.

Import Client MonadFacts.

(** Reduces projections of setters, and nothing else. *)
Ltac fields :=
  cbn [id inFlight currentP isOpen releases requests callbacks startP ws
       websocket_url promises next_promise sockets_created listeners waiting
       trace WebSocket sockets set_id set_currentP set_isOpen set_releases
       set_requests set_callbacks set_startP set_ws set_websocket_url
       set_promises set_next_promise set_sockets_created set_listeners
       set_waiting set_trace set_sockets] in *.

(** Case distinction on the state of the socket an event is about. *)
Ltac socket_cases :=
  intros; unfold socket_opened, socket_closed;
  repeat match goal with
         | |- context [match sockets ?g !! ?w with _ => _ end] =>
             destruct (sockets g !! w) as [[] |]
         end.

Lemma assigned_ids_app t1 t2 :
  assigned_ids (t1 ++ t2) = assigned_ids t1 ++ assigned_ids t2.
Proof. apply flat_map_app. Qed.


Lemma sent_envelopes_app t1 t2 :
  sent_envelopes (t1 ++ t2) = sent_envelopes t1 ++ sent_envelopes t2.
Proof. apply flat_map_app. Qed.

Lemma rejections_app t1 t2 :
  rejections (t1 ++ t2) = rejections t1 ++ rejections t2.
Proof. apply flat_map_app. Qed.

Lemma resolutions_app t1 t2 :
  resolutions (t1 ++ t2) = resolutions t1 ++ resolutions t2.
Proof. apply flat_map_app. Qed.

(** *** The id counter *)

Lemma same_counter_refl g : same_counter g g.
Proof. split; reflexivity. Qed.

Lemma same_counter_trans a b c :
  same_counter a b -> same_counter b c -> same_counter a c.
Proof. intros [H1 H2] [H3 H4]. split; congruence. Qed.

Ltac counter_leaf :=
  socket_cases; unfold same_counter; fields;
  rewrite ?assigned_ids_app; cbn [assigned_ids flat_map];
  rewrite ?app_nil_r; auto.

Ltac counter := frame_with same_counter_refl same_counter_trans counter_leaf.

Lemma settle_same_counter p st : preserves same_counter (settle p st).
Proof. unfold settle, emit. counter. Qed.

Lemma release_all_same_counter rs : preserves same_counter (release_all rs).
Proof.
  induction rs as [| r rs IH]; cbn [release_all]; unfold release; counter.
Qed.

Lemma stop_same_counter : preserves same_counter stop.
Proof. unfold stop, emit. counter. apply release_all_same_counter. Qed.

Lemma start_same_counter : preserves same_counter start.
Proof.
  unfold start, start_executor, new_promise, new_WebSocket, listenTo, emit.
  counter.
Qed.

Lemma dispatch_same_counter t now : preserves same_counter (dispatch t now).
Proof.
  unfold dispatch, reject, emit. counter. all: apply settle_same_counter.
Qed.

Lemma for_listeners_same_counter h ls :
  (forall l, preserves same_counter (h l)) ->
  preserves same_counter (for_listeners h ls).
Proof.
  intros Hh. induction ls as [| l ls IH]; cbn [for_listeners]; counter.
Qed.

Lemma onMessage_same_counter m r : preserves same_counter (onMessage m r).
Proof.
  unfold onMessage, reject, resolve, emit. counter.
  all: try apply settle_same_counter.
Qed.

Lemma message_listener_same_counter m :
  preserves same_counter (message_listener m).
Proof.
  unfold message_listener. counter. all: apply onMessage_same_counter.
Qed.

Lemma continue_same_counter now : preserves same_counter (continue now).
Proof.
  unfold continue. counter.
  all: first [apply settle_same_counter | apply dispatch_same_counter].
Qed.

Lemma open_listener_same_counter w p : preserves same_counter (open_listener w p).
Proof.
  unfold open_listener. counter.
Qed.

Lemma close_listener_same_counter p : preserves same_counter (close_listener p).
Proof.
  unfold close_listener. counter. apply release_all_same_counter.
Qed.

Lemma handler_same_counter e :
  is_send e = false -> preserves same_counter (handler e).
Proof.
  destruct e; cbn [is_send handler]; intros H; try discriminate; counter;
    try apply release_all_same_counter;
    try (apply for_listeners_same_counter; intros l; counter;
         first [apply release_all_same_counter | apply onMessage_same_counter]).
Qed.

Lemma step_frame (R : golos -> golos -> Prop) e g :
  (forall g x, R g (set_trace (trace g ++ [Uncaught x]) g)) ->
  (forall a b c, R a b -> R b c -> R a c) ->
  preserves R (handler e) -> R g (step g e).
Proof.
  intros Hu Ht Hp. unfold step. specialize (Hp g).
  destruct (handler e g) as [[x | []] g']; cbn in Hp; [| exact Hp].
  eapply Ht; [exact Hp | apply Hu].
Qed.

Lemma step_same_counter e g : is_send e = false -> same_counter g (step g e).
Proof.
  intros H. apply step_frame.
  - counter_leaf.
  - apply same_counter_trans.
  - apply handler_same_counter, H.
Qed.

Lemma send_unfold api d cb g i g1 :
  resolve_id d g = (inr i, g1) ->
  send api d cb g
  = send_tail api d cb i (set_trace (trace g1 ++ [SendCalled api d i]) g1).
Proof.
  intros H. unfold send. rewrite (bind_inr _ _ _ _ _ H). reflexivity.
Qed.

Lemma send_tail_same_counter api d cb i :
  preserves same_counter (send_tail api d cb i).
Proof. unfold send_tail. counter. Qed.

(** A call of [send] without an id of its own takes the counter's value
    and moves the counter by one. *)
Lemma send_takes_counter api d cb g :
  data_id d = None ->
  let g' := step g (CallSend api d cb) in
  id g' = id g + 1 /\
  assigned_ids (trace g') = assigned_ids (trace g) ++ [id g].
Proof.
  intros Hd g'.
  assert (Hres : resolve_id d g = (inr (id g), set_id (id g + 1) g)).
  { unfold resolve_id. rewrite Hd. reflexivity. }
  assert (Hg' : same_counter (snd (handler (CallSend api d cb) g)) g').
  { subst g'. unfold step.
    destruct (handler (CallSend api d cb) g) as [[x | []] g2]; cbn [snd].
    - counter_leaf.
    - apply same_counter_refl. }
  cbn [handler] in Hg'. rewrite snd_then_ret, (send_unfold _ _ _ _ _ _ Hres) in Hg'.
  pose proof (send_tail_same_counter api d cb (id g)
                (set_trace (trace (set_id (id g + 1) g) ++ [SendCalled api d (id g)])
                           (set_id (id g + 1) g))) as Ht.
  destruct Hg' as [H1 H2], Ht as [H3 H4].
  rewrite H1, H2, H3, H4. fields. rewrite assigned_ids_app. cbn. auto.
Qed.

(** *** Ids over a run *)

Lemma run_counts_sends es : forall g,
  Forall no_explicit_id es ->
  id (run g es) = id g + send_count es /\
  assigned_ids (trace (run g es))
  = assigned_ids (trace g) ++ seqZ (id g) (send_count es).
Proof.
  induction es as [| e es IH]; intros g Hall.
  - cbn. rewrite Z.add_0_r, app_nil_r. auto.
  - inversion Hall as [| ? ? He Hes]; subst.
    cbn [run fold_left]. destruct (IH (step g e) Hes) as [IH1 IH2].
    fold (run (step g e) es). rewrite IH1, IH2.
    destruct (is_send e) eqn:Es.
    + destruct e; try discriminate. cbn in He.
      destruct (send_takes_counter api d callback g He) as [H1 H2].
      rewrite H1, H2. unfold send_count. cbn [List.filter is_send length].
      rewrite Nat2Z.inj_succ. split; [lia |].
      rewrite <- app_assoc. f_equal.
      rewrite (seqZ_cons (id g)) by lia. cbn. f_equal. f_equal; lia.
    + destruct (step_same_counter e g Es) as [H1 H2].
      rewrite H1, H2. unfold send_count. cbn [List.filter]. rewrite Es. auto.
Qed.

Lemma seqZ_sorted n : forall m, StronglySorted Z.lt (seqZ m (Z.of_nat n)).
Proof.
  induction n as [| n IH]; intros m.
  - cbn. constructor.
  - rewrite seqZ_cons by lia. constructor.
    + replace (Z.pred (Z.of_nat (S n))) with (Z.of_nat n) by lia. apply IH.
    + apply Forall_forall. intros x Hx.
      apply elem_of_seqZ in Hx. lia.
Qed.

(** C5. On one client, as long as no call of [send] carries an id of its
    own, the ids the calls are given are 0, 1, 2, ... in call order,
    whatever else happens to the client in between: a strictly increasing
    sequence that starts at 0. *)
Theorem auto_ids_count_from_zero (impl : implementation) (url : string)
    (es : list event) :
  Forall no_explicit_id es ->
  let ids := assigned_ids (trace (run (new_Golos impl url) es)) in
  ids = seqZ 0 (send_count es) /\ StronglySorted Z.lt ids.
Proof.
  intros Hall ids. subst ids.
  destruct (run_counts_sends es (new_Golos impl url) Hall) as [_ H].
  cbn in H. rewrite H. split; [reflexivity |]. apply seqZ_sorted.
Qed.

Lemma auto_ids_count_from_zero_witness :
  assigned_ids
    (trace (run (new_Golos ws_1 "wss://node")
                [CallSend "database_api" a_call JUndefined; WsOpened 0;
                 Continue 0; CallSend "database_api" a_call (JFun 1); CallStop;
                 CallSend "database_api" a_call JUndefined]))
  = [0; 1; 2].
Proof.
  refine (proj1 (auto_ids_count_from_zero ws_1 "wss://node" _ _)).
  repeat constructor.
Defined.

(** *** The connection promise *)





(** With a connection promise in place, [start] returns it and touches
    nothing. *)
Lemma start_again g p : startP g = Some p -> start g = (inr p, g).
Proof.
  intros H. unfold start, mbind, M_bind, gets. cbv beta iota. rewrite H.
  reflexivity.
Qed.


(** [start] always returns a promise and leaves it in [this.startP]. *)
Lemma start_returns g :
  exists p g1, start g = (inr p, g1) /\ startP g1 = Some p /\
               id g1 = id g /\ waiting g1 = waiting g.
Proof.
  destruct (startP g) as [p |] eqn:H.
  - exists p, g. split; [apply start_again, H | auto].
  - unfold start, start_executor, new_promise, new_WebSocket, listenTo, emit,
      mbind, M_bind, mret, M_ret, gets, modify. cbv beta iota. rewrite H.
    cbv beta iota. fields. rewrite H.
    rewrite bool_decide_eq_true_2 by reflexivity. cbn [negb].
    cbv beta iota. fields.
    do 2 eexists. split; [reflexivity |]. fields. auto.
Qed.








(** *** Settling a promise *)

Lemma settle_settles p st g :
  exists g', settle p st g = (inr tt, g') /\ settled p st g g'.
Proof.
  unfold settle, emit, mbind, M_bind, mret, M_ret, gets, modify. cbv beta iota.
  destruct (promises g !! p) as [[[| v | e] cb] |] eqn:E;
    try (exists g; split; [reflexivity |];
         constructor; auto; intros; congruence).
  assert (Hbase : settled p st g
            (set_promises (<[p := {| p_state := st; p_nodeback := cb |}]> (promises g)) g)).
  { constructor; fields; auto.
    - intros q Hq. apply lookup_insert_ne. congruence.
    - intros cb' Hcb. rewrite lookup_insert_eq. congruence. }
  destruct (is_function cb); [| eexists; split; [reflexivity | exact Hbase]].
  destruct Hbase as [H1 H2 H3 H4 H5 H6 H7].
  destruct st; (eexists; split; [reflexivity |]); constructor; fields;
    rewrite ?rejections_app, ?resolutions_app, ?sent_envelopes_app;
    cbn [rejections resolutions sent_envelopes flat_map]; rewrite ?app_nil_r;
    auto.
Qed.

(** *** Sending without a transport *)

(** C7, as stated, fails when the transport is there but not open. The
    second call below is made on an open connection; before its executor
    runs, [stop()] and [start()] replace the socket by one that is still
    connecting. The executor finds [this.ws] set, registers the call under
    id 1 and calls [ws.send], which throws: the promise is rejected with
    the error of the socket, not with the transport error, and the entry
    stays in [this.requests]. *)
Lemma dispatch_on_connecting_socket :
  let g := run (new_Golos ws_1 "wss://node")
               [CallSend "database_api" a_call JUndefined; WsOpened 0; Continue 0;
                CallSend "database_api" a_call (JFun 1); CallStop; CallStart] in
  let g' := step g (Continue 0) in
  (ws g = Some 1%nat /\ readyState 1 g = CONNECTING) /\
  (exists t, waiting g = [t] /\ k_id t = 1 /\ k_promise t = 3%nat) /\
  (requests g !! 1 = None /\
   req_reject <$> requests g' !! 1 = Some 3%nat) /\
  (p_state <$> promises g !! 3%nat = Some Pending /\
   p_state <$> promises g' !! 3%nat = Some (Rejected not_opened)) /\
  not_opened <> transport_unavailable.
Proof.
  vm_compute. repeat split; try reflexivity; [eexists; repeat split | discriminate].
Qed.

(** C7, amended. When the executor of a [send] finds no transport
    ([this.ws] is unset), the promise [send] returned is rejected with the
    transport error, nothing is written to a socket, and neither
    [this.requests] nor [this.callbacks] changes. *)
Theorem dispatch_without_transport (g : golos) (t : continuation) (now : Z) :
  ws g = None ->
  exists g',
    dispatch t now g = (inr tt, g') /\
    requests g' = requests g /\
    callbacks g' = callbacks g /\
    sent_envelopes (trace g') = sent_envelopes (trace g) /\
    rejections (trace g') = rejections (trace g) ++ [(k_promise t, transport_unavailable)] /\
    (forall cb,
        promises g !! k_promise t = Some {| p_state := Pending; p_nodeback := cb |} ->
        promises g' !! k_promise t
        = Some {| p_state := Rejected transport_unavailable; p_nodeback := cb |}).
Proof.
  intros Hws. unfold dispatch, reject, emit.
  unfold mbind at 1, M_bind at 1, gets. cbv beta iota. rewrite Hws.
  unfold mbind at 1, M_bind at 1, modify. cbv beta iota.
  fold transport_unavailable.
  destruct (settle_settles (k_promise t) (Rejected transport_unavailable)
              (set_trace (trace g ++ [RejectCall (k_promise t) transport_unavailable]) g))
    as (g' & Hrun & [H1 H2 H3 H4 H5 H6 H7]).
  exists g'. split; [exact Hrun |]. fields.
  rewrite rejections_app, sent_envelopes_app in *. cbn in H3, H5.
  rewrite app_nil_r in H5. auto 10.
Qed.

Lemma dispatch_without_transport_witness :
  let g := run (new_Golos ws_1 "wss://node")
               [CallSend "database_api" a_call (JFun 1); WsOpened 0; CallStop] in
  let t := {| k_startP := 1; k_api := "database_api"; k_data := a_call;
              k_callback := JFun 1; k_id := 0; k_promise := 2 |} in
  ws g = None /\ waiting g = [t] /\
  exists g',
    dispatch t 0 g = (inr tt, g') /\
    requests g' = requests g /\ callbacks g' = callbacks g /\
    promises g' !! 2%nat
    = Some {| p_state := Rejected transport_unavailable; p_nodeback := JFun 1 |}.
Proof.
  intros g t.
  assert (Hws : ws g = None) by reflexivity.
  split; [exact Hws |]. split; [reflexivity |].
  destruct (dispatch_without_transport g t 0 Hws)
    as (g' & Hrun & Hreq & Hcb & _ & _ & Hp).
  exists g'. split; [exact Hrun |]. split; [exact Hreq |]. split; [exact Hcb |].
  apply (Hp (JFun 1)). vm_compute. reflexivity.
Defined.

(** *** Error frames *)

Lemma get_prop_truthy v k : truthy v = true -> exists x, get_prop v k = inr x.
Proof. destruct v; cbn; intros H; try discriminate; eauto. Qed.

(** C3. An inbound frame whose [error] is set (truthy, as every error
    object is) and whose id is that of a pending call rejects that call's
    promise, with an error carrying the whole frame as [payload], and
    deletes the call from [this.requests]. Nothing else is rejected,
    nothing is resolved, the other pending calls, all subscriptions and
    all other promises stay as they were. *)
Theorem error_frame_rejects_its_call (g : golos) (m : frame) (r : request) :
  requests g !! msg_id m = Some r ->
  truthy (msg_error m) = true ->
  exists err g',
    message_listener m g = (inr tt, g') /\
    err_payload err = Some m /\
    rejections (trace g') = rejections (trace g) ++ [(req_reject r, err)] /\
    resolutions (trace g') = resolutions (trace g) /\
    requests g' = delete (msg_id m) (requests g) /\
    callbacks g' = callbacks g /\
    (forall q, q <> req_reject r -> promises g' !! q = promises g !! q) /\
    (forall cb,
        promises g !! req_reject r = Some {| p_state := Pending; p_nodeback := cb |} ->
        promises g' !! req_reject r
        = Some {| p_state := Rejected err; p_nodeback := cb |}).
Proof.
  intros Hreq Herr.
  destruct (get_prop_truthy (msg_error m) "message" Herr) as [x Hx].
  unfold message_listener.
  unfold mbind at 1 2, M_bind at 1 2, gets. cbv beta iota zeta. rewrite Hreq.
  unfold mbind at 1, M_bind at 1, modify. cbv beta iota.
  unfold onMessage. cbv zeta. rewrite Herr.
  unfold mbind at 1, M_bind at 1, lift. rewrite Hx. cbv beta iota.
  cbn [entry_reject]. unfold reject, emit.
  unfold mbind at 1, M_bind at 1, modify. cbv beta iota.
  match goal with
  | |- context [settle _ (Rejected ?e) ?g0] =>
      set (err := e);
      destruct (settle_settles (req_reject r) (Rejected err) g0)
        as (g' & Hrun & [H1 H2 H3 H4 H5 H6 H7])
  end.
  exists err, g'. split; [exact Hrun |]. fields.
  rewrite rejections_app in H3. rewrite resolutions_app in H4.
  cbn in H3, H4. rewrite app_nil_r in H4. auto 10.
Qed.

Lemma error_frame_rejects_its_call_witness :
  let g := run (new_Golos ws_1 "wss://node")
               [CallSend "database_api" a_call JUndefined;
                CallSend "database_api" call_7 JUndefined;
                WsOpened 0; Continue 0; Continue 0] in
  exists err g',
    message_listener error_frame_7 g = (inr tt, g') /\
    err_payload err = Some error_frame_7 /\
    rejections (trace g') = [(3%nat, err)] /\
    dom (requests g) = {[0; 7]} /\
    dom (requests g') = {[0]} /\
    p_state <$> promises g' !! 3%nat = Some (Rejected err) /\
    p_state <$> promises g' !! 2%nat = Some Pending.
Proof.
  intros g.
  destruct (error_frame_rejects_its_call g error_frame_7
              {| req_api := "database_api"; req_data := call_7;
                 req_resolve := 3; req_reject := 3; req_start_time := 0 |})
    as (err & g' & Hrun & Hpay & Hrej & _ & Hreq & _ & Hother & Hp).
  { vm_compute. reflexivity. }
  { reflexivity. }
  exists err, g'. split; [exact Hrun |]. split; [exact Hpay |].
  split; [exact Hrej |]. split; [vm_compute; reflexivity |].
  split; [rewrite Hreq; vm_compute; reflexivity |].
  cbn [req_reject] in *. split.
  - rewrite (Hp JUndefined); [reflexivity | vm_compute; reflexivity].
  - rewrite Hother by discriminate. vm_compute. reflexivity.
Defined.

(** *** The id of a call *)

Lemma send_tail_queues api d cb i g :
  exists q g1,
    send_tail api d cb i g = (inr q, g1) /\
    id g1 = id g /\
    exists t, waiting g1 = waiting g ++ [t] /\ k_id t = i.
Proof.
  destruct (start_returns g) as (p & g0 & Hstart & _ & Hid & Hw).
  unfold send_tail. rewrite (bind_inr _ _ _ _ _ Hstart).
  unfold new_promise, mbind, M_bind, mret, M_ret, gets, modify. cbv beta iota.
  do 2 eexists. split; [reflexivity |]. fields. split; [exact Hid |].
  eexists. split; [rewrite Hw; reflexivity | reflexivity].
Qed.

(** [ws.send] records the call; it returns on an open socket, and
    otherwise returns or throws as the [WebSocket] class has it. *)
Lemma ws_send_run w e g :
  exists r,
    ws_send w e g = (r, set_trace (trace g ++ [WsSend w e]) g) /\
    (readyState w g = OPEN -> r = inr tt) /\
    (forall x, readyState w g <> OPEN ->
       send_throws (WebSocket g) (readyState w g) = Some x ->
       r = inl (Thrown x)).
Proof.
  unfold ws_send, emit, mbind, M_bind, mret, M_ret, gets, modify, throw.
  cbv beta iota.
  change (readyState w (set_trace (trace g ++ [WsSend w e]) g))
    with (readyState w g).
  change (WebSocket (set_trace (trace g ++ [WsSend w e]) g)) with (WebSocket g).
  destruct (readyState w g) eqn:E;
    try (destruct (send_throws (WebSocket g) _) eqn:T);
    (eexists; split; [reflexivity |]); split;
    first [ discriminate | congruence | reflexivity | intros; congruence ].
Qed.

(** With a socket in [this.ws] the executor hands one envelope to
    [ws.send], carrying the id captured by its [send]; it returns when
    the socket is open. *)
Lemma dispatch_writes_id t now g w :
  ws g = Some w ->
  exists r g' e,
    dispatch t now g = (r, g') /\
    trace g' = trace g ++ [WsSend w e] /\ env_id e = k_id t /\
    (readyState w g = OPEN -> r = inr tt).
Proof.
  intros Hws. unfold dispatch.
  unfold mbind at 1, M_bind at 1, gets. cbv beta iota. rewrite Hws.
  cbv zeta. unfold mbind, M_bind, modify.
  destruct (includes cbMethods (method (k_data t))); cbv beta iota;
    match goal with
    | |- context [ws_send w ?e ?g0] =>
        destruct (ws_send_run w e g0) as (r & Hrun & Hopen & _); rewrite Hrun
    end;
    do 3 eexists; (split; [reflexivity |]); fields;
    (split; [reflexivity |]); (split; [reflexivity | exact Hopen]).
Qed.

(** C4, as stated, fails for [data.id = 0]: the second call below passes
    the id 0, yet its envelope carries 1, taken from the counter, which
    has moved to 2. *)
Lemma send_with_id_zero :
  let g := run (new_Golos ws_1 "wss://node")
               [CallSend "database_api" a_call JUndefined;
                CallSend "database_api" call_0 JUndefined;
                WsOpened 0; Continue 0; Continue 0] in
  map env_id (sent_envelopes (trace g)) = [0; 1] /\ id g = 2.
Proof. vm_compute. split; reflexivity. Qed.

(** C4, amended. [send] uses [data.id] when it is present and not 0,
    and then leaves the counter alone; when [data.id] is absent or 0 it
    uses the counter's value and moves the counter by one. The envelope
    handed to [ws.send] for the call carries the id so chosen, whatever
    socket [this.ws] holds by then; on an open socket the write
    returns. *)
Theorem send_resolves_id (g : golos) (api : string) (d : data) (cb : jsval) :
  exists q g1 t,
    send api d cb g = (inr q, g1) /\
    waiting g1 = waiting g ++ [t] /\
    (forall n, data_id d = Some n -> n <> 0 -> k_id t = n /\ id g1 = id g) /\
    (data_id d = None \/ data_id d = Some 0 ->
     k_id t = id g /\ id g1 = id g + 1) /\
    (forall g2 w now, ws g2 = Some w ->
       exists r g3 e,
         dispatch t now g2 = (r, g3) /\
         trace g3 = trace g2 ++ [WsSend w e] /\ env_id e = k_id t /\
         (readyState w g2 = OPEN -> r = inr tt)).
Proof.
  assert (Hres : exists i g0,
             resolve_id d g = (inr i, g0) /\ waiting g0 = waiting g /\
             (forall n, data_id d = Some n -> n <> 0 -> i = n /\ id g0 = id g) /\
             (data_id d = None \/ data_id d = Some 0 ->
              i = id g /\ id g0 = id g + 1)).
  { unfold resolve_id. destruct (data_id d) as [n |] eqn:E.
    - destruct (Z.eqb_spec n 0) as [-> | Hn]; cbn [negb].
      + do 2 eexists. split; [reflexivity |]. fields.
        split; [reflexivity |]. split; [intros n Hn ?; congruence | auto].
      + do 2 eexists. split; [reflexivity |].
        split; [reflexivity |]. split.
        * intros n' Hn' _. split; congruence.
        * intros [H | H]; congruence.
    - do 2 eexists. split; [reflexivity |]. fields.
      split; [reflexivity |]. split; [intros n Hn; discriminate | auto]. }
  destruct Hres as (i & g0 & Hres & Hw0 & Hsome & Hnone).
  destruct (send_tail_queues api d cb i
              (set_trace (trace g0 ++ [SendCalled api d i]) g0))
    as (q & g1 & Hrun & Hid & t & Hw & Ht).
  fields. exists q, g1, t.
  split; [rewrite (send_unfold _ _ _ _ _ _ Hres); exact Hrun |].
  split; [congruence |].
  split; [intros n Hd Hn; destruct (Hsome n Hd Hn); split; congruence |].
  split; [intros Hd; destruct (Hnone Hd); split; congruence |].
  intros g2 w now Hws. apply dispatch_writes_id, Hws.
Qed.

Lemma send_resolves_id_witness :
  let g := run (new_Golos ws_1 "wss://node")
               [CallSend "database_api" a_call JUndefined; WsOpened 0; Continue 0] in
  (exists q g1 t,
      send "database_api" call_7 JUndefined g = (inr q, g1) /\
      waiting g1 = [t] /\ k_id t = 7 /\ id g1 = 1 /\
      exists g3 e,
        dispatch t 0 g1 = (inr tt, g3) /\
        trace g3 = trace g1 ++ [WsSend 0%nat e] /\ env_id e = 7) /\
  (exists q g1 t,
      send "database_api" call_0 JUndefined g = (inr q, g1) /\
      waiting g1 = [t] /\ k_id t = 1 /\ id g1 = 2).
Proof.
  intros g. split.
  - destruct (send_resolves_id g "database_api" call_7 JUndefined)
      as (q & g1 & t & Hrun & Hw & Hsome & _ & Hdisp).
    destruct (Hsome 7 eq_refl) as [Ht Hid]; [discriminate |].
    assert (Hws : ws g1 = Some 0%nat).
    { vm_compute in Hrun. injection Hrun as _ <-. reflexivity. }
    destruct (Hdisp g1 0%nat 0 Hws) as (r & g3 & e & H1 & H2 & H3 & Hopen).
    assert (Hr : r = inr tt).
    { apply Hopen. vm_compute in Hrun. injection Hrun as _ <-. reflexivity. }
    subst r.
    exists q, g1, t. split; [exact Hrun |]. split; [exact Hw |].
    split; [exact Ht |]. split; [rewrite Hid; reflexivity |].
    exists g3, e. split; [exact H1 |]. split; [exact H2 | congruence].
  - destruct (send_resolves_id g "database_api" call_0 JUndefined)
      as (q & g1 & t & Hrun & Hw & _ & Hnone & _).
    destruct (Hnone (or_intror eq_refl)) as [Ht Hid].
    exists q, g1, t. split; [exact Hrun |]. split; [exact Hw |].
    split; [rewrite Ht; reflexivity | rewrite Hid; reflexivity].
Defined.

End ClientFacts.

(** ** The generated methods *)

Module BindingFacts.

Import Client Binding MonadFacts.

Lemma with_this_defaultParms {A} (m : M golos A) (e : env) :
  defaultParms (snd (with_this m e)) = defaultParms e.
Proof. unfold with_this. destruct (m (this e)); reflexivity. Qed.

(** A call writes its arguments into the [defaultParms] object of its
    registry entry, where the next call finds them. *)
Lemma specializedSend_overwrites_defaults (m : entry) (args : list jsval) (e : env) :
  defaultParms (snd (specializedSend m args e))
  = Object_assign (defaultParms e)
      (fill_options (methodParams m) 0 (take (length args - 1) args) ∅).
Proof.
  unfold specializedSend, mbind, M_bind, gets, modify. cbv beta iota zeta.
  rewrite with_this_defaultParms. reflexivity.
Qed.

(** C9. The defaults of one call depend on the arguments of earlier
    calls. Called alone, [getContent("bob", "post", cb)] sends the declared
    default 10000 for [voteLimit]; called after
    [getContent("alice", "note", 5, cb)] it sends 5. *)
Theorem defaults_follow_earlier_calls :
  let e0 := loaded parse_literal get_content (new_Golos ws_1 "wss://node") in
  sent_params
    (trace (this (calls get_content [[JStr "bob"; JStr "post"; JFun 2]] e0)))
  = [[JStr "bob"; JStr "post"; JNum 10000]] /\
  sent_params
    (trace (this (calls get_content
                    [[JStr "alice"; JStr "note"; JNum 5; JFun 1];
                     [JStr "bob"; JStr "post"; JFun 2]] e0)))
  = [[JStr "alice"; JStr "note"; JNum 5]; [JStr "bob"; JStr "post"; JNum 5]].
Proof. vm_compute. split; reflexivity. Qed.

End BindingFacts.

(** * Further properties *)

(** ** The streams: order, schedule, errors, flattening *)

Module StreamBehaviour.

Import Stream MonadFacts StreamFacts.

#[local] Arguments cursor_neq : simpl never.
#[local] Arguments cursor_truthy : simpl never.

(** The first poll of a stream reports the number it observed, whatever
    it is, and makes it the cursor. *)
Theorem first_poll_reports (mode : string) (ts : Z) (r : dgp) :
  let s := run (streamBlockNumber (ModeString mode) user_number_callback ts)
               started [PollResolved r] in
  trace s = [Poll; CallbackOk (JNum (block_number mode r)); Delay ts] /\
  current s = At (block_number mode r) /\
  polls_in_flight s = 0%nat /\ delays_pending s = 1%nat.
Proof.
  intros s. subst s. unfold run, fold_left, step, streamBlockNumber.
  cbn [resolve_args p_mode p_ts on_number].
  change (polls_in_flight started) with 1%nat. cbv beta iota.
  unfold run_handler. rewrite on_result_run.
  change (current (set_polls 0 started)) with Unset.
  change (cursor_neq (At (block_number mode r)) Unset) with true.
  change (cursor_truthy Unset) with false. cbv beta iota.
  cbn. auto.
Qed.

Lemma numbers_reports ks : numbers (reports ks) = ks.
Proof.
  induction ks as [| k ks IH]; [reflexivity |].
  change (numbers (reports (k :: ks))) with (k :: numbers (reports ks)).
  f_equal. exact IH.
Qed.

(** The trace of a poll made with the cursor at a nonzero [c]. *)
Lemma later_poll_trace mode ts r c s :
  current s = At c -> c <> 0 ->
  exists s',
    on_result mode ts user_number_callback r s = (inr tt, s') /\
    trace s' = trace s ++ reports (seqZ (c + 1) (block_number mode r - c - 1))
                       ++ [Delay ts] /\
    current s' = At (Z.max c (block_number mode r - 1)).
Proof.
  intros Hc Hnz. rewrite on_result_run.
  generalize (block_number mode r). intros b. rewrite Hc.
  assert (Ht : cursor_truthy (At c) = true).
  { unfold cursor_truthy. apply negb_true_iff, Z.eqb_neq, Hnz. }
  destruct (Z.eq_dec b c) as [-> | Hne].
  - rewrite cursor_neq_refl. cbn.
    eexists; split; [reflexivity |]. cbn. rewrite seqZ_nil by lia.
    split; [reflexivity |]. rewrite Hc. f_equal. lia.
  - rewrite cursor_neq_At by exact Hne. rewrite Ht.
    destruct (Z_lt_dec c b) as [Hlt | Hge].
    + rewrite (for_loop_iter _ b c s Hlt), Hc.
      rewrite cursor_neq_refl. cbn [mret M_ret].
      destruct (for_loop_reports (Z.to_nat (b - (c + 1))) b (c + 1)
                  (set_current (At c) s)) as (s' & Hrun & Hcur & Htr).
      { reflexivity. }
      { cbn. f_equal. lia. }
      replace (b - (c + 1)) with (b - c - 1) in Htr by lia.
      rewrite Hrun. cbn.
      eexists; split; [reflexivity |]. cbn. rewrite Htr, Hcur. split.
      * cbn. rewrite <- app_assoc. reflexivity.
      * destruct (Z_lt_dec (c + 1) b); cbn; f_equal; lia.
    + rewrite (for_loop_done _ b c s Hge). cbn.
      eexists; split; [reflexivity |]. cbn. rewrite seqZ_nil by lia.
      split; [reflexivity |]. rewrite Hc. f_equal. lia.
Qed.

Lemma first_poll_trace mode ts r s :
  current s = Unset ->
  exists s',
    on_result mode ts user_number_callback r s = (inr tt, s') /\
    trace s' = trace s ++ reports [block_number mode r] ++ [Delay ts] /\
    current s' = At (block_number mode r).
Proof.
  intros Hc. rewrite on_result_run. rewrite Hc.
  change (cursor_neq (At (block_number mode r)) Unset) with true.
  change (cursor_truthy Unset) with false. cbv beta iota.
  cbn. eexists; split; [reflexivity |]. cbn. rewrite <- app_assoc. auto.
Qed.

Lemma sorted_snoc_seq (l : list Z) (c m : Z) :
  StronglySorted Z.lt l -> Forall (fun n => n <= c) l ->
  StronglySorted Z.lt (l ++ seqZ (c + 1) m) /\
  Forall (fun n => n <= Z.max c (c + m)) (l ++ seqZ (c + 1) m).
Proof.
  intros Hs Hf. split.
  - induction Hs as [| x l Hl IH Hx]; cbn.
    + destruct (Z_le_dec m 0); [rewrite seqZ_nil by lia; constructor |].
      replace m with (Z.of_nat (Z.to_nat m)) by lia. apply ClientFacts.seqZ_sorted.
    + inversion Hf; subst. constructor; [apply IH; assumption |].
      apply Forall_app. split; [exact Hx |].
      apply Forall_forall. intros y Hy. apply elem_of_seqZ in Hy. lia.
  - apply Forall_app. split.
    + eapply Forall_impl; [exact Hf |]. cbn. intros; lia.
    + apply Forall_forall. intros y Hy. apply elem_of_seqZ in Hy. lia.
Qed.

Lemma on_result_ordered mode ts r s :
  0 < block_number mode r -> ordered s ->
  exists s',
    on_result mode ts user_number_callback r s = (inr tt, s') /\ ordered s'.
Proof.
  intros Hb Ho. unfold ordered in Ho.
  destruct (current s) as [| c] eqn:Hc.
  - destruct (first_poll_trace mode ts r s Hc) as (s' & Hrun & Htr & Hcur).
    exists s'. split; [exact Hrun |]. unfold ordered. rewrite Hcur, Htr.
    rewrite !numbers_app, Ho, numbers_reports. cbn.
    split; [exact Hb |]. split; repeat constructor. lia.
  - destruct Ho as (Hpos & Hs & Hf).
    destruct (later_poll_trace mode ts r c s Hc) as (s' & Hrun & Htr & Hcur);
      [lia |].
    exists s'. split; [exact Hrun |]. unfold ordered. rewrite Hcur, Htr.
    rewrite !numbers_app, numbers_reports. cbn. rewrite app_nil_r.
    destruct (sorted_snoc_seq _ c (block_number mode r - c - 1) Hs Hf) as [H1 H2].
    split; [lia |]. split; [exact H1 |].
    eapply Forall_impl; [exact H2 |]. cbn. intros; lia.
Qed.

Lemma run_ordered mode ts rs : forall s,
  Forall (fun r => 0 < block_number mode r) rs -> ordered s ->
  ordered (run (streamBlockNumber (ModeString mode) user_number_callback ts)
               s (polls rs)).
Proof.
  induction rs as [| r rs IH]; intros s Hall Ho; [exact Ho |].
  inversion Hall as [| ? ? Hr Hrs]; subst.
  cbn [polls flat_map app run fold_left]. apply IH; [exact Hrs |].
  cbn [step streamBlockNumber resolve_args p_mode p_ts on_number].
  assert (Ho1 : ordered (match polls_in_flight s with
                         | O => s
                         | S k => run_handler
                                    (on_result mode ts user_number_callback r)
                                    (set_polls k s)
                         end)).
  { destruct (polls_in_flight s) as [| k]; [exact Ho |].
    destruct (on_result_ordered mode ts r (set_polls k s) Hr Ho)
      as (s' & Hrun & Ho').
    unfold run_handler. rewrite Hrun. exact Ho'. }
  revert Ho1. generalize (match polls_in_flight s with
                         | O => s
                         | S k => run_handler
                                    (on_result mode ts user_number_callback r)
                                    (set_polls k s)
                         end). intros s1 Ho1.
  destruct (delays_pending s1) as [| k]; [exact Ho1 |].
  unfold run_handler, update, mbind, M_bind, gets. cbn.
  destruct (running s1); cbn; [| exact Ho1].
  unfold ordered in *. cbn. rewrite numbers_app. cbn. rewrite app_nil_r. exact Ho1.
Qed.

Lemma started_ordered : ordered started.
Proof. reflexivity. Qed.

Lemma ordered_sorted s : ordered s -> StronglySorted Z.lt (numbers (trace s)).
Proof.
  unfold ordered. destruct (current s); [intros ->; constructor | tauto].
Qed.

(** While the node reports positive block numbers, the numbers handed to
    the callback of [streamBlockNumber] are strictly increasing: no number
    is reported twice or out of order. *)
Theorem reported_numbers_increase (mode : string) (ts : Z) (rs : list dgp) :
  Forall (fun r => 0 < block_number mode r) rs ->
  StronglySorted Z.lt
    (numbers (trace (run (streamBlockNumber (ModeString mode) user_number_callback ts)
                         started (polls rs)))).
Proof.
  intros Hall. apply ordered_sorted, run_ordered; [exact Hall | apply started_ordered].
Qed.

Lemma reported_numbers_increase_witness :
  StronglySorted Z.lt
    (numbers (trace (run (streamBlockNumber (ModeString "head") user_number_callback 200)
                         started (polls (map head_at [5; 5; 8; 3; 9]))))).
Proof.
  apply (reported_numbers_increase "head" 200 (map head_at [5; 5; 8; 3; 9])).
  repeat constructor.
Defined.

(** While the node reports positive block numbers, [streamBlock] requests
    blocks in strictly increasing order: no block is fetched twice. *)
Theorem fetched_blocks_increase (mode : string) (rs : list dgp) :
  Forall (fun r => 0 < block_number mode r) rs ->
  StronglySorted Z.lt
    (fetched (trace (run (streamBlock (ModeString mode) user_callback)
                         started (polls rs)))).
Proof.
  intros Hall.
  assert (Hstep : in_step
            (run (streamBlockNumber (ModeString mode) user_number_callback default_ts)
                 started (polls rs))
            (run (streamBlock (ModeString mode) user_callback) started (polls rs))).
  { apply run_in_step. constructor; reflexivity. }
  rewrite <- (step_trace _ _ Hstep).
  apply ordered_sorted, run_ordered; [exact Hall | apply started_ordered].
Qed.

Lemma fetched_blocks_increase_witness :
  StronglySorted Z.lt
    (fetched (trace (run (streamBlock (ModeString "irreversible") user_callback)
                         started
                         (polls [{| head_block_number := 9;
                                    last_irreversible_block_num := 4 |};
                                 {| head_block_number := 12;
                                    last_irreversible_block_num := 7 |}])))).
Proof.
  apply (fetched_blocks_increase "irreversible").
  repeat constructor.
Defined.

Lemma later_poll_reports_witness :
  let s := run (streamBlockNumber (ModeString "head") user_number_callback 200)
               started [PollResolved (head_at 5)] in
  current s = At 5 /\
  exists s',
    on_result "head" 200 user_number_callback (head_at 9) s = (inr tt, s') /\
    callback_values (trace s') = [JNum 5; JNum 6; JNum 7; JNum 8] /\
    current s' = At 8.
Proof.
  intros s.
  assert (Hc : current s = At 5) by reflexivity.
  split; [exact Hc |].
  destruct (later_poll_reports "head" 200 (head_at 9) 5 s Hc) as (s' & H1 & H2 & H3);
    [discriminate |].
  exists s'. split; [exact H1 |]. split; [exact H2 | exact H3].
Defined.

(** *** One request at a time *)

Lemma same_schedule_refl s : same_schedule s s.
Proof. split; reflexivity. Qed.

Lemma same_schedule_trans a b c :
  same_schedule a b -> same_schedule b c -> same_schedule a c.
Proof. intros [H1 H2] [H3 H4]. split; congruence. Qed.

Ltac schedule_leaf := intros; unfold same_schedule; cbn; auto.
Ltac schedule := frame_with same_schedule_refl same_schedule_trans schedule_leaf.

Lemma user_callback_schedule a : preserves same_schedule (user_callback a).
Proof. unfold user_callback. schedule. Qed.

Lemma user_number_callback_schedule a :
  preserves same_schedule (user_number_callback a).
Proof. unfold user_number_callback. schedule. Qed.

Lemma streamBlock_cb_schedule cb a :
  (forall x, preserves same_schedule (cb x)) ->
  preserves same_schedule (streamBlock_cb cb a).
Proof. intros Hcb. unfold streamBlock_cb, release, getBlock. schedule; apply Hcb. Qed.

Lemma streamTransactions_cb_schedule cb a :
  (forall x, preserves same_schedule (cb x)) ->
  preserves same_schedule (streamTransactions_cb cb a).
Proof. intros Hcb. unfold streamTransactions_cb, release. schedule; apply Hcb. Qed.

Lemma streamOperations_cb_schedule cb a :
  (forall x, preserves same_schedule (cb x)) ->
  preserves same_schedule (streamOperations_cb cb a).
Proof. intros Hcb. unfold streamOperations_cb, release. schedule; apply Hcb. Qed.

Lemma on_result_schedule mode ts cb r s :
  (forall a, preserves same_schedule (cb a)) ->
  let s' := snd (on_result mode ts cb r s) in
  polls_in_flight s' = polls_in_flight s /\
  (delays_pending s' <= S (delays_pending s))%nat.
Proof.
  intros Hcb. cbn zeta. rewrite on_result_run.
  match goal with
  | |- context [match ?m s with _ => _ end] =>
      assert (Hbody : preserves same_schedule m)
  end.
  { destruct (cursor_neq _ _); [| schedule].
    destruct (cursor_truthy _).
    - destruct (current s) as [| c]; [schedule |].
      eapply for_loop_preserves; try reflexivity.
      + apply same_schedule_refl.
      + apply same_schedule_trans.
      + intros c' s0. split; reflexivity.
      + intros i. apply Hcb.
    - schedule; try apply Hcb. }
  specialize (Hbody s). unfold same_schedule in Hbody.
  match goal with
  | |- context [match ?m s with _ => _ end] => destruct (m s) as [[e | []] s1]
  end; cbn in *; lia.
Qed.

Lemma step_schedule p s e :
  passive p ->
  (polls_in_flight s + delays_pending s <= 1)%nat ->
  (polls_in_flight (step p s e) + delays_pending (step p s e) <= 1)%nat.
Proof.
  intros [Hn Hb] Hs.
  assert (Hrun : forall m s0, preserves same_schedule m ->
                   same_schedule s0 (run_handler m s0)).
  { intros m s0 Hm. unfold run_handler. specialize (Hm s0).
    destruct (m s0) as [[x | []] s1]; cbn in *; [| exact Hm].
    destruct Hm as [H1 H2]. split; cbn; assumption. }
  destruct e; cbn [step].
  - destruct (Hrun release s) as [H1 H2]; [unfold release; schedule |]. lia.
  - destruct (polls_in_flight s) as [| k] eqn:Hp; [lia |].
    pose proof (on_result_schedule (p_mode p) (p_ts p) (on_number p) result
                  (set_polls k s) Hn) as [H1 H2].
    unfold run_handler.
    destruct (on_result _ _ _ _ _) as [[x | []] s1]; cbn in *; lia.
  - destruct (polls_in_flight s) as [| k] eqn:Hp; [lia |].
    destruct (Hrun (on_error (on_number p) err) (set_polls k s)) as [H1 H2];
      [apply Hn |]. cbn in *. lia.
  - destruct (delays_pending s) as [| k] eqn:Hd; [lia |].
    unfold run_handler, update, mbind, M_bind, gets. cbn.
    destruct (running s); cbn; lia.
  - destruct (mem n (fetches_in_flight s)); [| lia].
    destruct (Hrun (on_block p r) (set_fetches (remove_first n (fetches_in_flight s)) s))
      as [H1 H2]; [apply Hb |]. cbn in *. lia.
Qed.

Lemma run_schedule p es : forall s,
  passive p ->
  (polls_in_flight s + delays_pending s <= 1)%nat ->
  (polls_in_flight (run p s es) + delays_pending (run p s es) <= 1)%nat.
Proof.
  induction es as [| e es IH]; intros s Hp Hs; [exact Hs |].
  cbn [run fold_left]. apply IH; [exact Hp |]. apply step_schedule; assumption.
Qed.

(** Each of the four streams has at most one request to the node or one
    delay outstanding at any time, whatever happens and in whatever order:
    polls never overlap. *)
Theorem one_poll_at_a_time (mode : string) (ts : Z) (es : list event) :
  (outstanding (run (streamBlockNumber (ModeString mode) user_number_callback ts)
                    started es) <= 1)%nat /\
  (outstanding (run (streamBlock (ModeString mode) user_callback) started es) <= 1)%nat /\
  (outstanding (run (streamTransactions (ModeString mode) user_callback) started es)
   <= 1)%nat /\
  (outstanding (run (streamOperations (ModeString mode) user_callback) started es)
   <= 1)%nat.
Proof.
  unfold outstanding.
  assert (H0 : (polls_in_flight started + delays_pending started <= 1)%nat)
    by (vm_compute; lia).
  repeat split; apply run_schedule; try exact H0; split; intros a; cbn;
    repeat first [ apply user_callback_schedule
                 | apply user_number_callback_schedule
                 | apply streamBlock_cb_schedule; intros ?
                 | apply streamTransactions_cb_schedule; intros ?
                 | apply streamOperations_cb_schedule; intros ?
                 | apply (preserves_ret _ same_schedule_refl) ].
Qed.

(** *** Errors *)

(** With no poll, delay or block fetch outstanding nothing happens any
    more. *)
Lemma run_idle p es : forall s,
  polls_in_flight s = 0%nat -> delays_pending s = 0%nat ->
  fetches_in_flight s = [] ->
  trace (run p s es) = trace s.
Proof.
  induction es as [| e es IH]; intros s Hp Hd Hf; [reflexivity |].
  cbn [run fold_left].
  assert (Hstep : polls_in_flight (step p s e) = 0%nat /\
                  delays_pending (step p s e) = 0%nat /\
                  fetches_in_flight (step p s e) = [] /\
                  trace (step p s e) = trace s).
  { destruct e; cbn [step]; rewrite ?Hp, ?Hd, ?Hf; cbn; auto. }
  destruct Hstep as (Hp' & Hd' & Hf' & Ht').
  rewrite <- Ht'. apply IH; assumption.
Qed.

(** A failed poll ends [streamBlockNumber]: the error goes to the
    callback, once, and since nothing is rescheduled the stream never polls
    or calls back again. *)
Theorem poll_error_is_terminal (mode : string) (ts : Z) (s : stream)
    (err : js_error) (es : list event) :
  polls_in_flight s = 1%nat -> delays_pending s = 0%nat ->
  fetches_in_flight s = [] ->
  let p := streamBlockNumber (ModeString mode) user_number_callback ts in
  trace (step p s (PollRejected err)) = trace s ++ [CallbackErr err] /\
  trace (run p (step p s (PollRejected err)) es) = trace s ++ [CallbackErr err].
Proof.
  intros Hp Hd Hf p.
  assert (Hstep : step p s (PollRejected err)
                  = emit (CallbackErr err) (set_polls 0 s)).
  { unfold p. cbn [step streamBlockNumber resolve_args on_number]. rewrite Hp.
    reflexivity. }
  rewrite Hstep. split; [reflexivity |].
  rewrite run_idle; [reflexivity | reflexivity | exact Hd | exact Hf].
Qed.

Lemma poll_error_is_terminal_witness :
  let p := streamBlockNumber (ModeString "head") user_number_callback 200 in
  let err := new_Error "timeout" in
  trace (run p (step p started (PollRejected err))
             [DelayElapsed; PollResolved (head_at 5); DelayElapsed])
  = [Poll; CallbackErr err].
Proof.
  intros p err.
  refine (proj2 (poll_error_is_terminal "head" 200 started err _ _ _ _));
    reflexivity.
Defined.

Lemma run_pipeline_stays_cancelled p :
  (forall x, preserves stays_cancelled (on_number p x)) ->
  (forall x, preserves stays_cancelled (on_block p x)) ->
  forall es s, stays_cancelled s (run p s es).
Proof.
  intros Hnum Hblock.
  induction es as [| e es IH]; intros s; [apply stays_cancelled_refl |].
  cbn [run fold_left].
  eapply stays_cancelled_trans; [| apply IH].
  destruct e; cbn [step].
  - apply run_handler_stays_cancelled. unfold release. quiet.
  - destruct (polls_in_flight s) as [| k]; [apply stays_cancelled_refl |].
    eapply stays_cancelled_trans;
      [| apply run_handler_stays_cancelled, on_result_stays_cancelled, Hnum].
    intros H. auto.
  - destruct (polls_in_flight s) as [| k]; [apply stays_cancelled_refl |].
    eapply stays_cancelled_trans; [| apply run_handler_stays_cancelled, Hnum].
    intros H. auto.
  - destruct (delays_pending s) as [| k]; [apply stays_cancelled_refl |].
    eapply stays_cancelled_trans;
      [| apply run_handler_stays_cancelled, update_stays_cancelled].
    intros H. auto.
  - destruct (mem n (fetches_in_flight s)); [| apply stays_cancelled_refl].
    eapply stays_cancelled_trans; [| apply run_handler_stays_cancelled, Hblock].
    intros H. auto.
Qed.

(** In [streamBlock], [streamTransactions] and [streamOperations] a
    failed poll is passed down to the caller's callback, once, and cancels
    the stream: no poll is issued any more. *)
Theorem poll_error_cancels_derived_streams (mode : string) (s : stream)
    (err : js_error) (es : list event) :
  polls_in_flight s <> 0%nat ->
  Forall
    (fun p =>
       let s' := step p s (PollRejected err) in
       trace s' = trace s ++ [CallbackErr err] /\
       running s' = false /\
       poll_count (trace (run p s' es)) = poll_count (trace s'))
    [streamBlock (ModeString mode) user_callback;
     streamTransactions (ModeString mode) user_callback;
     streamOperations (ModeString mode) user_callback].
Proof.
  intros Hp.
  assert (Hu : forall x, preserves stays_cancelled (user_callback x))
    by apply user_callback_stays_cancelled.
  assert (Hops : forall x, preserves stays_cancelled
                   (streamOperations_cb user_callback x)).
  { intros x. apply streamOperations_cb_stays_cancelled, Hu. }
  assert (Htx : forall cb, (forall x, preserves stays_cancelled (cb x)) ->
                  forall x, preserves stays_cancelled (streamTransactions_cb cb x)).
  { intros cb Hcb x. apply streamTransactions_cb_stays_cancelled, Hcb. }
  assert (Hb : forall cb, (forall x, preserves stays_cancelled (cb x)) ->
                 forall x, preserves stays_cancelled (streamBlock_cb cb x)).
  { intros cb Hcb x. apply streamBlock_cb_stays_cancelled, Hcb. }
  repeat constructor;
    try (cbn [step streamOperations streamTransactions streamBlock resolve_args
              on_number];
         destruct (polls_in_flight s) as [| k]; [contradiction | reflexivity]).
  - apply (run_pipeline_stays_cancelled
             (streamBlock (ModeString mode) user_callback)); cbn; auto.
    cbn [step streamBlock resolve_args on_number].
    destruct (polls_in_flight s) as [| k]; [contradiction | reflexivity].
  - apply (run_pipeline_stays_cancelled
             (streamTransactions (ModeString mode) user_callback)); cbn; auto.
    cbn [step streamTransactions streamBlock resolve_args on_number].
    destruct (polls_in_flight s) as [| k]; [contradiction | reflexivity].
  - apply (run_pipeline_stays_cancelled
             (streamOperations (ModeString mode) user_callback)); cbn; auto.
    cbn [step streamOperations streamTransactions streamBlock resolve_args on_number].
    destruct (polls_in_flight s) as [| k]; [contradiction | reflexivity].
Qed.

Lemma poll_error_cancels_derived_streams_witness :
  let p := streamOperations (ModeString "head") user_callback in
  let err := new_Error "timeout" in
  let s' := step p started (PollRejected err) in
  trace s' = [Poll; CallbackErr err] /\ running s' = false /\
  poll_count (trace (run p s' [DelayElapsed; DelayElapsed])) = 1%nat.
Proof.
  intros p err s'.
  assert (H := poll_error_cancels_derived_streams "head" started err
                 [DelayElapsed; DelayElapsed]).
  apply Forall_cons in H; [| discriminate]. destruct H as [_ H].
  apply Forall_cons in H. destruct H as [_ H].
  apply Forall_cons in H. destruct H as [H _]. exact H.
Defined.

(** A failed block fetch reaches the caller's callback once. In
    [streamTransactions] and [streamOperations] it also cancels the stream;
    in [streamBlock] it does not: polling goes on. *)
Theorem fetch_error_forwarded (mode : string) (s : stream) (n : Z) (err : js_error) :
  mem n (fetches_in_flight s) = true ->
  let e := BlockFetched n (inl err) in
  (trace (step (streamBlock (ModeString mode) user_callback) s e)
     = trace s ++ [CallbackErr err] /\
   running (step (streamBlock (ModeString mode) user_callback) s e) = running s) /\
  (trace (step (streamTransactions (ModeString mode) user_callback) s e)
     = trace s ++ [CallbackErr err] /\
   running (step (streamTransactions (ModeString mode) user_callback) s e) = false) /\
  (trace (step (streamOperations (ModeString mode) user_callback) s e)
     = trace s ++ [CallbackErr err] /\
   running (step (streamOperations (ModeString mode) user_callback) s e) = false).
Proof.
  intros Hm e. subst e.
  cbn [step streamOperations streamTransactions streamBlock resolve_args on_block].
  rewrite Hm. repeat split; reflexivity.
Qed.

Lemma fetch_error_forwarded_witness :
  let s := run (streamBlock (ModeString "head") user_callback) started
               [PollResolved (head_at 5)] in
  let err := new_Error "unknown block" in
  mem 5 (fetches_in_flight s) = true /\
  running (step (streamBlock (ModeString "head") user_callback) s
                (BlockFetched 5 (inl err))) = true /\
  running (step (streamOperations (ModeString "head") user_callback) s
                (BlockFetched 5 (inl err))) = false.
Proof.
  intros s err.
  assert (Hm : mem 5 (fetches_in_flight s) = true) by reflexivity.
  destruct (fetch_error_forwarded "head" s 5 err Hm) as ((_ & H1) & _ & (_ & H3)).
  split; [exact Hm |]. split; [rewrite H1; reflexivity | exact H3].
Defined.

(** *** Flattening *)

Lemma for_each_user_callback_trace txs : forall s,
  exists s',
    for_each (fun tx => user_callback (inr tx)) txs s = (inr tt, s') /\
    trace s' = trace s ++ map CallbackOk txs /\
    running s' = running s.
Proof.
  induction txs as [| tx txs IH]; intros s.
  - exists s. cbn. rewrite app_nil_r. auto.
  - cbn [for_each]. unfold mbind, M_bind. cbn.
    destruct (IH (emit (CallbackOk tx) s)) as (s' & Hrun & Htr & Hr).
    exists s'. split; [exact Hrun |]. rewrite Htr. cbn.
    rewrite <- app_assoc. auto.
Qed.

(** [streamTransactions] hands the transactions of a fetched block to the
    callback one by one, in the block's order; a block with an empty list
    gives no call. *)
Theorem streamTransactions_flattens (mode : string) (s : stream) (n : Z)
    (fields : list (string * jsval)) (txs : list jsval) :
  mem n (fetches_in_flight s) = true ->
  assoc "transactions" fields = JArr txs ->
  trace (step (streamTransactions (ModeString mode) user_callback) s
              (BlockFetched n (inr (JObj fields))))
  = trace s ++ map CallbackOk txs.
Proof.
  intros Hm Htx.
  cbn [step streamTransactions streamBlock resolve_args on_block]. rewrite Hm.
  unfold run_handler, streamTransactions_cb.
  cbn [truthy get_prop]. unfold mbind at 1, M_bind at 1, lift. rewrite Htx.
  cbn [truthy js_forEach].
  destruct (for_each_user_callback_trace txs
              (set_fetches (remove_first n (fetches_in_flight s)) s))
    as (s' & Hrun & Htr & _).
  rewrite Hrun. exact Htr.
Qed.

Lemma streamTransactions_flattens_witness :
  let p := streamTransactions (ModeString "head") user_callback in
  let s := run p started [PollResolved (head_at 5)] in
  trace (step p s (BlockFetched 5 (inr (JObj [("transactions"%string,
                                               JArr [JStr "t1"; JStr "t2"])]))))
  = trace s ++ [CallbackOk (JStr "t1"); CallbackOk (JStr "t2")].
Proof.
  intros p s.
  apply (streamTransactions_flattens "head" s 5 _ [JStr "t1"; JStr "t2"]);
    reflexivity.
Defined.

Lemma streamOperations_cb_trace tx ops s :
  operations_of tx ops ->
  exists s',
    streamOperations_cb user_callback (inr tx) s = (inr tt, s') /\
    trace s' = trace s ++ map CallbackOk ops.
Proof.
  intros Hops. unfold streamOperations_cb, mbind, M_bind, lift.
  rewrite Hops. cbn [js_forEach].
  destruct (for_each_user_callback_trace ops s) as (s' & Hrun & Htr & _).
  exists s'. auto.
Qed.

Lemma streamOperations_cb_throws tx s :
  ~ has_operations tx ->
  exists e, streamOperations_cb user_callback (inr tx) s = (inl e, s).
Proof.
  intros Hno. unfold streamOperations_cb, mbind, M_bind, lift.
  destruct (get_prop tx "operations") as [e | v] eqn:E; [eauto |].
  destruct v; cbn; eauto.
  exfalso. apply Hno. exists items. exact E.
Qed.

Lemma for_each_operations_trace txs : forall opss s,
  Forall2 operations_of txs opss ->
  exists s',
    for_each (fun tx => streamOperations_cb user_callback (inr tx)) txs s
    = (inr tt, s') /\
    trace s' = trace s ++ map CallbackOk (concat opss).
Proof.
  induction txs as [| tx txs IH]; intros opss s Hall;
    inversion Hall as [| ? ops ? opss' Hops Hrest]; subst.
  - exists s. cbn. rewrite app_nil_r. auto.
  - destruct (streamOperations_cb_trace tx ops s Hops) as (s1 & H1 & Ht1).
    destruct (IH opss' s1 Hrest) as (s' & Hrun & Htr).
    exists s'. cbn [for_each]. unfold mbind, M_bind. rewrite H1. split; [exact Hrun |].
    rewrite Htr, Ht1. cbn [concat]. rewrite map_app, app_assoc. reflexivity.
Qed.

Lemma for_each_app {S} (f : jsval -> M S unit) l1 l2 s :
  for_each f (l1 ++ l2) s =
  match for_each f l1 s with
  | (inl e, s') => (inl e, s')
  | (inr _, s') => for_each f l2 s'
  end.
Proof.
  revert s. induction l1 as [| x l1 IH]; intros s; [reflexivity |].
  cbn [app for_each]. unfold mbind, M_bind.
  destruct (f x s) as [[e | []] s1]; [reflexivity | apply IH].
Qed.

Lemma streamOperations_on_block mode s n fields txs :
  mem n (fetches_in_flight s) = true ->
  assoc "transactions" fields = JArr txs ->
  step (streamOperations (ModeString mode) user_callback) s
       (BlockFetched n (inr (JObj fields)))
  = run_handler
      (for_each (fun tx => streamOperations_cb user_callback (inr tx)) txs)
      (set_fetches (remove_first n (fetches_in_flight s)) s).
Proof.
  intros Hm Htx.
  cbn [step streamOperations streamTransactions streamBlock resolve_args on_block].
  rewrite Hm. unfold run_handler, streamTransactions_cb.
  cbn [truthy get_prop]. unfold mbind at 1, M_bind at 1, lift. rewrite Htx.
  reflexivity.
Qed.

(** [streamOperations] hands the operations of a fetched block to the
    callback one by one, transaction after transaction, each transaction's
    operations in their own order. *)
Theorem streamOperations_flattens (mode : string) (s : stream) (n : Z)
    (fields : list (string * jsval)) (txs : list jsval) (opss : list (list jsval)) :
  mem n (fetches_in_flight s) = true ->
  assoc "transactions" fields = JArr txs ->
  Forall2 operations_of txs opss ->
  trace (step (streamOperations (ModeString mode) user_callback) s
              (BlockFetched n (inr (JObj fields))))
  = trace s ++ map CallbackOk (concat opss).
Proof.
  intros Hm Htx Hall. rewrite (streamOperations_on_block mode s n fields txs Hm Htx).
  destruct (for_each_operations_trace txs opss
              (set_fetches (remove_first n (fetches_in_flight s)) s) Hall)
    as (s' & Hrun & Htr).
  unfold run_handler. rewrite Hrun. exact Htr.
Qed.

Lemma streamOperations_flattens_witness :
  let p := streamOperations (ModeString "head") user_callback in
  let s := run p started [PollResolved (head_at 5)] in
  trace (step p s (BlockFetched 5 (inr two_transactions)))
  = trace s ++ [CallbackOk (JStr "vote"); CallbackOk (JStr "comment");
                CallbackOk (JStr "transfer")].
Proof.
  intros p s.
  apply (streamOperations_flattens "head" s 5
           [("transactions"%string,
             JArr [JObj [("operations"%string, JArr [JStr "vote"; JStr "comment"])];
                   JObj [("operations"%string, JArr [JStr "transfer"])]])]
           [JObj [("operations"%string, JArr [JStr "vote"; JStr "comment"])];
            JObj [("operations"%string, JArr [JStr "transfer"])]]
           [[JStr "vote"; JStr "comment"]; [JStr "transfer"]]).
  - reflexivity.
  - reflexivity.
  - repeat constructor.
Defined.

(** A transaction without an operations list stops the delivery of its
    block: the operations of the transactions before it have reached the
    callback, an exception leaves the handler, and the transactions after
    it are never looked at. *)
Theorem transaction_without_operations_aborts_block (mode : string) (s : stream)
    (n : Z) (fields : list (string * jsval)) (good : list jsval)
    (opss : list (list jsval)) (bad : jsval) (rest : list jsval) :
  mem n (fetches_in_flight s) = true ->
  assoc "transactions" fields = JArr (good ++ bad :: rest) ->
  Forall2 operations_of good opss ->
  ~ has_operations bad ->
  exists e,
    trace (step (streamOperations (ModeString mode) user_callback) s
                (BlockFetched n (inr (JObj fields))))
    = trace s ++ map CallbackOk (concat opss) ++ [Uncaught e].
Proof.
  intros Hm Htx Hall Hbad.
  rewrite (streamOperations_on_block mode s n fields _ Hm Htx).
  destruct (for_each_operations_trace good opss
              (set_fetches (remove_first n (fetches_in_flight s)) s) Hall)
    as (s1 & Hrun & Htr).
  destruct (streamOperations_cb_throws bad s1 Hbad) as [e He].
  exists e. unfold run_handler. rewrite for_each_app, Hrun.
  cbn [for_each]. unfold mbind, M_bind. rewrite He. cbn.
  rewrite Htr, <- app_assoc. reflexivity.
Qed.

Lemma transaction_without_operations_aborts_block_witness :
  let p := streamOperations (ModeString "head") user_callback in
  let s := run p started [PollResolved (head_at 5)] in
  exists e,
    trace (step p s (BlockFetched 5 (inr a_broken_block)))
    = trace s ++ [CallbackOk (JStr "vote"); Uncaught e].
Proof.
  intros p s.
  destruct (transaction_without_operations_aborts_block "head" s 5
              [("transactions"%string,
                JArr [JObj [("operations"%string, JArr [JStr "vote"])];
                      JObj [("ref_block_num"%string, JNum 1)];
                      JObj [("operations"%string, JArr [JStr "transfer"])]])]
              [JObj [("operations"%string, JArr [JStr "vote"])]]
              [[JStr "vote"]]
              (JObj [("ref_block_num"%string, JNum 1)])
              [JObj [("operations"%string, JArr [JStr "transfer"])]])
    as [e He].
  - reflexivity.
  - reflexivity.
  - repeat constructor.
  - intros [ops Hops]. discriminate Hops.
  - exists e. exact He.
Defined.

End StreamBehaviour.

(** ** The client: connection life cycle, frames, subscriptions *)

Module ClientBehaviour.

Import Client MonadFacts ClientFacts.

Lemma set_listeners_id g : set_listeners (listeners g) g = g.
Proof. destruct g; reflexivity. Qed.

Lemma filter_all {A} (l : list A) : List.filter (fun _ => true) l = l.
Proof. induction l as [| x l IH]; cbn; [reflexivity | now rewrite IH]. Qed.

Lemma filter_twice {A} (P Q : A -> bool) (l : list A) :
  List.filter Q (List.filter P l) = List.filter (fun x => P x && Q x) l.
Proof.
  induction l as [| x l IH]; cbn; [reflexivity |].
  destruct (P x); cbn; [destruct (Q x); cbn; now rewrite IH | exact IH].
Qed.

Lemma release_all_run rs : forall g,
  release_all rs g
  = (inr tt,
     set_listeners
       (List.filter (not_released (removes_through (WebSocket g)) rs)
                    (listeners g)) g).
Proof.
  induction rs as [| r rs IH]; intros g.
  - cbn. unfold not_released. cbn. rewrite filter_all, set_listeners_id. reflexivity.
  - cbn [release_all]. unfold release, mbind, M_bind, gets, modify.
    cbv beta iota. rewrite IH. fields. rewrite filter_twice.
    destruct g; reflexivity.
Qed.

Lemma ws_close_run w g : ws_close w g = (inr tt, closing w g).
Proof.
  unfold ws_close, closing, emit, mbind, M_bind, mret, M_ret, gets, modify.
  cbv beta iota zeta.
  change (readyState w (set_trace (trace g ++ [WsClose w]) g))
    with (readyState w g).
  destruct (readyState w g); reflexivity.
Qed.

Lemma closing_frame w g :
  closing w g
  = set_sockets (sockets (closing w g)) (set_trace (trace g ++ [WsClose w]) g).
Proof.
  unfold closing. cbv zeta. destruct (readyState w g), g; reflexivity.
Qed.

Lemma stop_run g : stop g = (inr tt, stopped g).
Proof.
  unfold stop, stopped.
  unfold mbind at 1 2, M_bind at 1 2, gets. cbv beta iota.
  destruct (ws g) as [w |].
  - rewrite ws_close_run. rewrite (closing_frame w g).
    unfold mbind, M_bind, mret, M_ret, gets, modify. cbv beta iota. fields.
    rewrite release_all_run. reflexivity.
  - unfold mbind, M_bind, mret, M_ret, gets, modify. cbv beta iota. fields.
    rewrite release_all_run. reflexivity.
Qed.

Lemma step_stop g : step g CallStop = stopped g.
Proof. unfold step. cbn [handler]. rewrite stop_run. reflexivity. Qed.

(** [stop()] forgets the connection: the socket, if there is one, is
    closed, [this.startP], [this.ws] and the disposers are gone. It settles
    nothing: the pending calls, the subscriptions, the queued calls and all
    promises are as before, none resolved, none rejected. *)
Theorem stop_settles_nothing (g : golos) :
  let g' := step g CallStop in
  (startP g' = None /\ ws g' = None /\ releases g' = []) /\
  trace g' = trace g ++ match ws g with Some w => [WsClose w] | None => [] end /\
  (requests g' = requests g /\ callbacks g' = callbacks g /\
   waiting g' = waiting g /\ promises g' = promises g /\ id g' = id g).
Proof.
  cbn zeta. rewrite step_stop. unfold stopped.
  destruct (ws g) as [w |]; [rewrite (closing_frame w g) |]; fields;
    rewrite ?app_nil_r; auto 10.
Qed.

(** A second [stop()] changes nothing; in particular it closes no
    socket. *)
Theorem stop_twice (g : golos) :
  step (step g CallStop) CallStop = step g CallStop.
Proof.
  rewrite !step_stop. unfold stopped at 1. 
  assert (Hws : ws (stopped g) = None) by (unfold stopped; reflexivity).
  assert (Hrel : releases (stopped g) = []) by (unfold stopped; reflexivity).
  rewrite Hws, Hrel. unfold not_released. cbn [forallb]. rewrite filter_all.
  unfold stopped. destruct (ws g) as [w |]; [rewrite (closing_frame w g) |];
    destruct g; reflexivity.
Qed.

(** *** Listeners *)

Lemma start_run g :
  startP g = None -> start g = (inr (next_promise g), connecting g).
Proof.
  intros H.
  unfold start, start_executor, new_promise, new_WebSocket, listenTo, emit,
    mbind, M_bind, mret, M_ret, gets, modify. cbv beta iota. rewrite H.
  cbv beta iota. fields. rewrite H.
  rewrite bool_decide_eq_true_2 by reflexivity. cbn [negb].
  cbv beta iota. fields. unfold connecting, listeners_of.
  destruct g; cbn; rewrite <- ?app_assoc; reflexivity.
Qed.

Lemma keeps_disposable_refl g : keeps_disposable g g.
Proof. split; [reflexivity | auto]. Qed.

Lemma keeps_disposable_trans a b c :
  keeps_disposable a b -> keeps_disposable b c -> keeps_disposable a c.
Proof. intros [H1 H2] [H3 H4]. split; [congruence | auto]. Qed.

Lemma listener_eqb_refl l : listener_eqb l l = true.
Proof.
  unfold listener_eqb. rewrite !Nat.eqb_refl. destruct (l_event l); reflexivity.
Qed.

Lemma registry_eqb_eq a b : registry_eqb a b = true <-> a = b.
Proof. destruct a, b; cbn; split; congruence. Qed.

Lemma same_interface impl :
  removes_through impl = adds_through impl <->
  has_removeEventListener impl = has_addEventListener impl.
Proof.
  unfold removes_through, adds_through.
  destruct (has_removeEventListener impl), (has_addEventListener impl);
    split; congruence.
Qed.

Lemma not_released_In via rs r :
  via = fst r -> In (snd r) rs -> not_released via rs r = false.
Proof.
  intros Hvia. unfold not_released.
  induction rs as [| d rs IH]; cbn [In forallb]; [contradiction |].
  intros [-> | H].
  - rewrite listener_eqb_refl. rewrite (proj2 (registry_eqb_eq _ _) Hvia).
    reflexivity.
  - rewrite IH by exact H. apply andb_false_r.
Qed.

Lemma not_released_other_interface via rs r :
  via <> fst r -> not_released via rs r = true.
Proof.
  intros Hvia. unfold not_released. apply forallb_forall. intros d _.
  destruct (registry_eqb via (fst r)) eqn:E; [| reflexivity].
  apply registry_eqb_eq in E. contradiction.
Qed.

Lemma filter_none {A} (P : A -> bool) (l : list A) :
  (forall x, In x l -> P x = false) -> List.filter P l = [].
Proof.
  induction l as [| x l IH]; intros H; [reflexivity |]. cbn.
  rewrite (H x) by (left; reflexivity). apply IH. intros y Hy. apply H. right. exact Hy.
Qed.

Lemma filter_every {A} (P : A -> bool) (l : list A) :
  (forall x, In x l -> P x = true) -> List.filter P l = l.
Proof.
  induction l as [| x l IH]; intros H; [reflexivity |]. cbn.
  rewrite (H x) by (left; reflexivity). f_equal. apply IH.
  intros y Hy. apply H. right. exact Hy.
Qed.

Lemma stopped_listeners g :
  listeners (stopped g)
  = List.filter (not_released (removes_through (WebSocket g)) (releases g))
                (listeners g).
Proof. unfold stopped. reflexivity. Qed.

Lemma stopped_WebSocket g : WebSocket (stopped g) = WebSocket g.
Proof.
  unfold stopped. destruct (ws g) as [w |]; [rewrite (closing_frame w g) |];
    reflexivity.
Qed.

(** What [stop()] does to the listeners, by the interface the disposers
    remove through. *)
Lemma stopped_removes g :
  disposable g ->
  (removes_through (WebSocket g) = adds_through (WebSocket g) ->
   listeners (stopped g) = []) /\
  (removes_through (WebSocket g) <> adds_through (WebSocket g) ->
   listeners (stopped g) = listeners g).
Proof.
  intros H. rewrite stopped_listeners. split; intros Hvia.
  - apply filter_none. intros r Hr. destruct (H r Hr) as [Hfst Hin].
    apply not_released_In; [congruence | auto].
  - apply filter_every. intros r Hr. destruct (H r Hr) as [Hfst _].
    apply not_released_other_interface. congruence.
Qed.

Ltac disposable_leaf :=
  socket_cases; (split; [reflexivity |]);
  intros ?; unfold disposable in *; fields; auto.

Ltac dispose :=
  frame_with keeps_disposable_refl keeps_disposable_trans disposable_leaf.

Lemma stop_keeps_disposable : preserves keeps_disposable stop.
Proof.
  intros g. rewrite stop_run. cbn [snd].
  split; [apply stopped_WebSocket |].
  intros H r Hr. rewrite stopped_WebSocket.
  destruct (stopped_removes g H) as [Hsame Hother].
  destruct (registry_eqb (removes_through (WebSocket g))
                         (adds_through (WebSocket g))) eqn:E.
  - apply registry_eqb_eq in E. rewrite (Hsame E) in Hr. contradiction.
  - assert (Hne : removes_through (WebSocket g) <> adds_through (WebSocket g)).
    { intros Heq. apply registry_eqb_eq in Heq. congruence. }
    rewrite (Hother Hne) in Hr. split; [apply H, Hr | contradiction].
Qed.

Lemma start_keeps_disposable : preserves keeps_disposable start.
Proof.
  intros g. destruct (startP g) as [p |] eqn:E.
  - rewrite (start_again g p E). apply keeps_disposable_refl.
  - rewrite (start_run g E). cbn [snd]. unfold connecting. cbv zeta.
    split; [reflexivity |]. intros H r. fields.
    rewrite in_app_iff, in_map_iff. intros [Hr | (l & <- & Hl)].
    + destruct (H r Hr) as [H1 H2]. split; [exact H1 |].
      intros Hvia. apply in_app_iff. left. auto.
    + split; [reflexivity |]. intros _. apply in_app_iff. right. exact Hl.
Qed.

Lemma release_keeps_disposable l : preserves keeps_disposable (release l).
Proof.
  unfold release. apply (preserves_bind _ keeps_disposable_trans); [dispose |].
  intros impl. apply preserves_modify. intros g. split; [reflexivity |].
  intros H r. fields. intros Hin. apply filter_In in Hin. apply H, Hin.
Qed.

Lemma for_listeners_keeps_disposable h ls :
  (forall l, preserves keeps_disposable (h l)) ->
  preserves keeps_disposable (for_listeners h ls).
Proof.
  intros Hh. induction ls as [| l ls IH]; cbn [for_listeners].
  - apply (preserves_ret _ keeps_disposable_refl).
  - apply (preserves_bind _ keeps_disposable_trans); [apply Hh | intros _; exact IH].
Qed.

Lemma handler_keeps_disposable e : preserves keeps_disposable (handler e).
Proof.
  destruct e; cbn [handler].
  - apply (preserves_bind _ keeps_disposable_trans);
      [apply start_keeps_disposable | intros ?; dispose].
  - apply stop_keeps_disposable.
  - unfold setWebSocket. apply (preserves_bind _ keeps_disposable_trans);
      [dispose | intros _; apply stop_keeps_disposable].
  - apply (preserves_bind _ keeps_disposable_trans); [| intros ?; dispose].
    unfold send. apply (preserves_bind _ keeps_disposable_trans);
      [unfold resolve_id; dispose |].
    intros i. apply (preserves_bind _ keeps_disposable_trans); [dispose |].
    intros _. apply (preserves_bind _ keeps_disposable_trans);
      [apply start_keeps_disposable | intros p; dispose].
  - apply (preserves_bind _ keeps_disposable_trans); [dispose |].
    intros _. apply (preserves_bind _ keeps_disposable_trans); [dispose |].
    intros ls. apply for_listeners_keeps_disposable. intros l.
    unfold open_listener.
    apply (preserves_bind _ keeps_disposable_trans); [dispose |].
    intros _. apply (preserves_bind _ keeps_disposable_trans);
      [apply release_keeps_disposable |].
    intros _. unfold resolve. dispose.
  - apply (preserves_bind _ keeps_disposable_trans); [dispose |].
    intros _. apply (preserves_bind _ keeps_disposable_trans); [dispose |].
    intros ls. apply for_listeners_keeps_disposable. intros l.
    unfold close_listener.
    apply (preserves_bind _ keeps_disposable_trans); [dispose |].
    intros _. apply (preserves_bind _ keeps_disposable_trans); [dispose |].
    intros _. apply (preserves_bind _ keeps_disposable_trans);
      [apply stop_keeps_disposable |].
    intros _. unfold isPending, reject. dispose.
  - apply (preserves_bind _ keeps_disposable_trans); [dispose |].
    intros ls. apply for_listeners_keeps_disposable. intros l.
    unfold message_listener. dispose.
    unfold onMessage. dispose.
  - unfold continue. dispose.
Qed.

Lemma run_keeps_disposable es : forall g, keeps_disposable g (run g es).
Proof.
  induction es as [| e es IH]; intros g; [apply keeps_disposable_refl |].
  cbn [run fold_left].
  eapply keeps_disposable_trans; [| apply IH].
  apply (step_frame keeps_disposable e g);
    [| apply keeps_disposable_trans | apply handler_keeps_disposable].
  disposable_leaf.
Qed.

Lemma new_Golos_disposable impl url : disposable (new_Golos impl url).
Proof. intros r Hr. contradiction. Qed.

(** [stop()] calls every disposer, and what that does depends on the
    socket. Where the socket has [removeEventListener] exactly when it has
    [addEventListener] (a browser's socket, or a plain emitter), no
    listener of the client is registered after [stop()], whatever happened
    before. Where it has one without the other (as the socket of [ws] 1.x,
    which has [addEventListener] only), the disposers remove nothing:
    every listener is still registered after [stop()]. *)
Theorem stop_removes_every_listener (impl : implementation) (url : string)
    (es : list event) :
  let g := run (new_Golos impl url) es in
  (has_removeEventListener impl = has_addEventListener impl ->
   listeners (step g CallStop) = []) /\
  (has_removeEventListener impl <> has_addEventListener impl ->
   listeners (step g CallStop) = listeners g).
Proof.
  intros g. rewrite step_stop.
  destruct (run_keeps_disposable es (new_Golos impl url)) as [Hclass Hinv].
  fold g in Hclass, Hinv. cbn [WebSocket new_Golos] in Hclass.
  destruct (stopped_removes g (Hinv (new_Golos_disposable impl url)))
    as [Hsame Hother].
  rewrite Hclass in Hsame, Hother.
  split; intros H; [apply Hsame | apply Hother]; rewrite same_interface; exact H.
Qed.

Lemma stop_removes_every_listener_witness :
  let es := [CallSend "database_api" a_call JUndefined; WsOpened 0] in
  listeners (step (run (new_Golos browser_WebSocket "wss://node") es) CallStop)
  = [] /\
  length (listeners (step (run (new_Golos ws_1 "wss://node") es) CallStop))
  = 3%nat.
Proof.
  intros es. split.
  - apply (stop_removes_every_listener browser_WebSocket "wss://node" es).
    reflexivity.
  - rewrite (proj2 (stop_removes_every_listener ws_1 "wss://node" es));
      [reflexivity | discriminate].
Defined.

Lemma set_trace_id g : set_trace (trace g) g = g.
Proof. destruct g; reflexivity. Qed.

Lemma set_promises_id g : set_promises (promises g) g = g.
Proof. destruct g; reflexivity. Qed.

Lemma promises_only_refl g : promises_only g g.
Proof. unfold promises_only. rewrite set_promises_id, set_trace_id. reflexivity. Qed.

Lemma settle_pending p st cb g :
  promises g !! p = Some {| p_state := Pending; p_nodeback := cb |} ->
  exists g',
    settle p st g = (inr tt, g') /\ promises_only g g' /\
    promises g' = <[p := {| p_state := st; p_nodeback := cb |}]> (promises g) /\
    trace g' = trace g ++ nodeback_call cb st.
Proof.
  intros H. unfold settle, emit, nodeback_call, mbind, M_bind, mret, M_ret, gets, modify.
  cbv beta iota. rewrite H.
  destruct (is_function cb); [destruct st |];
    (eexists; split; [reflexivity |]); unfold promises_only; fields;
    rewrite ?app_nil_r; auto.
Qed.

Lemma settle_settled p st g :
  (forall cb, promises g !! p <> Some {| p_state := Pending; p_nodeback := cb |}) ->
  settle p st g = (inr tt, g).
Proof.
  intros H. unfold settle, mbind, M_bind, gets. cbv beta iota.
  destruct (promises g !! p) as [[[| v | e] cb] |] eqn:E; try reflexivity.
  exfalso. apply (H cb). reflexivity.
Qed.

(** When the socket closes, the client forgets the connection without
    calling [ws.close()], and settles at most the connection promise: it
    is rejected if it was still pending. The calls that were sent and not
    yet answered stay in [this.requests], their promises unsettled. *)
Theorem close_settles_only_the_connection (g : golos) (p : nat) :
  exists g',
    close_listener p g = (inr tt, g') /\
    isOpen g' = false /\ ws g' = None /\ startP g' = None /\
    releases g' = [] /\
    requests g' = requests g /\ callbacks g' = callbacks g /\
    waiting g' = waiting g /\
    (forall cb,
        promises g !! p = Some {| p_state := Pending; p_nodeback := cb |} ->
        promises g'
        = <[p := {| p_state := Rejected closed_early; p_nodeback := cb |}]> (promises g) /\
        trace g'
        = trace g ++ RejectCall p closed_early :: nodeback_call cb (Rejected closed_early)) /\
    ((forall cb, promises g !! p <> Some {| p_state := Pending; p_nodeback := cb |}) ->
     promises g' = promises g /\ trace g' = trace g).
Proof.
  unfold close_listener.
  unfold mbind at 1 2, M_bind at 1 2, modify. cbv beta iota.
  set (g0 := set_ws None (set_isOpen false g)).
  unfold mbind at 1, M_bind at 1. rewrite (stop_run g0). cbv beta iota.
  assert (Hs : stopped g0
               = set_releases []
                   (set_listeners
                      (List.filter
                         (not_released (removes_through (WebSocket g)) (releases g))
                         (listeners g))
                      (set_ws None (set_startP None g0)))) by reflexivity.
  rewrite Hs. clear Hs.
  set (g1 := set_releases [] _).
  unfold isPending, mbind, M_bind, mret, M_ret, gets. cbv beta iota.
  change (promises g1) with (promises g).
  destruct (promises g !! p) as [[[| v | e] cb] |] eqn:E.
  - unfold reject, emit, mbind, M_bind, modify. cbv beta iota.
    fold closed_early.
    destruct (settle_pending p (Rejected closed_early) cb
                (set_trace (trace g1 ++ [RejectCall p closed_early]) g1))
      as (g' & Hrun & Honly & Hp & Htr); [exact E |].
    exists g'. split; [exact Hrun |]. rewrite Honly. fields.
    repeat (split; [reflexivity |]). split.
    + intros cb' Hcb. assert (cb' = cb) as -> by congruence.
      rewrite Hp, Htr. fields. rewrite <- app_assoc. split; reflexivity.
    + intros Hno. exfalso. apply (Hno cb). reflexivity.
  - exists g1. split; [reflexivity |]. repeat (split; [reflexivity |]).
    split; [intros cb' Hcb; discriminate | intros _; split; reflexivity].
  - exists g1. split; [reflexivity |]. repeat (split; [reflexivity |]).
    split; [intros cb' Hcb; discriminate | intros _; split; reflexivity].
  - exists g1. split; [reflexivity |]. repeat (split; [reflexivity |]).
    split; [intros cb' Hcb; discriminate | intros _; split; reflexivity].
Qed.

(** A [send] chained on a connection promise that was rejected is
    rejected with the same error: its continuation does not run, so no
    entry is registered and nothing is written, and the callback passed to
    [send] receives the error. *)
Theorem failed_connection_fails_send (g : golos) (t : continuation)
    (rest : list continuation) (e : js_error) (nb cb : jsval) (now : Z) :
  waiting g = t :: rest ->
  promises g !! k_startP t = Some {| p_state := Rejected e; p_nodeback := nb |} ->
  promises g !! k_promise t = Some {| p_state := Pending; p_nodeback := cb |} ->
  exists g',
    continue now g = (inr tt, g') /\
    waiting g' = rest /\
    requests g' = requests g /\ callbacks g' = callbacks g /\
    promises g'
    = <[k_promise t := {| p_state := Rejected e; p_nodeback := cb |}]> (promises g) /\
    trace g' = trace g ++ nodeback_call cb (Rejected e).
Proof.
  intros Hw Hs Hp. unfold continue.
  unfold mbind at 1 2, M_bind at 1 2, gets. cbv beta iota.
  rewrite Hw. cbn [next_ready]. rewrite Hs. cbv beta iota.
  unfold mbind, M_bind, modify. cbv beta iota.
  destruct (settle_pending (k_promise t) (Rejected e) cb (set_waiting rest g))
    as (g' & Hrun & Honly & Hps & Htr); [exact Hp |].
  exists g'. split; [exact Hrun |]. rewrite Honly. fields.
  repeat (split; [reflexivity |]). split; [exact Hps | exact Htr].
Qed.

Lemma failed_connection_fails_send_witness :
  let g := run (new_Golos ws_1 "wss://node")
               [CallSend "database_api" a_call (JFun 1); WsClosed 0] in
  exists t g',
    waiting g = [t] /\
    continue 0 g = (inr tt, g') /\
    waiting g' = [] /\ requests g' = requests g /\
    p_state <$> promises g' !! 2%nat = Some (Rejected closed_early) /\
    trace g' = trace g ++ [Callback (JFun 1) (Some closed_early) JUndefined].
Proof.
  intros g.
  set (t := {| k_startP := 1; k_api := "database_api"; k_data := a_call;
               k_callback := JFun 1; k_id := 0; k_promise := 2 |}).
  destruct (failed_connection_fails_send g t [] closed_early JUndefined (JFun 1) 0)
    as (g' & Hrun & Hw & Hreq & _ & Hp & Htr).
  { reflexivity. }
  { vm_compute. reflexivity. }
  { vm_compute. reflexivity. }
  exists t, g'. split; [reflexivity |]. split; [exact Hrun |].
  split; [exact Hw |]. split; [exact Hreq |]. split; [| exact Htr].
  rewrite Hp. cbn [k_promise t]. rewrite lookup_insert_eq. reflexivity.
Defined.

Lemma message_listener_resolves (g : golos) (m : frame) (r : request)
    (cb : jsval) :
  requests g !! msg_id m = Some r ->
  truthy (msg_error m) = false ->
  includes cbMethods (method (req_data r)) = false ->
  promises g !! req_resolve r = Some {| p_state := Pending; p_nodeback := cb |} ->
  exists g',
    message_listener m g = (inr tt, g') /\
    requests g' = delete (msg_id m) (requests g) /\
    callbacks g' = callbacks g /\
    promises g'
    = <[req_resolve r := {| p_state := Fulfilled (msg_result m); p_nodeback := cb |}]>
        (promises g) /\
    trace g'
    = trace g ++ ResolveCall (req_resolve r) (msg_result m)
                 :: nodeback_call cb (Fulfilled (msg_result m)).
Proof.
  intros Hreq Herr Hm Hp. unfold message_listener.
  unfold mbind at 1 2, M_bind at 1 2, gets. cbv beta iota zeta. rewrite Hreq.
  unfold mbind at 1, M_bind at 1, modify. cbv beta iota.
  unfold onMessage. cbv zeta. rewrite Herr. cbn [entry_data entry_resolve].
  rewrite Hm. unfold resolve, emit.
  unfold mbind at 1 2, M_bind at 1 2, modify. cbv beta iota.
  match goal with
  | |- context [settle _ _ ?g0] =>
      destruct (settle_pending (req_resolve r) (Fulfilled (msg_result m)) cb g0)
        as (g' & Hrun & Honly & Hps & Htr); [exact Hp |]
  end.
  exists g'. split; [exact Hrun |]. rewrite Honly. fields.
  split; [apply delete_delete_eq |]. split; [reflexivity |].
  split; [exact Hps |]. rewrite Htr. fields. rewrite <- app_assoc. reflexivity.
Qed.

(** An inbound frame without an error whose id is that of a pending call
    resolves that call's promise with the frame's [result] and deletes the
    call from [this.requests]; the callback passed to [send] is then
    called with [(null, result)]. *)
Theorem result_frame_resolves_its_call (g : golos) (m : frame) (r : request)
    (cb : jsval) :
  requests g !! msg_id m = Some r ->
  truthy (msg_error m) = false ->
  includes cbMethods (method (req_data r)) = false ->
  promises g !! req_resolve r = Some {| p_state := Pending; p_nodeback := cb |} ->
  exists g',
    message_listener m g = (inr tt, g') /\
    requests g' = delete (msg_id m) (requests g) /\
    callbacks g' = callbacks g /\
    promises g'
    = <[req_resolve r := {| p_state := Fulfilled (msg_result m); p_nodeback := cb |}]>
        (promises g) /\
    trace g'
    = trace g ++ ResolveCall (req_resolve r) (msg_result m)
                 :: nodeback_call cb (Fulfilled (msg_result m)).
Proof. apply message_listener_resolves. Qed.

Lemma set_requests_id g : set_requests (requests g) g = g.
Proof. destruct g; reflexivity. Qed.

Lemma message_listener_unknown m g :
  requests g !! msg_id m = None -> callbacks g !! msg_id m = None ->
  message_listener m g = (inr tt, g).
Proof.
  intros Hr Hc. unfold message_listener, mbind, M_bind, gets.
  cbv beta iota zeta. rewrite Hr, Hc. reflexivity.
Qed.

Lemma message_listener_answers m r g :
  requests g !! msg_id m = Some r ->
  truthy (msg_error m) = true \/ includes cbMethods (method (req_data r)) = false ->
  exists g',
    message_listener m g = (inr tt, g') /\
    requests g' = delete (msg_id m) (requests g) /\
    callbacks g' = callbacks g.
Proof.
  intros Hreq Hcase. unfold message_listener.
  unfold mbind at 1 2, M_bind at 1 2, gets. cbv beta iota zeta. rewrite Hreq.
  unfold mbind at 1, M_bind at 1, modify. cbv beta iota.
  unfold onMessage. cbv zeta.
  destruct (truthy (msg_error m)) eqn:Herr.
  - destruct (get_prop_truthy (msg_error m) "message" Herr) as [x Hx].
    unfold mbind at 1, M_bind at 1, lift. rewrite Hx. cbv beta iota.
    cbn [entry_reject]. unfold reject, emit.
    unfold mbind at 1, M_bind at 1, modify. cbv beta iota.
    match goal with
    | |- context [settle ?p ?st ?g0] =>
        destruct (settle_settles p st g0) as (g' & Hrun & [H1 H2 _ _ _ _ _])
    end.
    exists g'. split; [exact Hrun |]. rewrite H1, H2. fields. auto.
  - destruct Hcase as [Hf | Hm]; [discriminate |].
    cbn [entry_data entry_resolve]. rewrite Hm. unfold resolve, emit.
    unfold mbind at 1 2, M_bind at 1 2, modify. cbv beta iota.
    match goal with
    | |- context [settle ?p ?st ?g0] =>
        destruct (settle_settles p st g0) as (g' & Hrun & [H1 H2 _ _ _ _ _])
    end.
    exists g'. split; [exact Hrun |]. rewrite H1, H2. fields.
    split; [apply delete_delete_eq | reflexivity].
Qed.

(** A call is answered at most once: after the frame that settles it,
    error or result, a further frame with the same id is dropped without
    any effect. *)
Theorem call_answered_once (g : golos) (m m' : frame) (r : request) :
  requests g !! msg_id m = Some r ->
  callbacks g !! msg_id m = None ->
  msg_id m' = msg_id m ->
  truthy (msg_error m) = true \/ includes cbMethods (method (req_data r)) = false ->
  exists g',
    message_listener m g = (inr tt, g') /\
    message_listener m' g' = (inr tt, g').
Proof.
  intros Hreq Hcb Hid Hcase.
  destruct (message_listener_answers m r g Hreq Hcase) as (g' & Hrun & Hr & Hc).
  exists g'. split; [exact Hrun |].
  apply message_listener_unknown; rewrite Hid.
  - rewrite Hr. apply lookup_delete_eq.
  - rewrite Hc. exact Hcb.
Qed.

Lemma call_answered_once_witness :
  let g := run (new_Golos ws_1 "wss://node")
               [CallSend "database_api" call_7 JUndefined; WsOpened 0; Continue 0] in
  let ok := {| msg_id := 7; msg_error := JUndefined; msg_result := JNum 1 |} in
  exists g',
    message_listener ok g = (inr tt, g') /\
    message_listener error_frame_7 g' = (inr tt, g').
Proof.
  intros g ok.
  apply (call_answered_once g ok error_frame_7
           {| req_api := "database_api"; req_data := call_7;
              req_resolve := 2; req_reject := 2; req_start_time := 0 |}).
  - vm_compute. reflexivity.
  - vm_compute. reflexivity.
  - reflexivity.
  - right. reflexivity.
Defined.

(** An error frame whose id is that of a subscription is not passed to
    the subscriber: a subscription has no [reject], so the listener throws
    a [TypeError], and the callback is not called. *)
Theorem error_frame_for_subscription_throws (g : golos) (m : frame)
    (c : subscription) :
  requests g !! msg_id m = None ->
  callbacks g !! msg_id m = Some c ->
  truthy (msg_error m) = true ->
  message_listener m g = (inl (TypeError "reject is not a function"), g).
Proof.
  intros Hreq Hcb Herr.
  destruct (get_prop_truthy (msg_error m) "message" Herr) as [x Hx].
  unfold message_listener.
  unfold mbind at 1 2, M_bind at 1 2, gets. cbv beta iota zeta. rewrite Hreq, Hcb.
  unfold mbind at 1, M_bind at 1, modify. cbv beta iota.
  unfold onMessage. cbv zeta. rewrite Herr.
  unfold mbind at 1, M_bind at 1, lift. rewrite Hx. cbv beta iota.
  cbn [entry_reject]. unfold throw.
  rewrite delete_id by exact Hreq. rewrite set_requests_id. reflexivity.
Qed.

Lemma error_frame_for_subscription_throws_witness :
  message_listener error_frame_0 a_subscribed_client
  = (inl (TypeError "reject is not a function"), a_subscribed_client) /\
  trace (step a_subscribed_client (WsMessage 0 error_frame_0))
  = trace a_subscribed_client ++ [Uncaught (TypeError "reject is not a function")].
Proof.
  assert (H : message_listener error_frame_0 a_subscribed_client
              = (inl (TypeError "reject is not a function"), a_subscribed_client)).
  { apply (error_frame_for_subscription_throws a_subscribed_client error_frame_0
             {| sub_api := "database_api"; sub_data := a_subscription;
                sub_cb := JFun 1 |}).
    - vm_compute. reflexivity.
    - vm_compute. reflexivity.
    - reflexivity. }
  split; [exact H |].
  unfold step. cbn [handler]. unfold mbind, M_bind, gets.
  change (registered 0 OnMessage a_subscribed_client)
    with [{| l_target := 0; l_event := OnMessage; l_startP := 1 |}].
  cbn [for_listeners]. unfold mbind, M_bind. rewrite H. reflexivity.
Defined.

Lemma set_trace_twice t1 t2 g : set_trace t2 (set_trace t1 g) = set_trace t2 g.
Proof. reflexivity. Qed.

Lemma message_listener_push m c g :
  requests g !! msg_id m = None ->
  callbacks g !! msg_id m = Some c ->
  truthy (msg_error m) = false ->
  includes cbMethods (method (sub_data c)) = true ->
  is_function (sub_cb c) = true ->
  message_listener m g
  = (inr tt, set_trace (trace g ++ [Callback (sub_cb c) None (msg_result m)]) g).
Proof.
  intros Hreq Hcb Herr Hm Hf. unfold message_listener.
  unfold mbind at 1 2, M_bind at 1 2, gets. cbv beta iota zeta. rewrite Hreq, Hcb.
  unfold mbind at 1, M_bind at 1, modify. cbv beta iota.
  rewrite delete_id by exact Hreq. rewrite set_requests_id.
  unfold onMessage. cbv zeta. rewrite Herr. cbn [entry_data]. rewrite Hm.
  unfold mbind, M_bind, gets. cbv beta iota. rewrite Hcb, Hf. reflexivity.
Qed.

(** A subscription stays registered: every frame without an error that
    carries its id calls the subscriber with [(null, result)], in the
    order of arrival, and nothing else changes. *)
Theorem subscription_receives_every_push (g : golos) (w : nat) (l : listener)
    (i : Z) (c : subscription) (ms : list frame) :
  registered w OnMessage g = [l] ->
  requests g !! i = None ->
  callbacks g !! i = Some c ->
  includes cbMethods (method (sub_data c)) = true ->
  is_function (sub_cb c) = true ->
  pushes i ms ->
  run g (map (WsMessage w) ms)
  = set_trace
      (trace g ++ map (fun m => Callback (sub_cb c) None (msg_result m)) ms) g.
Proof.
  intros Hl Hreq Hcb Hm Hf Hms. revert g Hl Hreq Hcb.
  induction Hms as [| m ms [Hid Herr] _ IH]; intros g Hl Hreq Hcb.
  - cbn. rewrite app_nil_r, set_trace_id. reflexivity.
  - cbn [map run fold_left].
    assert (Hstep : step g (WsMessage w m)
                    = set_trace (trace g ++ [Callback (sub_cb c) None (msg_result m)]) g).
    { unfold step. cbn [handler]. unfold mbind at 1, M_bind at 1, gets.
      rewrite Hl. cbn [for_listeners]. unfold mbind, M_bind.
      rewrite (message_listener_push m c g) by (rewrite ?Hid; assumption).
      reflexivity. }
    rewrite Hstep. fold (run (set_trace (trace g ++ [Callback (sub_cb c) None (msg_result m)]) g)
                             (map (WsMessage w) ms)).
    rewrite IH by assumption. rewrite set_trace_twice. fields.
    rewrite <- app_assoc. reflexivity.
Qed.

Lemma subscription_receives_every_push_witness :
  let ms := [{| msg_id := 0; msg_error := JUndefined; msg_result := JNum 5 |};
             {| msg_id := 0; msg_error := JNull; msg_result := JNum 6 |}] in
  trace (run a_subscribed_client (map (WsMessage 0) ms))
  = trace a_subscribed_client
    ++ [Callback (JFun 1) None (JNum 5); Callback (JFun 1) None (JNum 6)] /\
  p_state <$> promises (run a_subscribed_client (map (WsMessage 0) ms)) !! 2%nat
  = Some Pending.
Proof.
  intros ms.
  rewrite (subscription_receives_every_push a_subscribed_client 0
             {| l_target := 0; l_event := OnMessage; l_startP := 1 |} 0
             {| sub_api := "database_api"; sub_data := a_subscription;
                sub_cb := JFun 1 |} ms).
  - split; [reflexivity | vm_compute; reflexivity].
  - reflexivity.
  - vm_compute. reflexivity.
  - vm_compute. reflexivity.
  - reflexivity.
  - reflexivity.
  - repeat constructor.
Defined.

Lemma result_frame_resolves_its_call_witness :
  let g := run (new_Golos ws_1 "wss://node")
               [CallSend "database_api" call_7 (JFun 1); WsOpened 0; Continue 0] in
  let ok := {| msg_id := 7; msg_error := JUndefined; msg_result := JNum 1 |} in
  exists g',
    message_listener ok g = (inr tt, g') /\
    requests g' = ∅ /\
    p_state <$> promises g' !! 2%nat = Some (Fulfilled (JNum 1)) /\
    trace g' = trace g ++ [ResolveCall 2 (JNum 1); Callback (JFun 1) None (JNum 1)].
Proof.
  intros g ok.
  destruct (result_frame_resolves_its_call g ok
              {| req_api := "database_api"; req_data := call_7;
                 req_resolve := 2; req_reject := 2; req_start_time := 0 |} (JFun 1))
    as (g' & Hrun & Hreq & _ & Hp & Htr).
  - vm_compute. reflexivity.
  - reflexivity.
  - reflexivity.
  - vm_compute. reflexivity.
  - exists g'. split; [exact Hrun |]. split; [rewrite Hreq; vm_compute; reflexivity |].
    split; [| exact Htr]. rewrite Hp. cbn [req_resolve].
    rewrite lookup_insert_eq. reflexivity.
Defined.

Lemma ws_send_open w e g :
  readyState w g = OPEN ->
  ws_send w e g = (inr tt, set_trace (trace g ++ [WsSend w e]) g).
Proof.
  intros H. destruct (ws_send_run w e g) as (r & Hrun & Hopen & _).
  rewrite Hrun, (Hopen H). reflexivity.
Qed.

Lemma dispatch_request t now g w :
  ws g = Some w -> readyState w g = OPEN ->
  includes cbMethods (method (k_data t)) = false ->
  dispatch t now g
  = (inr tt,
     set_trace (trace g ++ [WsSend w (envelope_of t)])
       (set_requests
          (<[k_id t := {| req_api := k_api t; req_data := k_data t;
                          req_resolve := k_promise t; req_reject := k_promise t;
                          req_start_time := now |}]> (requests g)) g)).
Proof.
  intros Hws Hopen Hm. unfold dispatch.
  unfold mbind at 1, M_bind at 1, gets. cbv beta iota zeta. rewrite Hws, Hm.
  unfold mbind, M_bind, modify. cbv beta iota.
  rewrite ws_send_open by exact Hopen. reflexivity.
Qed.

Lemma dispatch_subscription t now g w :
  ws g = Some w -> readyState w g = OPEN ->
  includes cbMethods (method (k_data t)) = true ->
  dispatch t now g
  = (inr tt,
     set_trace (trace g ++ [WsSend w (envelope_of t)])
       (set_callbacks
          (<[k_id t := {| sub_api := k_api t; sub_data := k_data t;
                          sub_cb := k_callback t |}]> (callbacks g)) g)).
Proof.
  intros Hws Hopen Hm. unfold dispatch.
  unfold mbind at 1, M_bind at 1, gets. cbv beta iota zeta. rewrite Hws, Hm.
  unfold mbind, M_bind, modify. cbv beta iota.
  rewrite ws_send_open by exact Hopen. reflexivity.
Qed.

(** A call and its answer. With an open socket in [this.ws] the executor
    of [send] writes one envelope [{id, method: 'call', jsonrpc: '2.0',
    params: [api, method, params]}]; the frame that comes back with that
    id and no error fulfils the promise [send] returned with the frame's
    [result], passes [(null, result)] to the callback given to [send], and
    leaves no entry for the id behind. *)
Theorem call_round_trip (g : golos) (t : continuation) (w : nat) (cb : jsval)
    (now : Z) (m : frame) :
  ws g = Some w ->
  readyState w g = OPEN ->
  includes cbMethods (method (k_data t)) = false ->
  promises g !! k_promise t = Some {| p_state := Pending; p_nodeback := cb |} ->
  msg_id m = k_id t ->
  truthy (msg_error m) = false ->
  exists g1 g2,
    dispatch t now g = (inr tt, g1) /\
    message_listener m g1 = (inr tt, g2) /\
    trace g2
    = trace g ++ [WsSend w (envelope_of t); ResolveCall (k_promise t) (msg_result m)]
              ++ nodeback_call cb (Fulfilled (msg_result m)) /\
    promises g2
    = <[k_promise t := {| p_state := Fulfilled (msg_result m); p_nodeback := cb |}]>
        (promises g) /\
    requests g2 = delete (k_id t) (requests g) /\
    callbacks g2 = callbacks g.
Proof.
  intros Hws Hopen Hm Hp Hid Herr.
  rewrite (dispatch_request t now g w Hws Hopen Hm).
  set (r := {| req_api := k_api t; req_data := k_data t;
               req_resolve := k_promise t; req_reject := k_promise t;
               req_start_time := now |}).
  set (g1 := set_trace _ _).
  destruct (message_listener_resolves g1 m r cb) as (g2 & Hrun & Hreq & Hcb & Hps & Htr).
  - subst g1. fields. rewrite Hid. apply lookup_insert_eq.
  - exact Herr.
  - exact Hm.
  - exact Hp.
  - exists g1, g2. split; [reflexivity |]. split; [exact Hrun |].
    rewrite Htr, Hps, Hreq, Hcb. subst g1 r. fields. rewrite Hid.
    cbn [req_resolve]. rewrite <- app_assoc.
    split; [reflexivity |]. split; [reflexivity |].
    split; [apply delete_insert_eq | reflexivity].
Qed.

Lemma call_round_trip_witness :
  let g := run (new_Golos ws_1 "wss://node")
               [CallSend "database_api" a_call (JFun 1); WsOpened 0] in
  let t := {| k_startP := 1; k_api := "database_api"; k_data := a_call;
              k_callback := JFun 1; k_id := 0; k_promise := 2 |} in
  let m := {| msg_id := 0; msg_error := JUndefined; msg_result := JStr "block" |} in
  waiting g = [t] /\
  exists g1 g2,
    dispatch t 0 g = (inr tt, g1) /\
    message_listener m g1 = (inr tt, g2) /\
    trace g2
    = trace g ++ [WsSend 0 {| env_id := 0; env_method := "call";
                              env_jsonrpc := "2.0";
                              env_params := ("database_api"%string,
                                             "get_block"%string, [JNum 1]) |};
                  ResolveCall 2 (JStr "block");
                  Callback (JFun 1) None (JStr "block")] /\
    requests g2 = ∅.
Proof.
  intros g t m. split; [reflexivity |].
  destruct (call_round_trip g t 0 (JFun 1) 0 m)
    as (g1 & g2 & H1 & H2 & Htr & _ & Hreq & _).
  - reflexivity.
  - reflexivity.
  - reflexivity.
  - vm_compute. reflexivity.
  - reflexivity.
  - reflexivity.
  - exists g1, g2. split; [exact H1 |]. split; [exact H2 |].
    split; [exact Htr |]. rewrite Hreq. vm_compute. reflexivity.
Defined.

Lemma send_subscribes api m ps cb g :
  includes cbMethods m = true ->
  subscribes (send api {| method := m; params := ps; data_id := None |} cb)
             api m ps cb g.
Proof.
  intros Hm.
  set (d := {| method := m; params := ps; data_id := None |}).
  destruct (start_returns (set_trace (trace g ++ [SendCalled api d (id g)])
                             (set_id (id g + 1) g)))
    as (p & g0 & Hstart & _ & Hid & Hw).
  unfold subscribes.
  rewrite (send_unfold api d cb g (id g) (set_id (id g + 1) g)) by reflexivity.
  unfold send_tail. rewrite (bind_inr _ _ _ _ _ Hstart).
  unfold new_promise, mbind, M_bind, mret, M_ret, gets, modify. cbv beta iota.
  do 3 eexists. split; [reflexivity |]. fields.
  split; [exact Hid |]. split; [rewrite Hw; reflexivity |].
  split; [reflexivity |].
  intros g2 w now Hws Hopen.
  rewrite (dispatch_subscription _ now g2 w Hws Hopen) by exact Hm. reflexivity.
Qed.

(** [setBlockAppliedCallback], [setPendingTransactionCallback] and
    [setPrivateMessageCallback] register subscriptions: each takes the
    next id of the counter, and its executor, run with an open socket in
    [this.ws], files the callback under that id in [this.callbacks], not
    in [this.requests], and writes the envelope of the node's method with
    the arguments given. *)
Theorem callback_setters_subscribe (g : golos) (type query cb : jsval) :
  subscribes (setBlockAppliedCallback type cb)
             "database_api" "set_block_applied_callback" [type] cb g /\
  subscribes (setPendingTransactionCallback cb)
             "database_api" "set_pending_transaction_callback" [] cb g /\
  subscribes (setPrivateMessageCallback query cb)
             "private_message" "set_callback" [query] cb g.
Proof.
  split; [| split]; apply send_subscribes; reflexivity.
Qed.

Lemma run_without_call impl es : forall url,
  Forall makes_no_call es ->
  run (new_Golos impl url) es = new_Golos impl (configured url es).
Proof.
  induction es as [| e es IH]; intros url Hall; [reflexivity |].
  inversion Hall as [| ? ? He Hes]; subst. cbn [run fold_left configured].
  fold (run (step (new_Golos impl url) e) es).
  fold (configured (match e with CallSetWebSocket u' => u' | _ => url end) es).
  rewrite <- (IH _ Hes). f_equal.
  destruct e; cbn [makes_no_call] in He; try contradiction; reflexivity.
Qed.

(** The client connects on first use. Constructing it, configuring it,
    stopping it open no socket; the first [start()] or [send()] opens
    exactly one, to the url the configuration holds at that moment. *)
Theorem connects_on_first_use (impl : implementation) (url : string)
    (es : list event) :
  Forall makes_no_call es ->
  trace (run (new_Golos impl url) es) = [] /\
  connections (trace (run (new_Golos impl url) (es ++ [CallStart])))
  = [(0%nat, configured url es)] /\
  forall api d cb,
    connections (trace (run (new_Golos impl url) (es ++ [CallSend api d cb])))
    = [(0%nat, configured url es)].
Proof.
  intros Hall.
  assert (Hrun : forall e, run (new_Golos impl url) (es ++ [e])
                           = step (new_Golos impl (configured url es)) e).
  { intros e. unfold run. rewrite fold_left_app.
    fold (run (new_Golos impl url) es).
    rewrite (run_without_call impl es url Hall). reflexivity. }
  split; [rewrite (run_without_call impl es url Hall); reflexivity |].
  split; [rewrite Hrun; reflexivity |].
  intros api d cb. rewrite Hrun.
  destruct d as [m ps [[| n | n] |]]; reflexivity.
Qed.

Lemma connects_on_first_use_witness :
  let es := [CallStop; CallSetWebSocket "wss://other"; WsOpened 0; Continue 0] in
  trace (run (new_Golos ws_1 "wss://node") es) = [] /\
  connections (trace (run (new_Golos ws_1 "wss://node")
                          (es ++ [CallSend "database_api" a_call JUndefined])))
  = [(0%nat, "wss://other"%string)].
Proof.
  intros es.
  destruct (connects_on_first_use ws_1 "wss://node" es) as (H1 & _ & H3).
  - repeat constructor.
  - split; [exact H1 | apply H3].
Defined.

(** [setWebSocket(url)] drops the connection, closing the socket if
    there is one, so that the next [start()] opens a new socket to
    [url]. *)
Theorem setWebSocket_reconnects (g : golos) (url : string) :
  let g1 := step g (CallSetWebSocket url) in
  let g2 := step g1 CallStart in
  trace g1 = trace g ++ match ws g with Some w => [WsClose w] | None => [] end /\
  startP g1 = None /\ ws g1 = None /\
  trace g2 = trace g1 ++ [NewWebSocket (sockets_created g) url] /\
  ws g2 = Some (sockets_created g) /\
  startP g2 = Some (next_promise g) /\
  promises g2 !! next_promise g
  = Some {| p_state := Pending; p_nodeback := JUndefined |}.
Proof.
  intros g1 g2.
  assert (H1 : g1 = stopped (set_websocket_url url g)).
  { subst g1. unfold step. cbn [handler]. unfold setWebSocket.
    unfold mbind, M_bind, modify. cbv beta iota. rewrite stop_run. reflexivity. }
  assert (Hs : startP g1 = None).
  { rewrite H1. unfold stopped. reflexivity. }
  assert (H2 : g2 = connecting g1).
  { subst g2. unfold step. cbn [handler]. unfold mbind, M_bind.
    rewrite (start_run g1 Hs). reflexivity. }
  rewrite H2. unfold connecting. cbv zeta. fields. rewrite H1.
  unfold stopped. fields.
  destruct (ws g) as [w |];
    [rewrite (closing_frame w (set_websocket_url url g)) |]; fields;
    rewrite ?app_nil_r, ?lookup_insert_eq; auto 10.
Qed.

Lemma settle_promises_only p st g :
  exists g', settle p st g = (inr tt, g') /\ promises_only g g'.
Proof.
  destruct (promises g !! p) as [[[| v | e] cb] |] eqn:E;
    try (exists g; split; [apply settle_settled; intros; congruence
                          | apply promises_only_refl]).
  destruct (settle_pending p st cb g E) as (g' & Hrun & Honly & _).
  exists g'. split; assumption.
Qed.

(** [open_listener] leaves everything but the open flag, the listeners,
    the promises and the trace. *)
Lemma open_listener_run w p g :
  exists g',
    open_listener w p g = (inr tt, g') /\
    listeners g'
    = List.filter
        (not_released (removes_through (WebSocket g))
                      [{| l_target := w; l_event := OnOpen; l_startP := p |}])
        (listeners g) /\
    WebSocket g' = WebSocket g /\ sockets g' = sockets g.
Proof.
  unfold open_listener, release, resolve, emit.
  unfold mbind at 1 2 3 4, M_bind at 1 2 3 4, gets, modify. cbv beta iota.
  match goal with
  | |- context [settle ?q ?st ?g0] =>
      destruct (settle_promises_only q st g0) as (g' & Hrun & Honly)
  end.
  exists g'. split; [exact Hrun |]. rewrite Honly. fields.
  split; [| split; reflexivity].
  apply filter_ext. intros r. unfold not_released. cbn [forallb].
  rewrite andb_true_r. reflexivity.
Qed.

Lemma for_listeners_open w ls : forall g,
  exists g',
    for_listeners (fun l => open_listener w (l_startP l)) ls g = (inr tt, g') /\
    listeners g'
    = List.filter
        (not_released (removes_through (WebSocket g))
           (map (fun l => {| l_target := w; l_event := OnOpen;
                             l_startP := l_startP l |}) ls))
        (listeners g) /\
    WebSocket g' = WebSocket g /\ sockets g' = sockets g.
Proof.
  induction ls as [| l ls IH]; intros g.
  - exists g. split; [reflexivity |]. unfold not_released. cbn.
    rewrite filter_all. auto.
  - destruct (open_listener_run w (l_startP l) g) as (g1 & H1 & L1 & W1 & S1).
    destruct (IH g1) as (g2 & H2 & L2 & W2 & S2).
    exists g2. cbn [for_listeners]. unfold mbind, M_bind. rewrite H1.
    split; [exact H2 |]. split; [| split; congruence].
    rewrite L2, L1, W1, filter_twice. apply filter_ext. intros r.
    unfold not_released. cbn [map forallb]. rewrite andb_true_r. reflexivity.
Qed.

Lemma listener_eqb_event d x : listener_eqb d x = true -> l_event x = l_event d.
Proof.
  unfold listener_eqb. rewrite !andb_true_iff. intros [[_ H] _].
  destruct (l_event d), (l_event x); cbn in H; congruence.
Qed.

Lemma released_by via rs r :
  not_released via rs r = false ->
  exists d, In d rs /\ listener_eqb d (snd r) = true.
Proof.
  unfold not_released. induction rs as [| d rs IH]; cbn [forallb];
    [discriminate |].
  destruct (registry_eqb via (fst r) && listener_eqb d (snd r)) eqn:E.
  - intros _. apply andb_true_iff in E. exists d. split; [left; reflexivity | apply E].
  - cbn [negb andb]. intros H. destruct (IH H) as (d' & Hd & He).
    exists d'. split; [right; exact Hd | exact He].
Qed.

Lemma registered_In w e g l :
  In l (registered w e g) <->
  In l (map snd (listeners g)) /\ l_target l = w /\ l_event l = e.
Proof.
  unfold registered. rewrite filter_In, andb_true_iff, Nat.eqb_eq.
  assert (He : ws_event_eqb (l_event l) e = true <-> l_event l = e).
  { destruct (l_event l), e; cbn; split; congruence. }
  rewrite He. tauto.
Qed.

(** Disposers made for one event leave the listeners of another event
    registered. *)
Lemma registered_other_event via rs w e ls :
  (forall d, In d rs -> l_event d <> e) ->
  List.filter (fun l => Nat.eqb (l_target l) w && ws_event_eqb (l_event l) e)
              (map snd (List.filter (not_released via rs) ls))
  = List.filter (fun l => Nat.eqb (l_target l) w && ws_event_eqb (l_event l) e)
                (map snd ls).
Proof.
  intros Hrs. induction ls as [| r ls IH]; [reflexivity |].
  cbn [List.filter map]. destruct (not_released via rs r) eqn:E.
  - cbn [map List.filter]. rewrite IH. reflexivity.
  - rewrite IH. destruct (released_by via rs r E) as (d & Hd & He).
    apply listener_eqb_event in He.
    assert (Hne : ws_event_eqb (l_event (snd r)) e = false).
    { specialize (Hrs d Hd). destruct (l_event (snd r)), e; cbn; congruence. }
    rewrite Hne, andb_false_r. reflexivity.
Qed.

Lemma open_listener_of l w :
  l_target l = w -> l_event l = OnOpen ->
  {| l_target := w; l_event := OnOpen; l_startP := l_startP l |} = l.
Proof. destruct l; cbn; intros; subst; reflexivity. Qed.

(** A socket's ['open'] and the disposer of its listener. Where the
    socket has [removeEventListener] exactly when it has
    [addEventListener], the listener removes itself: a second ['open'] of
    the same socket changes nothing, and the ['close'] and ['message']
    listeners of the socket stay registered. Where it has one without the
    other (as the socket of [ws] 1.x), the disposer removes nothing and
    every listener stays registered. *)
Theorem open_is_handled_once (impl : implementation) (url : string)
    (es : list event) (w : nat) :
  let g := run (new_Golos impl url) es in
  let g1 := step g (WsOpened w) in
  (has_removeEventListener impl = has_addEventListener impl ->
   step g1 (WsOpened w) = g1 /\
   registered w OnClose g1 = registered w OnClose g /\
   registered w OnMessage g1 = registered w OnMessage g) /\
  (has_removeEventListener impl <> has_addEventListener impl ->
   listeners g1 = listeners g).
Proof.
  intros g g1.
  destruct (run_keeps_disposable es (new_Golos impl url)) as [Hclass Hinv].
  fold g in Hclass, Hinv. cbn [WebSocket new_Golos] in Hclass.
  specialize (Hinv (new_Golos_disposable impl url)).
  set (g0 := socket_opened w g).
  assert (Hg0 : listeners g0 = listeners g /\ WebSocket g0 = impl).
  { subst g0. unfold socket_opened.
    destruct (sockets g !! w) as [[] |]; fields; auto. }
  destruct Hg0 as [Hl0 Hw0].
  set (rs := map (fun l => {| l_target := w; l_event := OnOpen;
                              l_startP := l_startP l |})
                 (registered w OnOpen g0)).
  destruct (for_listeners_open w (registered w OnOpen g0) g0)
    as (g' & Hrun & Hl & Hw & Hs).
  fold rs in Hl. rewrite Hw0, Hl0 in Hl.
  assert (H1 : g1 = g').
  { subst g1. unfold step. cbn [handler].
    unfold mbind, M_bind, gets, modify. cbv beta iota.
    fold g0. rewrite Hrun. reflexivity. }
  assert (Hrs : forall d, In d rs -> l_event d = OnOpen).
  { intros d Hd. apply in_map_iff in Hd. destruct Hd as (l & <- & _). reflexivity. }
  rewrite H1. split.
  - intros Hsame. apply same_interface in Hsame.
    assert (Hopen : registered w OnOpen g' = []).
    { apply filter_none. intros x Hx.
      destruct (Nat.eqb (l_target x) w && ws_event_eqb (l_event x) OnOpen) eqn:E;
        [| reflexivity].
      exfalso. rewrite Hl in Hx. apply in_map_iff in Hx.
      destruct Hx as (r & <- & Hr). apply filter_In in Hr.
      destruct Hr as [Hr Hkept].
      destruct (Hinv r Hr) as [Hfst _].
      rewrite not_released_In in Hkept; [discriminate | |].
      - rewrite Hfst, Hclass. exact Hsame.
      - assert (Hin : In (snd r) (registered w OnOpen g0)).
        { unfold registered. rewrite Hl0. apply filter_In. split; [| exact E].
          apply in_map. exact Hr. }
        pose proof Hin as Hin'. apply registered_In in Hin'.
        destruct Hin' as (_ & Ht & He).
        subst rs. apply in_map_iff. exists (snd r). split; [| exact Hin].
        apply open_listener_of; assumption. }
    assert (Hkeep : forall e, e <> OnOpen -> registered w e g' = registered w e g).
    { intros e He. unfold registered. rewrite Hl.
      apply registered_other_event. intros d Hd. rewrite (Hrs d Hd). congruence. }
    split; [| split; apply Hkeep; discriminate].
    unfold step. cbn [handler]. unfold mbind, M_bind, gets, modify.
    cbv beta iota.
    assert (Hsock : socket_opened w g' = g').
    { unfold socket_opened. rewrite Hs. subst g0. unfold socket_opened.
      destruct (sockets g !! w) as [[] |] eqn:E; fields;
        rewrite ?E, ?lookup_insert_eq; reflexivity. }
    rewrite Hsock, Hopen. reflexivity.
  - intros Hother. rewrite Hl. apply filter_every. intros r Hr.
    apply not_released_other_interface. destruct (Hinv r Hr) as [Hfst _].
    rewrite Hfst, Hclass. intros Heq. apply Hother, same_interface. exact Heq.
Qed.

Lemma open_is_handled_once_witness :
  let es := [CallSend "database_api" a_call JUndefined] in
  let b1 := step (run (new_Golos browser_WebSocket "wss://node") es) (WsOpened 0) in
  let n1 := step (run (new_Golos ws_1 "wss://node") es) (WsOpened 0) in
  (step b1 (WsOpened 0) = b1 /\ length (listeners b1) = 2%nat) /\
  length (listeners n1) = 3%nat.
Proof.
  intros es b1 n1. split.
  - destruct (proj1 (open_is_handled_once browser_WebSocket "wss://node" es 0))
      as [H _]; [reflexivity |].
    split; [exact H | reflexivity].
  - unfold n1.
    rewrite (proj2 (open_is_handled_once ws_1 "wss://node" es 0));
      [reflexivity | discriminate].
Defined.

Lemma continue_connected g t rest w now :
  waiting g = t :: rest -> connected g -> ws g = Some w ->
  readyState w g = OPEN ->
  exists g',
    continue now g = (inr tt, g') /\
    waiting g' = rest /\ promises g' = promises g /\ ws g' = Some w /\
    readyState w g' = OPEN /\
    trace g' = trace g ++ [WsSend w (envelope_of t)].
Proof.
  intros Hw Hc Hws Hopen. unfold connected in Hc. rewrite Hw in Hc.
  apply Forall_cons in Hc. destruct Hc as [(v & nb & Hp) _].
  unfold continue. unfold mbind at 1 2, M_bind at 1 2, gets. cbv beta iota.
  rewrite Hw. cbn [next_ready]. rewrite Hp. cbv beta iota.
  unfold mbind, M_bind, modify, catch. cbv beta iota.
  destruct (includes cbMethods (method (k_data t))) eqn:Hm.
  - rewrite (dispatch_subscription t now (set_waiting rest g) w Hws Hopen Hm).
    eexists. split; [reflexivity |]. fields. auto 10.
  - rewrite (dispatch_request t now (set_waiting rest g) w Hws Hopen Hm).
    eexists. split; [reflexivity |]. fields. auto 10.
Qed.

(** Calls made while the connection was being set up are written to the
    socket in the order they were made: once the connection promise is
    fulfilled, and while [this.ws] holds an open socket, each turn takes
    the oldest queued call and writes its envelope. *)
Theorem queued_calls_are_written_in_order (g : golos) (w : nat) (nows : list Z) :
  ws g = Some w ->
  readyState w g = OPEN ->
  connected g ->
  length nows = length (waiting g) ->
  let g' := run g (map Continue nows) in
  trace g' = trace g ++ map (fun t => WsSend w (envelope_of t)) (waiting g) /\
  waiting g' = [].
Proof.
  intros Hws Hopen Hc Hlen. cbv zeta. remember (waiting g) as q eqn:Hq.
  revert g nows Hws Hopen Hc Hq Hlen.
  induction q as [| t rest IH]; intros g nows Hws Hopen Hc Hq Hlen.
  - destruct nows; [| discriminate]. cbn. rewrite app_nil_r. auto.
  - destruct nows as [| now nows]; [discriminate |]. cbn [map run fold_left].
    destruct (continue_connected g t rest w now (eq_sym Hq) Hc Hws Hopen)
      as (g1 & Hrun & Hw1 & Hp1 & Hws1 & Hopen1 & Ht1).
    assert (Hstep : step g (Continue now) = g1).
    { unfold step. cbn [handler]. rewrite Hrun. reflexivity. }
    rewrite Hstep. fold (run g1 (map Continue nows)).
    destruct (IH g1 nows) as [Htr Hwait].
    + exact Hws1.
    + exact Hopen1.
    + unfold connected in *. rewrite Hw1, Hp1. rewrite <- Hq in Hc.
      apply Forall_cons in Hc. apply Hc.
    + symmetry. exact Hw1.
    + cbn in Hlen. lia.
    + split; [| exact Hwait]. rewrite Htr, Ht1, <- app_assoc. reflexivity.
Qed.

Lemma queued_calls_are_written_in_order_witness :
  map env_id
      (sent_envelopes
         (trace (run a_connected_client (map Continue [10; 11; 12]))))
  = [0; 7; 1] /\
  waiting (run a_connected_client (map Continue [10; 11; 12])) = [].
Proof.
  destruct (queued_calls_are_written_in_order a_connected_client 0 [10; 11; 12])
    as [Htr Hw].
  - reflexivity.
  - reflexivity.
  - unfold connected, a_connected_client. cbn [waiting promises].
    repeat (apply Forall_cons; split;
            [exists JUndefined, JUndefined; vm_compute; reflexivity |]).
    constructor.
  - reflexivity.
  - split; [rewrite Htr; vm_compute; reflexivity | exact Hw].
Defined.

(** Two calls under one id. When a call is written, on an open socket,
    under an id that an unanswered call already uses (an id passed in
    [data.id]), its entry replaces the earlier one: the answer fulfils the
    later call, and the earlier call is left pending with no entry to
    settle it. *)
Theorem later_call_takes_over_the_id (g : golos) (w : nat) (t1 t2 : continuation)
    (cb1 cb2 : jsval) (now1 now2 : Z) (m : frame) :
  ws g = Some w ->
  readyState w g = OPEN ->
  includes cbMethods (method (k_data t1)) = false ->
  includes cbMethods (method (k_data t2)) = false ->
  k_id t1 = k_id t2 -> msg_id m = k_id t2 ->
  k_promise t1 <> k_promise t2 ->
  promises g !! k_promise t1 = Some {| p_state := Pending; p_nodeback := cb1 |} ->
  promises g !! k_promise t2 = Some {| p_state := Pending; p_nodeback := cb2 |} ->
  truthy (msg_error m) = false ->
  exists g1 g2 g3,
    dispatch t1 now1 g = (inr tt, g1) /\
    dispatch t2 now2 g1 = (inr tt, g2) /\
    message_listener m g2 = (inr tt, g3) /\
    promises g3 !! k_promise t2
    = Some {| p_state := Fulfilled (msg_result m); p_nodeback := cb2 |} /\
    promises g3 !! k_promise t1
    = Some {| p_state := Pending; p_nodeback := cb1 |} /\
    requests g3 !! k_id t1 = None.
Proof.
  intros Hws Hopen Hm1 Hm2 Hid Hmid Hne Hp1 Hp2 Herr.
  pose proof (dispatch_request t1 now1 g w Hws Hopen Hm1) as H1.
  set (g1 := set_trace _ _) in H1.
  pose proof (dispatch_request t2 now2 g1 w Hws Hopen Hm2) as H2.
  set (g2 := set_trace _ _) in H2.
  set (r := {| req_api := k_api t2; req_data := k_data t2;
               req_resolve := k_promise t2; req_reject := k_promise t2;
               req_start_time := now2 |}).
  destruct (message_listener_resolves g2 m r cb2) as (g3 & Hrun & Hreq & _ & Hps & _).
  - subst g2. fields. rewrite Hmid. apply lookup_insert_eq.
  - exact Herr.
  - exact Hm2.
  - exact Hp2.
  - exists g1, g2, g3. split; [exact H1 |]. split; [exact H2 |].
    split; [exact Hrun |]. rewrite Hps, Hreq. cbn [req_resolve r].
    split; [apply lookup_insert_eq |].
    split; [rewrite lookup_insert_ne by congruence; exact Hp1 |].
    rewrite Hmid, Hid. apply lookup_delete_eq.
Qed.

Lemma later_call_takes_over_the_id_witness :
  let g := run (new_Golos ws_1 "wss://node")
               [CallSend "database_api" call_7 JUndefined;
                CallSend "database_api" call_7 (JFun 1);
                WsOpened 0] in
  let t1 := {| k_startP := 1; k_api := "database_api"; k_data := call_7;
               k_callback := JUndefined; k_id := 7; k_promise := 2 |} in
  let t2 := {| k_startP := 1; k_api := "database_api"; k_data := call_7;
               k_callback := JFun 1; k_id := 7; k_promise := 3 |} in
  let m := {| msg_id := 7; msg_error := JUndefined; msg_result := JNum 1 |} in
  waiting g = [t1; t2] /\
  exists g1 g2 g3,
    dispatch t1 0 g = (inr tt, g1) /\
    dispatch t2 0 g1 = (inr tt, g2) /\
    message_listener m g2 = (inr tt, g3) /\
    p_state <$> promises g3 !! 3%nat = Some (Fulfilled (JNum 1)) /\
    p_state <$> promises g3 !! 2%nat = Some Pending /\
    requests g3 !! 7 = None.
Proof.
  intros g t1 t2 m. split; [reflexivity |].
  destruct (later_call_takes_over_the_id g 0 t1 t2 JUndefined (JFun 1) 0 0 m)
    as (g1 & g2 & g3 & H1 & H2 & H3 & H4 & H5 & H6).
  - reflexivity.
  - reflexivity.
  - reflexivity.
  - reflexivity.
  - reflexivity.
  - reflexivity.
  - discriminate.
  - vm_compute. reflexivity.
  - vm_compute. reflexivity.
  - reflexivity.
  - exists g1, g2, g3. split; [exact H1 |]. split; [exact H2 |].
    split; [exact H3 |]. cbn [k_promise k_id t1 t2] in *.
    rewrite H4, H5. auto.
Defined.

End ClientBehaviour.

(** ** The generated methods: parameters and defaults *)

Module BindingBehaviour.

Import Client Binding MonadFacts ClientFacts ClientBehaviour BindingFacts.

Lemma sent_params_app t1 t2 :
  sent_params (t1 ++ t2) = sent_params t1 ++ sent_params t2.
Proof. unfold sent_params. apply flat_map_app. Qed.

Lemma send_sent_params api d cb g :
  data_id d = None ->
  sent_params (trace (snd (send api d cb g)))
  = sent_params (trace g) ++ [params d].
Proof.
  intros Hd.
  rewrite (send_unfold api d cb g (id g) (set_id (id g + 1) g))
    by (unfold resolve_id; rewrite Hd; reflexivity).
  unfold send_tail.
  set (g0 := set_trace _ _).
  assert (Ht : sent_params (trace g0) = sent_params (trace g) ++ [params d]).
  { subst g0. fields. rewrite sent_params_app. reflexivity. }
  destruct (startP g0) as [p |] eqn:E.
  - rewrite (bind_inr _ _ _ _ _ (start_again g0 p E)).
    unfold new_promise, mbind, M_bind, mret, M_ret, gets, modify. cbv beta iota.
    cbn [snd]. fields. exact Ht.
  - rewrite (bind_inr _ _ _ _ _ (start_run g0 E)).
    unfold new_promise, mbind, M_bind, mret, M_ret, gets, modify. cbv beta iota.
    unfold connecting. cbn [snd]. fields. rewrite sent_params_app, Ht. cbn.
    rewrite app_nil_r. reflexivity.
Qed.

Lemma fill_options_other args p : forall ps i o,
  ~ In p (map param_name ps) ->
  fill_options ps i args o !! p = o !! p.
Proof.
  induction ps as [| param ps IH]; intros i o Hp; [reflexivity |].
  cbn [fill_options]. unfold param_name in *.
  destruct (split_param param) as [p0 v] eqn:E. cbn [map fst] in Hp.
  rewrite E in Hp. cbn [fst] in Hp.
  rewrite IH by (intros H; apply Hp; right; exact H).
  destruct (truthy _); [| reflexivity].
  apply lookup_insert_ne. intros ->. apply Hp. left. reflexivity.
Qed.

Lemma fill_options_lookup args : forall ps i o j param,
  NoDup (map param_name ps) ->
  ps !! j = Some param ->
  fill_options ps i args o !! param_name param
  = if truthy (List.nth (i + j) args JUndefined)
    then Some (List.nth (i + j) args JUndefined)
    else o !! param_name param.
Proof.
  induction ps as [| p0 ps IH]; intros i o j param Hnd Hj; [discriminate |].
  cbn [map] in Hnd. apply NoDup_cons in Hnd. destruct Hnd as [Hnotin Hnd].
  cbn [fill_options].
  destruct (split_param p0) as [n0 v0] eqn:E.
  assert (Hn0 : param_name p0 = n0) by (unfold param_name; rewrite E; reflexivity).
  destruct j as [| j].
  - injection Hj as <-. rewrite Nat.add_0_r.
    rewrite fill_options_other
      by (intros H; apply Hnotin, list_elem_of_In; exact H).
    rewrite Hn0. destruct (truthy _); [apply lookup_insert_eq | reflexivity].
  - cbn in Hj. rewrite (IH (S i) _ j param Hnd Hj).
    replace (S i + j)%nat with (i + S j)%nat by lia.
    destruct (truthy (List.nth (i + S j) args JUndefined)); [reflexivity |].
    destruct (truthy (List.nth i args JUndefined)); [| reflexivity].
    apply lookup_insert_ne. rewrite <- Hn0. intros Heq. apply Hnotin.
    rewrite Heq. apply list_elem_of_In, in_map, list_elem_of_In.
    eapply list_elem_of_lookup_2. exact Hj.
Qed.

Lemma map_imap_names (F : string -> jsval) : forall ps (G : nat -> string -> jsval),
  (forall j param, ps !! j = Some param -> F param = G j (param_name param)) ->
  map F ps = imap G (map param_name ps).
Proof.
  induction ps as [| p ps IH]; intros G H; [reflexivity |].
  cbn [map imap]. f_equal.
  - apply (H 0%nat). reflexivity.
  - apply IH. intros j param Hj. apply (H (S j)). exact Hj.
Qed.

(** What one call sends and leaves: helper shared by the theorems. *)
Lemma specializedSend_sends (m : entry) (args : list jsval) (e : env) :
  NoDup (param_names m) ->
  sent_params (trace (this (snd (specializedSend m args e))))
  = sent_params (trace (this e))
    ++ [imap (sent_for (defaultParms e) args) (param_names m)].
Proof.
  intros Hnd.
  unfold specializedSend, mbind, M_bind, gets, modify. cbv beta iota zeta.
  unfold with_this. cbn [this set_defaultParms defaultParms].
  set (opts := fill_options _ _ _ _).
  match goal with
  | |- context [specializedSendWith m ?o ?cb (this e)] =>
      pose proof (send_sent_params (m_api m)
                    {| method := m_method m;
                       params := map (fun param => get o (fst (split_param param)))
                                     (methodParams m);
                       data_id := None |} cb (this e) eq_refl) as Hs;
      unfold specializedSendWith; cbv zeta;
      destruct (send _ _ cb (this e)) as [r g1]
  end.
  cbn [snd this] in *. rewrite Hs. cbn [params]. do 2 f_equal.
  apply map_imap_names. intros j param Hj.
  fold (param_name param). unfold sent_for, argument, get, Object_assign.
  rewrite lookup_union.
  subst opts. rewrite (fill_options_lookup _ _ 0%nat ∅ j param Hnd Hj).
  cbn [Nat.add]. rewrite lookup_empty.
  destruct (defaultParms e !! param_name param); destruct (truthy _); reflexivity.
Qed.

Lemma names_lookup m j p :
  param_names m !! j = Some p ->
  exists param, methodParams m !! j = Some param /\ param_name param = p.
Proof.
  unfold param_names. generalize (methodParams m). intros ps. revert j.
  induction ps as [| q ps IH]; intros j H; [discriminate |].
  destruct j as [| j]; cbn in H.
  - injection H as <-. exists q. split; reflexivity.
  - destruct (IH j H) as (param & H1 & H2). exists param. split; assumption.
Qed.

Lemma remembered (m : entry) (args : list jsval) (e : env) j p :
  NoDup (param_names m) ->
  param_names m !! j = Some p ->
  get (defaultParms (snd (specializedSend m args e))) p
  = sent_for (defaultParms e) args j p.
Proof.
  intros Hnd Hj. destruct (names_lookup m j p Hj) as (param & Hparam & <-).
  rewrite specializedSend_overwrites_defaults.
  unfold sent_for, argument, get, Object_assign. rewrite lookup_union.
  rewrite (fill_options_lookup _ _ 0%nat ∅ j param Hnd Hparam).
  cbn [Nat.add]. rewrite lookup_empty.
  destruct (defaultParms e !! param_name param); destruct (truthy _); reflexivity.
Qed.

(** A generated method sends one value per declared parameter, in the
    declared order: the positional argument when it is truthy, otherwise
    what [defaultParms] holds under the parameter's name, [undefined] if
    nothing. The last argument is never sent: it is taken as the callback.
    A falsy argument (0, [false], [null], the empty string) counts as
    omitted. What was sent is what [defaultParms] holds afterwards. *)
Theorem specializedSend_params (m : entry) (args : list jsval) (e : env) :
  NoDup (param_names m) ->
  let e' := snd (specializedSend m args e) in
  sent_params (trace (this e'))
  = sent_params (trace (this e))
    ++ [imap (sent_for (defaultParms e) args) (param_names m)] /\
  forall j p, param_names m !! j = Some p ->
    get (defaultParms e') p = sent_for (defaultParms e) args j p.
Proof.
  intros Hnd e'. split.
  - apply specializedSend_sends, Hnd.
  - intros j p Hj. apply remembered; assumption.
Qed.

Lemma specializedSend_params_witness :
  let e := loaded parse_literal get_content (new_Golos ws_1 "wss://node") in
  let e' := snd (specializedSend get_content [JStr "bob"; JNum 0; JNum 0; JFun 1] e) in
  sent_params (trace (this e')) = [[JStr "bob"; JStr ""; JNum 10000]] /\
  get (defaultParms e') "author" = JStr "bob".
Proof.
  intros e e'.
  destruct (specializedSend_params get_content
              [JStr "bob"; JNum 0; JNum 0; JFun 1] e) as [H1 H2].
  - apply (bool_decide_unpack _). vm_compute. exact I.
  - split; [exact H1 | exact (H2 0%nat "author"%string eq_refl)].
Defined.

(** An argument given once sticks: a later call of the same method that
    omits that argument, or passes a falsy one, sends the value of the
    earlier call in its place. *)
Theorem argument_becomes_default (m : entry) (args args' : list jsval)
    (e : env) (j : nat) (p : string) :
  NoDup (param_names m) ->
  param_names m !! j = Some p ->
  truthy (argument args j) = true ->
  truthy (argument args' j) = false ->
  let e1 := snd (specializedSend m args e) in
  exists ps,
    sent_params (trace (this (snd (specializedSend m args' e1))))
    = sent_params (trace (this e1)) ++ [ps] /\
    ps !! j = Some (argument args j).
Proof.
  intros Hnd Hj Ht Hf e1.
  exists (imap (sent_for (defaultParms e1) args') (param_names m)).
  split; [apply specializedSend_sends, Hnd |].
  rewrite list_lookup_imap, Hj. cbn. f_equal.
  unfold sent_for at 1. rewrite Hf.
  subst e1. rewrite (remembered m args e j p Hnd Hj).
  unfold sent_for. rewrite Ht. reflexivity.
Qed.

Lemma argument_becomes_default_witness :
  let e := loaded parse_literal get_content (new_Golos ws_1 "wss://node") in
  let e1 := snd (specializedSend get_content
                   [JStr "alice"; JStr "note"; JNum 5; JFun 1] e) in
  exists ps,
    sent_params (trace (this (snd (specializedSend get_content
                                     [JStr "bob"; JStr "post"; JFun 2] e1))))
    = sent_params (trace (this e1)) ++ [ps] /\
    ps !! 2%nat = Some (JNum 5).
Proof.
  intros e e1.
  apply (argument_becomes_default get_content
           [JStr "alice"; JStr "note"; JNum 5; JFun 1]
           [JStr "bob"; JStr "post"; JFun 2] e 2 "voteLimit").
  - apply (bool_decide_unpack _). vm_compute. exact I.
  - reflexivity.
  - reflexivity.
  - reflexivity.
Defined.

Lemma split_free c s : free_of c s = true -> split c s = [s].
Proof.
  induction s as [| c' s IH]; cbn [split free_of]; [reflexivity |].
  intros H. apply andb_true_iff in H. destruct H as [Hc Hs].
  apply negb_true_iff in Hc. rewrite Hc, (IH Hs). reflexivity.
Qed.

Lemma split_app c a b :
  free_of c a = true -> split c (a +:+ String c b) = a :: split c b.
Proof.
  induction a as [| c' a IH].
  - intros _. change ("" +:+ String c b) with (String c b).
    cbn [split]. rewrite Ascii.eqb_refl. reflexivity.
  - change (String c' a +:+ String c b) with (String c' (a +:+ String c b)).
    cbn [split free_of]. intros H. apply andb_true_iff in H. destruct H as [Hc Ha].
    apply negb_true_iff in Hc. rewrite Hc, (IH Ha). reflexivity.
Qed.

Lemma split_param_plain p : free_of "=" p = true -> split_param p = (p, None).
Proof. intros H. unfold split_param. rewrite (split_free _ _ H). reflexivity. Qed.

Lemma split_param_default p v :
  free_of "=" p = true -> free_of "=" v = true ->
  split_param (p +:+ "=" +:+ v) = (p, Some v).
Proof.
  intros Hp Hv. unfold split_param.
  change (p +:+ "=" +:+ v) with (p +:+ String "=" v).
  rewrite (split_app _ _ _ Hp), (split_free _ _ Hv). reflexivity.
Qed.

Section Defaults.

Variable JSON_parse : string -> jsval.

Lemma add_default_other ps p : forall acc,
  ~ In p (map param_name ps) ->
  fold_left (add_default JSON_parse) ps acc !! p = acc !! p.
Proof.
  induction ps as [| q ps IH]; intros acc H; [reflexivity |].
  cbn [fold_left]. rewrite IH by (intros Hin; apply H; right; exact Hin).
  unfold add_default. destruct (split_param q) as [n v] eqn:E.
  apply lookup_insert_ne. intros ->. apply H. left. unfold param_name.
  rewrite E. reflexivity.
Qed.

Lemma add_default_lookup ps param : forall acc,
  NoDup (map param_name ps) -> In param ps ->
  fold_left (add_default JSON_parse) ps acc !! param_name param
  = Some (default_of JSON_parse (snd (split_param param))).
Proof.
  induction ps as [| q ps IH]; intros acc Hnd Hin; [contradiction |].
  cbn [map] in Hnd. apply NoDup_cons in Hnd. destruct Hnd as [Hq Hnd].
  cbn [fold_left]. destruct Hin as [-> | Hin].
  - rewrite add_default_other
      by (intros H; apply Hq, list_elem_of_In; exact H).
    unfold add_default, param_name. destruct (split_param param) as [n v].
    apply lookup_insert_eq.
  - apply IH; assumption.
Qed.

(** The defaults a registry entry declares. When the entry has
    [has_default_values], a parameter written [name=value] starts with the
    default [JSON.parse(value)], and a parameter written without ['=']
    with the empty string. *)
Theorem declared_defaults (m : entry) (p v : string) :
  m_has_default_values m = true ->
  NoDup (param_names m) ->
  free_of "=" p = true -> free_of "=" v = true -> v <> ""%string ->
  (In (p +:+ "=" +:+ v) (methodParams m) ->
   get (initial_defaultParms JSON_parse m) p = JSON_parse v) /\
  (In p (methodParams m) ->
   get (initial_defaultParms JSON_parse m) p = JStr "").
Proof.
  intros Hd Hnd Hp Hv Hne.
  assert (Hfold : initial_defaultParms JSON_parse m
                  = fold_left (add_default JSON_parse) (methodParams m) ∅).
  { unfold initial_defaultParms. rewrite Hd. reflexivity. }
  rewrite Hfold. unfold get. split; intros Hin.
  - pose proof (add_default_lookup _ _ ∅ Hnd Hin) as H.
    unfold param_name in H. rewrite (split_param_default p v Hp Hv) in H.
    cbn [fst snd default_of] in H. rewrite H.
    destruct (String.eqb_spec v ""); [contradiction | reflexivity].
  - pose proof (add_default_lookup _ _ ∅ Hnd Hin) as H.
    unfold param_name in H. rewrite (split_param_plain p Hp) in H.
    cbn [fst snd default_of] in H. rewrite H. reflexivity.
Qed.

End Defaults.

Lemma declared_defaults_witness :
  get (initial_defaultParms parse_literal get_content) "voteLimit" = JNum 10000.
Proof.
  destruct (declared_defaults parse_literal get_content "voteLimit" "10000")
    as [H _].
  - reflexivity.
  - apply (bool_decide_unpack _). vm_compute. exact I.
  - reflexivity.
  - reflexivity.
  - discriminate.
  - rewrite H; [reflexivity |]. cbn. auto.
Defined.

End BindingBehaviour.
